(** * Verification of the aiCore plugin engine and prompt tool-use streaming

    A shallow embedding of
    - [StreamEventManager] (usage accumulation, step events, recursive piping),
    - [PluginManager] (hook composition policies),
    - [PluginEngine] (request lifecycle, bounded recursion, middleware),
    - [createPromptToolUsePlugin] (parameter and stream transformation),
    together with the Tag Extractor as the specification describes it.

    JavaScript objects used as records of options are finite maps from
    property names to values; token counts are integers; asynchronous
    functions are state-passing functions over the shared request context
    that either return, throw, or run out of fuel. *)

From stdpp Require Import gmap strings list fin_maps sorting.
From Stdlib Require Import ZArith Lia Ascii.

Set Warnings "-register-all".
Set Default Proof Using "Type".

Open Scope Z_scope.

(* ===================================================================== *)
(** * JavaScript values *)
(* ===================================================================== *)

Inductive value : Type :=
| VUndefined
| VNull
| VBool (b : bool)
| VNum (z : Z)
| VStr (s : string)
| VArr (items : list value)
| VObj (fields : gmap string value).

Abbreviation object := (gmap string value).

(** [{...a, ...b}]: the properties of [b] win over those of [a]. *)
Definition spread (a b : object) : object := b ∪ a.

(** JavaScript truthiness, as used by [if (!x)] and [x ? _ : _]. *)
Definition truthy (v : value) : bool :=
  match v with
  | VUndefined | VNull => false
  | VBool b => b
  | VNum z => negb (z =? 0)
  | VStr s => negb (String.eqb s "")
  | VArr _ | VObj _ => true
  end.

(** [o.k], where a missing property reads as [undefined]. *)
Definition prop (o : object) (k : string) : value := default VUndefined (o !! k).

(** [v.k] for an arbitrary value (non-objects have no such properties). *)
Definition getProp (v : value) (k : string) : value :=
  match v with VObj o => prop o k | _ => VUndefined end.

Definition isString (v : value) : bool :=
  match v with VStr _ => true | _ => false end.

Definition isUndefined (v : value) : bool :=
  match v with VUndefined => true | _ => false end.

Definition isNullish (v : value) : bool :=
  match v with VUndefined | VNull => true | _ => false end.

(** The deep merge that the specification names for parameter patches:
    objects are merged key by key, recursively; anywhere else the patch
    wins.  (The code under verification spreads instead, see [spread].) *)
Fixpoint deepMerge (a b : value) {struct a} : value :=
  match a, b with
  | VObj xs, VObj ys =>
      VObj (merge (λ oa ob, match oa, ob with
                            | Some va, Some vb => Some (deepMerge va vb)
                            | Some va, None => Some va
                            | None, _ => ob
                            end) xs ys)
  | _, _ => b
  end.

Definition deepMergeObject (a b : object) : object :=
  match deepMerge (VObj a) (VObj b) with VObj o => o | _ => b end.

(* ===================================================================== *)
(** * Usage records and [StreamEventManager.accumulateUsage] *)
(* ===================================================================== *)

Module Usage.

(** A numeric property of a [Partial<...>] record: the key can be
    missing, present with value [undefined], or hold a number. *)
Inductive field : Type := Absent | Undefined | Num (n : Z).

(** ['k' in usage] *)
Definition has (f : field) : bool :=
  match f with Absent => false | _ => true end.

(** [usage.k || 0] *)
Definition orZero (f : field) : Z :=
  match f with Num n => n | _ => 0 end.

(** An object-valued property: missing, [undefined], or an object. *)
Inductive slot (A : Type) : Type := Missing | Void | Obj (a : A).
Arguments Missing {A}.
Arguments Void {A}.
Arguments Obj {A} a.

Definition present {A} (s : slot A) : bool :=
  match s with Missing => false | _ => true end.

Record InputTokenDetails : Type := mkInputTokenDetails {
  noCacheTokens : field;
  cacheReadTokens : field;
  cacheWriteTokens : field
}.

Record OutputTokenDetails : Type := mkOutputTokenDetails {
  textTokens : field;
  reasoningTokens : field
}.

(** [Partial<AiSdkUsage>]: the union of the language-model, image-model
    and embedding-model usage shapes.  [legacyReasoningTokens] and
    [cachedInputTokens] are the two further top-level keys of the
    accumulator that [transformStream] creates. *)
Record usage : Type := mkUsage {
  totalTokens : field;
  inputTokens : field;
  outputTokens : field;
  inputTokenDetails : slot InputTokenDetails;
  outputTokenDetails : slot OutputTokenDetails;
  tokens : field;
  legacyReasoningTokens : field;
  cachedInputTokens : field
}.

(** Type guards. *)
Definition isLanguageModelUsage (u : usage) : bool :=
  has (totalTokens u) || has (inputTokens u) || has (outputTokens u).

Definition isImageModelUsage (u : usage) : bool :=
  has (inputTokens u) && has (outputTokens u)
  && negb (present (inputTokenDetails u))
  && negb (present (outputTokenDetails u)).

Definition isEmbeddingModelUsage (u : usage) : bool :=
  has (tokens u) && negb (has (inputTokens u)) && negb (has (outputTokens u)).

(** The argument of the [console.warn] call. *)
Inductive diagnostic : Type :=
| UnableToAccumulate (target source : usage).

Definition addInputDetails (t : slot InputTokenDetails) (s : InputTokenDetails)
  : slot InputTokenDetails :=
  let td := match t with
            | Obj td => td
            | _ => mkInputTokenDetails Undefined Undefined Undefined
            end in
  Obj {| cacheReadTokens := Num (orZero (cacheReadTokens td) + orZero (cacheReadTokens s));
         cacheWriteTokens := Num (orZero (cacheWriteTokens td) + orZero (cacheWriteTokens s));
         noCacheTokens := Num (orZero (noCacheTokens td) + orZero (noCacheTokens s)) |}.

Definition addOutputDetails (t : slot OutputTokenDetails) (s : OutputTokenDetails)
  : slot OutputTokenDetails :=
  let td := match t with
            | Obj td => td
            | _ => mkOutputTokenDetails Undefined Undefined
            end in
  Obj {| reasoningTokens := Num (orZero (reasoningTokens td) + orZero (reasoningTokens s));
         textTokens := Num (orZero (textTokens td) + orZero (textTokens s)) |}.

(** The three assignments shared by the language and image branches. *)
Definition addTokenTotals (target source : usage) : usage :=
  {| totalTokens := Num (orZero (totalTokens target) + orZero (totalTokens source));
     inputTokens := Num (orZero (inputTokens target) + orZero (inputTokens source));
     outputTokens := Num (orZero (outputTokens target) + orZero (outputTokens source));
     inputTokenDetails := inputTokenDetails target;
     outputTokenDetails := outputTokenDetails target;
     tokens := tokens target;
     legacyReasoningTokens := legacyReasoningTokens target;
     cachedInputTokens := cachedInputTokens target |}.

Definition accumulateLanguage (target source : usage) : usage :=
  let t := addTokenTotals target source in
  {| totalTokens := totalTokens t;
     inputTokens := inputTokens t;
     outputTokens := outputTokens t;
     inputTokenDetails :=
       match inputTokenDetails source with
       | Obj sd => addInputDetails (inputTokenDetails target) sd
       | _ => inputTokenDetails target
       end;
     outputTokenDetails :=
       match outputTokenDetails source with
       | Obj sd => addOutputDetails (outputTokenDetails target) sd
       | _ => outputTokenDetails target
       end;
     tokens := tokens t;
     legacyReasoningTokens := legacyReasoningTokens t;
     cachedInputTokens := cachedInputTokens t |}.

Definition accumulateEmbedding (target source : usage) : usage :=
  {| totalTokens := totalTokens target;
     inputTokens := inputTokens target;
     outputTokens := outputTokens target;
     inputTokenDetails := inputTokenDetails target;
     outputTokenDetails := outputTokenDetails target;
     tokens := Num (orZero (tokens target) + orZero (tokens source));
     legacyReasoningTokens := legacyReasoningTokens target;
     cachedInputTokens := cachedInputTokens target |}.

(** [accumulateUsage(target, source)] mutates [target] in place and
    returns nothing; here it returns the new contents of [target] and the
    diagnostics written to the console.  [None] stands for a [null] or
    [undefined] argument. *)
Definition accumulateUsage (target source : option usage)
  : option usage * list diagnostic :=
  match target, source with
  | Some t, Some s =>
      if isLanguageModelUsage t && isLanguageModelUsage s then
        (Some (accumulateLanguage t s), [])
      else if isImageModelUsage t && isImageModelUsage s then
        (Some (addTokenTotals t s), [])
      else if isEmbeddingModelUsage t && isEmbeddingModelUsage s then
        (Some (accumulateEmbedding t s), [])
      else (Some t, [UnableToAccumulate t s])
  | _, _ => (target, [])
  end.

(** Accumulation of a record into a record, keeping only the new target. *)
Definition acc (t s : usage) : usage :=
  default t (fst (accumulateUsage (Some t) (Some s))).

(** Usage record literals. *)
Definition tokenUsage (i o t : Z) : usage :=
  mkUsage (Num t) (Num i) (Num o) Missing Missing Absent Absent Absent.

Definition embeddingUsage (n : Z) : usage :=
  mkUsage Absent Absent Absent Missing Missing (Num n) Absent Absent.

(** The accumulator created by [transformStream]. *)
Definition initialAccumulator : usage :=
  mkUsage (Num 0) (Num 0) (Num 0) Missing Missing Absent (Num 0) (Num 0).

(** ** Shapes *)

(** A record that carries [tokens] and none of the three token totals:
    "EmbeddingModelUsage only contains the tokens field". *)
Definition embeddingOnly (u : usage) : bool :=
  isEmbeddingModelUsage u && negb (has (totalTokens u)).

(** Three records of one shape. *)
Definition sameShape (t a b : usage) : Prop :=
  (isLanguageModelUsage t = true ∧ isLanguageModelUsage a = true
     ∧ isLanguageModelUsage b = true)
  ∨ (isImageModelUsage t = true ∧ isImageModelUsage a = true
     ∧ isImageModelUsage b = true)
  ∨ (embeddingOnly t = true ∧ embeddingOnly a = true ∧ embeddingOnly b = true).

(** No guard accepts both records. *)
Definition mismatched (t s : usage) : Prop :=
  isLanguageModelUsage t && isLanguageModelUsage s = false
  ∧ isImageModelUsage t && isImageModelUsage s = false
  ∧ isEmbeddingModelUsage t && isEmbeddingModelUsage s = false.

End Usage.

(* ===================================================================== *)
(** * The Tag Extractor *)
(* ===================================================================== *)

(** The class [TagExtractor] (module [./tagExtraction]) is imported by the
    prompt tool-use plugin but its source is not part of the files at hand;
    it is modelled from the specification, over an arbitrary alphabet, in
    agreement with the tests of the plugin, in which text that is not part
    of a tag is forwarded as soon as it arrives. *)

Module TagExtractor.
Section Extractor.
Context {A : Type} `{!EqDecision A}.

Record TagConfig : Type := mkTagConfig {
  openingTag : list A;
  closingTag : list A;
  separator : list A
}.

(** Tag Extraction State: [{ buffer (unconsumed raw text), insideTag }],
    and whether a tag boundary has been passed since the last fragment was
    emitted, which is where the separator goes. *)
Record TagExtractionState : Type := mkState {
  buffer : list A;
  insideTag : bool;
  afterSwitch : bool
}.

(** An emitted fragment, tagged [isTagContent = insideTag]. *)
Record TagExtractionResult : Type := mkResult {
  content : list A;
  isTagContent : bool
}.

Definition initialState : TagExtractionState := mkState [] false false.

(** [tag] starts the text [s]. *)
Fixpoint startsWith (tag s : list A) : bool :=
  match tag, s with
  | [], _ => true
  | _ :: _, [] => false
  | a :: tag', b :: s' => bool_decide (a = b) && startsWith tag' s'
  end.

(** Position of the next occurrence of [tag] in [s]. *)
Fixpoint indexOf (tag s : list A) : option nat :=
  if startsWith tag s then Some 0%nat
  else match s with
       | [] => None
       | _ :: s' => S <$> indexOf tag s'
       end.

(** Modelled from the spec: the position of "a partial tag straddling the
    chunk boundary", missing from the sources: the last position of [s]
    from which the rest of [s] is a beginning of [tag]. *)
Fixpoint partialTagIndex (tag s : list A) : option nat :=
  match s with
  | [] => None
  | a :: s' =>
      match partialTagIndex tag s' with
      | Some i => Some (S i)
      | None => if startsWith (a :: s') tag then Some 0%nat else None
      end
  end.

(** Modelled from the spec: the next "tag boundary" of the buffer, missing
    from the sources: the next occurrence of the expected tag, or else the
    partial tag that ends the buffer.  An empty tag has no boundary. *)
Definition tagBoundary (tag s : list A) : option nat :=
  match tag with
  | [] => None
  | _ :: _ =>
      match indexOf tag s with
      | Some i => Some i
      | None => partialTagIndex tag s
      end
  end.

(** Whichever tag is expected next: opening if not currently inside,
    closing if currently inside. *)
Definition expectedTag (cfg : TagConfig) (inside : bool) : list A :=
  if inside then closingTag cfg else openingTag cfg.

(** Modelled from the spec: how a fragment is emitted, missing from the
    sources.  Empty text is not emitted; the separator is put in front of
    the first fragment that is emitted after a tag boundary, so that it
    stands between the segments that the tag separates.  The second
    component says whether a separator is still due. *)
Definition emit (cfg : TagConfig) (inside after : bool) (text : list A)
  : list TagExtractionResult * bool :=
  match text with
  | [] => ([], after)
  | _ :: _ =>
      ([mkResult ((if after then separator cfg else []) ++ text) inside], false)
  end.

(** Modelled from the spec: the scanning loop of the Tag Extractor, which
    is missing from the sources.  "Repeatedly scan for the next occurrence
    of whichever tag is expected next; everything before that tag boundary
    is emitted as a fragment tagged isTagContent = insideTag; flip insideTag
    and consume the tag token; when no further tag boundary is found in the
    buffer, retain the unconsumed remainder (which may itself be a partial
    tag straddling the chunk boundary) for the next call."  Text that holds
    no tag boundary is emitted as a whole, and of a buffer that ends in a
    partial tag only that partial tag is retained.  The loop makes at most
    [fuel] rounds; each round but the last consumes a tag, so with non-empty
    tags one round more than the length of the text is enough. *)
Fixpoint scan (fuel : nat) (cfg : TagConfig) (inside after : bool) (s : list A)
  : list TagExtractionResult * TagExtractionState :=
  match fuel with
  | O => ([], mkState s inside after)
  | S n =>
      let tag := expectedTag cfg inside in
      match tagBoundary tag s with
      | None =>
          let '(rs, after') := emit cfg inside after s in
          (rs, mkState [] inside after')
      | Some i =>
          let '(rs, after') := emit cfg inside after (take i s) in
          if (i + length tag <=? length s)%nat then
            let '(more, st) := scan n cfg (negb inside) true (drop (i + length tag) s) in
            (rs ++ more, st)
          else (rs, mkState (drop i s) inside after')
      end
  end.

(** Modelled from the spec: [processText], missing from the sources.
    "On each new fragment, append to buffer", then run the scanning loop. *)
Definition processText (cfg : TagConfig) (st : TagExtractionState) (fragment : list A)
  : list TagExtractionResult * TagExtractionState :=
  let s := buffer st ++ fragment in
  scan (S (length s)) cfg (insideTag st) (afterSwitch st) s.

(** Modelled from the spec: the teardown of the Tag Extractor, missing
    from the sources.  "On stream teardown, any still-buffered non-tag
    content is flushed", and the state is reset. *)
Definition finalize (cfg : TagConfig) (st : TagExtractionState)
  : list TagExtractionResult * TagExtractionState :=
  (if insideTag st then [] else (emit cfg false (afterSwitch st) (buffer st)).1,
   initialState).

(** Feeding a sequence of fragments, one call of [processText] each. *)
Fixpoint feed (cfg : TagConfig) (st : TagExtractionState) (fragments : list (list A))
  : list TagExtractionResult * TagExtractionState :=
  match fragments with
  | [] => ([], st)
  | f :: fs =>
      let '(rs, st1) := processText cfg st f in
      let '(rs', st2) := feed cfg st1 fs in
      (rs ++ rs', st2)
  end.

(** A whole stream: all fragments, then the teardown. *)
Definition extract (cfg : TagConfig) (fragments : list (list A))
  : list TagExtractionResult :=
  let '(rs, st) := feed cfg initialState fragments in
  rs ++ (finalize cfg st).1.

(** Concatenation of the "outside" fragments, of the "inside" fragments,
    and of all fragments. *)
Definition outsideText (rs : list TagExtractionResult) : list A :=
  concat (content <$> filter (λ r, isTagContent r = false) rs).

Definition insideText (rs : list TagExtractionResult) : list A :=
  concat (content <$> filter (λ r, isTagContent r = true) rs).

Definition emittedText (rs : list TagExtractionResult) : list A :=
  concat (content <$> rs).

(** A tag is not empty, and its first character does not occur in it
    again: no proper end of the tag is a beginning of it. *)
Definition simpleTag (tag : list A) : Prop :=
  ∃ a rest, tag = a :: rest ∧ a ∉ rest.

(** Both tags are of that kind, as in the configuration of the plugin. *)
Definition wellFormed (cfg : TagConfig) : Prop :=
  simpleTag (openingTag cfg) ∧ simpleTag (closingTag cfg).

(** No tag boundary of [p ++ u] lies in [p]. *)
Definition boundaryFree (tag p u : list A) : Prop :=
  ∀ k, (k < length p)%nat →
    startsWith tag (drop k (p ++ u)) = false ∧ startsWith (drop k (p ++ u)) tag = false.

(** Two runs of the extractor that emit the same text outside the tag and
    the same text inside it, and end in the same state. *)
Definition sameRun (x y : list TagExtractionResult * TagExtractionState) : Prop :=
  outsideText x.1 = outsideText y.1 ∧ insideText x.1 = insideText y.1 ∧ x.2 = y.2.

End Extractor.
Global Arguments TagConfig : clear implicits.
Global Arguments TagExtractionState : clear implicits.
Global Arguments TagExtractionResult : clear implicits.

(** The tag pair of the prompt tool-use plugin, [TOOL_USE_TAG_CONFIG]. *)
Definition chars (s : string) : list ascii :=
  Stdlib.Strings.String.list_ascii_of_string s.

Definition TOOL_USE_TAG_CONFIG : TagConfig ascii :=
  mkTagConfig (chars "<tool_use>") (chars "</tool_use>") ["010"%char].

End TagExtractor.

(* ===================================================================== *)
(** * The request context and the effects of asynchronous code *)
(* ===================================================================== *)

Module Engine.

(** The function stored in [context.recursiveCall]: the placeholder of
    [createContext], or the closure that a lifecycle invocation installs,
    which captures the parameters that invocation was called with. *)
Inductive RecursiveCallFn : Type :=
| Placeholder
| EngineClosure (params : object).

Record AiRequestContext : Type := mkContext {
  providerId : string;
  model : value;
  originalParams : object;
  metadata : object;
  startTime : Z;
  requestId : string;
  recursiveCall : RecursiveCallFn;
  isRecursiveCall : bool;
  recursiveDepth : Z;
  maxRecursiveDepth : Z;
  mcpTools : option object;
  extensions : object;
  middlewares : option (list value);
  accumulatedUsage : option Usage.usage;
  hasExecutedToolsInCurrentStep : bool;
  dynamic : object
}.

(** Assignments to single properties of the context. *)
Definition set_originalParams (x : object) (c : AiRequestContext) : AiRequestContext :=
  {| providerId := providerId c;
     model := model c;
     originalParams := x;
     metadata := metadata c;
     startTime := startTime c;
     requestId := requestId c;
     recursiveCall := recursiveCall c;
     isRecursiveCall := isRecursiveCall c;
     recursiveDepth := recursiveDepth c;
     maxRecursiveDepth := maxRecursiveDepth c;
     mcpTools := mcpTools c;
     extensions := extensions c;
     middlewares := middlewares c;
     accumulatedUsage := accumulatedUsage c;
     hasExecutedToolsInCurrentStep := hasExecutedToolsInCurrentStep c;
     dynamic := dynamic c |}.

Definition set_recursiveCall (x : RecursiveCallFn) (c : AiRequestContext) : AiRequestContext :=
  {| providerId := providerId c;
     model := model c;
     originalParams := originalParams c;
     metadata := metadata c;
     startTime := startTime c;
     requestId := requestId c;
     recursiveCall := x;
     isRecursiveCall := isRecursiveCall c;
     recursiveDepth := recursiveDepth c;
     maxRecursiveDepth := maxRecursiveDepth c;
     mcpTools := mcpTools c;
     extensions := extensions c;
     middlewares := middlewares c;
     accumulatedUsage := accumulatedUsage c;
     hasExecutedToolsInCurrentStep := hasExecutedToolsInCurrentStep c;
     dynamic := dynamic c |}.

Definition set_isRecursiveCall (x : bool) (c : AiRequestContext) : AiRequestContext :=
  {| providerId := providerId c;
     model := model c;
     originalParams := originalParams c;
     metadata := metadata c;
     startTime := startTime c;
     requestId := requestId c;
     recursiveCall := recursiveCall c;
     isRecursiveCall := x;
     recursiveDepth := recursiveDepth c;
     maxRecursiveDepth := maxRecursiveDepth c;
     mcpTools := mcpTools c;
     extensions := extensions c;
     middlewares := middlewares c;
     accumulatedUsage := accumulatedUsage c;
     hasExecutedToolsInCurrentStep := hasExecutedToolsInCurrentStep c;
     dynamic := dynamic c |}.

Definition set_recursiveDepth (x : Z) (c : AiRequestContext) : AiRequestContext :=
  {| providerId := providerId c;
     model := model c;
     originalParams := originalParams c;
     metadata := metadata c;
     startTime := startTime c;
     requestId := requestId c;
     recursiveCall := recursiveCall c;
     isRecursiveCall := isRecursiveCall c;
     recursiveDepth := x;
     maxRecursiveDepth := maxRecursiveDepth c;
     mcpTools := mcpTools c;
     extensions := extensions c;
     middlewares := middlewares c;
     accumulatedUsage := accumulatedUsage c;
     hasExecutedToolsInCurrentStep := hasExecutedToolsInCurrentStep c;
     dynamic := dynamic c |}.

Definition set_maxRecursiveDepth (x : Z) (c : AiRequestContext) : AiRequestContext :=
  {| providerId := providerId c;
     model := model c;
     originalParams := originalParams c;
     metadata := metadata c;
     startTime := startTime c;
     requestId := requestId c;
     recursiveCall := recursiveCall c;
     isRecursiveCall := isRecursiveCall c;
     recursiveDepth := recursiveDepth c;
     maxRecursiveDepth := x;
     mcpTools := mcpTools c;
     extensions := extensions c;
     middlewares := middlewares c;
     accumulatedUsage := accumulatedUsage c;
     hasExecutedToolsInCurrentStep := hasExecutedToolsInCurrentStep c;
     dynamic := dynamic c |}.

Definition set_mcpTools (x : option object) (c : AiRequestContext) : AiRequestContext :=
  {| providerId := providerId c;
     model := model c;
     originalParams := originalParams c;
     metadata := metadata c;
     startTime := startTime c;
     requestId := requestId c;
     recursiveCall := recursiveCall c;
     isRecursiveCall := isRecursiveCall c;
     recursiveDepth := recursiveDepth c;
     maxRecursiveDepth := maxRecursiveDepth c;
     mcpTools := x;
     extensions := extensions c;
     middlewares := middlewares c;
     accumulatedUsage := accumulatedUsage c;
     hasExecutedToolsInCurrentStep := hasExecutedToolsInCurrentStep c;
     dynamic := dynamic c |}.

Definition set_middlewares (x : option (list value)) (c : AiRequestContext) : AiRequestContext :=
  {| providerId := providerId c;
     model := model c;
     originalParams := originalParams c;
     metadata := metadata c;
     startTime := startTime c;
     requestId := requestId c;
     recursiveCall := recursiveCall c;
     isRecursiveCall := isRecursiveCall c;
     recursiveDepth := recursiveDepth c;
     maxRecursiveDepth := maxRecursiveDepth c;
     mcpTools := mcpTools c;
     extensions := extensions c;
     middlewares := x;
     accumulatedUsage := accumulatedUsage c;
     hasExecutedToolsInCurrentStep := hasExecutedToolsInCurrentStep c;
     dynamic := dynamic c |}.

Definition set_accumulatedUsage (x : option Usage.usage) (c : AiRequestContext) : AiRequestContext :=
  {| providerId := providerId c;
     model := model c;
     originalParams := originalParams c;
     metadata := metadata c;
     startTime := startTime c;
     requestId := requestId c;
     recursiveCall := recursiveCall c;
     isRecursiveCall := isRecursiveCall c;
     recursiveDepth := recursiveDepth c;
     maxRecursiveDepth := maxRecursiveDepth c;
     mcpTools := mcpTools c;
     extensions := extensions c;
     middlewares := middlewares c;
     accumulatedUsage := x;
     hasExecutedToolsInCurrentStep := hasExecutedToolsInCurrentStep c;
     dynamic := dynamic c |}.

Definition set_hasExecutedToolsInCurrentStep (x : bool) (c : AiRequestContext) : AiRequestContext :=
  {| providerId := providerId c;
     model := model c;
     originalParams := originalParams c;
     metadata := metadata c;
     startTime := startTime c;
     requestId := requestId c;
     recursiveCall := recursiveCall c;
     isRecursiveCall := isRecursiveCall c;
     recursiveDepth := recursiveDepth c;
     maxRecursiveDepth := maxRecursiveDepth c;
     mcpTools := mcpTools c;
     extensions := extensions c;
     middlewares := middlewares c;
     accumulatedUsage := accumulatedUsage c;
     hasExecutedToolsInCurrentStep := x;
     dynamic := dynamic c |}.

Definition set_dynamic (x : object) (c : AiRequestContext) : AiRequestContext :=
  {| providerId := providerId c;
     model := model c;
     originalParams := originalParams c;
     metadata := metadata c;
     startTime := startTime c;
     requestId := requestId c;
     recursiveCall := recursiveCall c;
     isRecursiveCall := isRecursiveCall c;
     recursiveDepth := recursiveDepth c;
     maxRecursiveDepth := maxRecursiveDepth c;
     mcpTools := mcpTools c;
     extensions := extensions c;
     middlewares := middlewares c;
     accumulatedUsage := accumulatedUsage c;
     hasExecutedToolsInCurrentStep := hasExecutedToolsInCurrentStep c;
     dynamic := x |}.

(** [createContext(providerId, model, originalParams)]; the request id and
    the start time come from the clock and the random generator. *)
Definition createContext (providerId : string) (model : value) (originalParams : object)
    (requestId : string) (startTime : Z) : AiRequestContext :=
  {| providerId := providerId;
     model := model;
     originalParams := originalParams;
     metadata := ∅;
     startTime := startTime;
     requestId := requestId;
     recursiveCall := Placeholder;
     isRecursiveCall := false;
     recursiveDepth := 0;
     maxRecursiveDepth := 10;
     mcpTools := None;
     extensions := ∅;
     middlewares := Some [];
     accumulatedUsage := None;
     hasExecutedToolsInCurrentStep := false;
     dynamic := ∅ |}.

(** Values that can be thrown.  [TypeError v k] is the error of reading
    the property [k] of [v], which is [undefined] or [null]. *)
Inductive error : Type :=
| RecursiveDepthError (requestId : string) (currentDepth maxDepth : Z)
| ModelResolutionError (modelId : value) (providerId : string)
| TypeError (v : value) (property : string)
| Thrown (v : value).

(** [error !== undefined] fails only for a thrown [undefined]. *)
Definition isUndefinedError (e : error) : bool :=
  match e with Thrown VUndefined => true | _ => false end.

(** How an asynchronous call ends: it returns, it throws (its promise is
    rejected), or the fuel of the model does not suffice to tell. *)
Inductive outcome (A : Type) : Type :=
| Ok (a : A)
| Throw (e : error)
| Diverge.
Global Arguments Ok {A} a.
Global Arguments Throw {A} e.
Global Arguments Diverge {A}.

(** Code that runs against the shared, mutable request context. *)
Definition M (A : Type) : Type := AiRequestContext → outcome A * AiRequestContext.

Definition ret {A} (a : A) : M A := λ c, (Ok a, c).

Definition throw {A} (e : error) : M A := λ c, (Throw e, c).

Definition bind {A B} (m : M A) (k : A → M B) : M B :=
  λ c, match m c with
       | (Ok a, c') => k a c'
       | (Throw e, c') => (Throw e, c')
       | (Diverge, c') => (Diverge, c')
       end.

Definition getContext : M AiRequestContext := λ c, (Ok c, c).

Definition modifyContext (f : AiRequestContext → AiRequestContext) : M unit :=
  λ c, (Ok tt, f c).

(** [try { m } catch (error) { handler error }] *)
Definition tryCatch {A} (m : M A) (handler : error → M A) : M A :=
  λ c, match m c with
       | (Throw e, c') => handler e c'
       | r => r
       end.

(** [try { m } finally { cleanup }] *)
Definition tryFinally {A} (m : M A) (cleanup : AiRequestContext → AiRequestContext) : M A :=
  λ c, match m c with
       | (Diverge, c') => (Diverge, c')
       | (r, c') => (r, cleanup c')
       end.

Notation "'let*' x ':=' m 'in' k" := (bind m (λ x, k))
  (at level 10, x pattern, m at level 200, k at level 200).

(** What a hook of type [() => void | Promise<void>] hands back when its
    call returns: [undefined] or a promise that is fulfilled (for
    [Promise.all] the two are alike), or a promise that is rejected with an
    error, [after] so many turns of the event loop.  A hook that is a plain
    function and throws does not return: its call is a [Throw].  What a
    hook does to the context is taken to be done by the time its call
    returns. *)
Inductive promise : Type :=
| Fulfilled
| Rejected (e : error) (after : nat).

(* ===================================================================== *)
(** * [PluginManager] *)
(* ===================================================================== *)

Inductive Enforce : Type := Pre | Post.

Inductive FirstHook : Type := ResolveModel | LoadTemplate.

Inductive ParallelHook : Type := OnRequestStart | OnRequestEnd | OnError.

(** What the engine needs from the AI SDK and from the result type. *)
Record Sdk (R : Type) : Type := mkSdk {
  (** the result [null as any] of the placeholder recursive call *)
  nullResult : R;
  (** [result === undefined] *)
  isUndefinedResult : R → bool;
  (** [wrapLanguageModel({ model, middleware })] *)
  wrapLanguageModel : value → list value → value
}.
Global Arguments nullResult {R} _.
Global Arguments isUndefinedResult {R} _ _.
Global Arguments wrapLanguageModel {R} _ _ _.

Section Plugins.
Context {R T : Type}.

(** [context.recursiveCall], as a plugin hook can invoke it. *)
Definition RecursiveCall : Type := object → M R.

(** [AiPlugin<TParams, TResult>].  A hook receives, besides its arguments,
    the function that calling [context.recursiveCall] runs.  The engine
    awaits the hooks it calls one at a time, so for them a rejected promise
    is a [Throw]; the hooks that [executeParallel] calls are not awaited
    one by one, and return a [promise]. *)
Record AiPlugin : Type := mkPlugin {
  name : string;
  enforce : option Enforce;
  resolveModel : option (RecursiveCall → string → M value);
  loadTemplate : option (RecursiveCall → string → M value);
  configureContext : option (RecursiveCall → M unit);
  transformParams : option (RecursiveCall → object → M object);
  transformResult : option (RecursiveCall → R → M R);
  onRequestStart : option (RecursiveCall → M promise);
  onRequestEnd : option (RecursiveCall → R → M promise);
  onError : option (RecursiveCall → error → M promise);
  transformStream : option (RecursiveCall → object → AiRequestContext → T)
}.

(** A plugin with a name and no hooks. *)
Definition plugin (name : string) : AiPlugin :=
  mkPlugin name None None None None None None None None None None.

Definition isPre (p : AiPlugin) : bool :=
  match enforce p with Some Pre => true | _ => false end.

Definition isPost (p : AiPlugin) : bool :=
  match enforce p with Some Post => true | _ => false end.

Definition isNormal (p : AiPlugin) : bool := negb (isPre p) && negb (isPost p).

(** [sortPlugins]: pre, then normal, then post. *)
Definition sortPlugins (plugins : list AiPlugin) : list AiPlugin :=
  filter (λ p, isPre p = true) plugins
  ++ filter (λ p, isNormal p = true) plugins
  ++ filter (λ p, isPost p = true) plugins.

(** [new PluginManager(plugins)]: the manager holds the sorted list. *)
Definition PluginManager (plugins : list AiPlugin) : list AiPlugin := sortPlugins plugins.

Definition firstHook (hookName : FirstHook) (p : AiPlugin)
  : option (RecursiveCall → string → M value) :=
  match hookName with
  | ResolveModel => resolveModel p
  | LoadTemplate => loadTemplate p
  end.

(** [executeFirst]: the first result that is neither [null] nor
    [undefined], or [null]. *)
Fixpoint executeFirst (rc : RecursiveCall) (hookName : FirstHook)
    (plugins : list AiPlugin) (arg : string) : M value :=
  match plugins with
  | [] => ret VNull
  | p :: rest =>
      match firstHook hookName p with
      | Some hook =>
          let* result := hook rc arg in
          if isNullish result then executeFirst rc hookName rest arg else ret result
      | None => executeFirst rc hookName rest arg
      end
  end.

(** [executeTransformParams]: each partial result is spread over the
    running parameters. *)
Fixpoint executeTransformParams (rc : RecursiveCall) (plugins : list AiPlugin)
    (result : object) : M object :=
  match plugins with
  | [] => ret result
  | p :: rest =>
      match transformParams p with
      | Some hook =>
          let* partial := hook rc result in
          executeTransformParams rc rest (spread result partial)
      | None => executeTransformParams rc rest result
      end
  end.

(** [executeTransformResult] *)
Fixpoint executeTransformResult (rc : RecursiveCall) (plugins : list AiPlugin)
    (result : R) : M R :=
  match plugins with
  | [] => ret result
  | p :: rest =>
      match transformResult p with
      | Some hook =>
          let* transformed := hook rc result in
          executeTransformResult rc rest transformed
      | None => executeTransformResult rc rest result
      end
  end.

(** [executeConfigureContext] *)
Fixpoint executeConfigureContext (rc : RecursiveCall) (plugins : list AiPlugin) : M unit :=
  match plugins with
  | [] => ret tt
  | p :: rest =>
      match configureContext p with
      | Some hook => let* _ := hook rc in executeConfigureContext rc rest
      | None => executeConfigureContext rc rest
      end
  end.

(** The call that [executeParallel] makes for one plugin, if any. *)
Definition parallelCall (sdk : Sdk R) (rc : RecursiveCall) (hookName : ParallelHook)
    (result : option R) (error : option error) (p : AiPlugin) : option (M promise) :=
  match hookName with
  | OnError =>
      match onError p, error with
      | Some hook, Some e => if isUndefinedError e then None else Some (hook rc e)
      | _, _ => None
      end
  | OnRequestEnd =>
      match onRequestEnd p, result with
      | Some hook, Some r => if isUndefinedResult sdk r then None else Some (hook rc r)
      | _, _ => None
      end
  | OnRequestStart =>
      match onRequestStart p with
      | Some hook => Some (hook rc)
      | None => None
      end
  end.

(** The [.map] of [executeParallel]: the hooks are called one after the
    other, in the order of the list, and what they return is collected.  A
    hook that throws ends the loop: the hooks after it are not called. *)
Fixpoint callAll (calls : list (M promise)) : M (list promise) :=
  match calls with
  | [] => ret []
  | call :: rest =>
      let* returned := call in
      let* others := callAll rest in
      ret (returned :: others)
  end.

(** The rejection that [Promise.all] sees first: the earliest in time, and
    among the rejections of one time that of the earlier promise of the
    list, whose reaction was registered first. *)
Fixpoint firstRejection (promises : list promise) : option (error * nat) :=
  match promises with
  | [] => None
  | Fulfilled :: rest => firstRejection rest
  | Rejected e after :: rest =>
      match firstRejection rest with
      | Some (e', after') =>
          if (after' <? after)%nat then Some (e', after') else Some (e, after)
      | None => Some (e, after)
      end
  end.

(** [await Promise.all(promises)] *)
Definition awaitAll (promises : list promise) : M unit :=
  match firstRejection promises with
  | Some (e, _) => throw e
  | None => ret tt
  end.

(** [executeParallel] *)
Definition executeParallel (sdk : Sdk R) (rc : RecursiveCall) (plugins : list AiPlugin)
    (hookName : ParallelHook) (result : option R) (error : option error) : M unit :=
  let* promises := callAll (omap (parallelCall sdk rc hookName result error) plugins) in
  awaitAll promises.

(** [collectStreamTransforms] *)
Definition collectStreamTransforms (rc : RecursiveCall) (plugins : list AiPlugin)
    (params : object) (context : AiRequestContext) : list T :=
  omap (λ p, (λ factory, factory rc params context) <$> transformStream p) plugins.

(* ===================================================================== *)
(** * [PluginEngine] *)
(* ===================================================================== *)

(** The three entry points share one skeleton; they differ in step 2.5
    (middleware) and in the collection of stream transforms. *)
Inductive CallShape : Type := GenerateText | GenerateImage | StreamText.

(** The closure assigned to [context.recursiveCall]; [params] are the
    parameters of the lifecycle invocation that created it, and [reenter]
    is the entry point it calls again with the same executor and context. *)
Definition recursiveCallClosure (reenter : object → M R) (params : object) : RecursiveCall :=
  λ newParams context,
    if (maxRecursiveDepth context <=? recursiveDepth context)
    then (Throw (RecursiveDepthError (requestId context) (recursiveDepth context)
                   (maxRecursiveDepth context)), context)
    else
      let previousDepth := recursiveDepth context in
      let wasRecursive := isRecursiveCall context in
      tryFinally
        (λ c, reenter (spread params newParams)
                (set_isRecursiveCall true (set_recursiveDepth (previousDepth + 1) c)))
        (λ c, set_isRecursiveCall wasRecursive (set_recursiveDepth previousDepth c))
        context.

(** [context.recursiveCall(newParams)] *)
Definition callRecursive (sdk : Sdk R) (reenter : object → M R) : RecursiveCall :=
  λ newParams context,
    match recursiveCall context with
    | Placeholder => (Ok (nullResult sdk), context)
    | EngineClosure params => recursiveCallClosure reenter params newParams context
    end.

(** Step 2.5. *)
Definition wrapWithMiddlewares (sdk : Sdk R) (context : AiRequestContext)
    (resolvedModel : value) : value :=
  match middlewares context with
  | Some (m :: ms) => wrapLanguageModel sdk resolvedModel (m :: ms)
  | _ => resolvedModel
  end.

Definition applyMiddlewares (sdk : Sdk R) (shape : CallShape) (model : value)
    (context : AiRequestContext) (resolvedModel : value) : value :=
  match shape with
  | GenerateText => wrapWithMiddlewares sdk context resolvedModel
  | GenerateImage => resolvedModel
  | StreamText =>
      if isString model then resolvedModel
      else wrapWithMiddlewares sdk context resolvedModel
  end.

(** [modelId = model.modelId], which an invocation reads first when the
    model is not a string: reading a property of [undefined] or [null]
    throws a [TypeError]. *)
Definition readModelId (model : value) : outcome value :=
  match model with
  | VStr _ => Ok model
  | VUndefined | VNull => Throw (TypeError model "modelId")
  | _ => Ok (getProp model "modelId")
  end.

(** Steps 0 to 2: configure the context, announce the request, resolve the
    model.  The [modelId] of the error is the one read before the [try]
    block, see [lifecycleBody]: these steps are reached only with a model
    that is not [undefined] or [null]. *)
Definition resolve (sdk : Sdk R) (rc : RecursiveCall) (manager : list AiPlugin)
    (engineProviderId : string) (model : value) : M value :=
  let* _ := executeConfigureContext rc manager in
  let* _ := executeParallel sdk rc manager OnRequestStart None None in
  let* resolvedModel :=
    match model with
    | VStr modelId =>
        let* resolved := executeFirst rc ResolveModel manager modelId in
        if truthy resolved then ret resolved
        else throw (ModelResolutionError (VStr modelId) engineProviderId)
    | _ => ret model
    end in
  if truthy resolvedModel then ret resolvedModel
  else throw (ModelResolutionError
                (match model with VStr _ => model | _ => getProp model "modelId" end)
                engineProviderId).

(** Steps 0 to 3 (and 4 for streams): everything that precedes the call of
    the executor, and the arguments the executor is called with. *)
Definition prepare (sdk : Sdk R) (rc : RecursiveCall) (shape : CallShape)
    (manager : list AiPlugin) (engineProviderId : string) (params : object)
  : M (value * object * list T) :=
  let model := prop params "model" in
  let* resolvedModel := resolve sdk rc manager engineProviderId model in
  let* context := getContext in
  let resolvedModel := applyMiddlewares sdk shape model context resolvedModel in
  let* transformedParams := executeTransformParams rc manager params in
  let* context := getContext in
  let streamTransforms :=
    match shape with
    | StreamText => collectStreamTransforms rc manager transformedParams context
    | _ => []
    end in
  ret (resolvedModel, transformedParams, streamTransforms).

(** The steps of the [try] block before [onRequestEnd]. *)
Definition produceResult (sdk : Sdk R) (rc : RecursiveCall) (shape : CallShape)
    (manager : list AiPlugin) (engineProviderId : string)
    (executor : value → object → list T → M R) (params : object) : M R :=
  let* (resolvedModel, transformedParams, streamTransforms) :=
    prepare sdk rc shape manager engineProviderId params in
  let* result := executor resolvedModel transformedParams streamTransforms in
  executeTransformResult rc manager result.

(** The [try] block. *)
Definition tryBlock (sdk : Sdk R) (rc : RecursiveCall) (shape : CallShape)
    (manager : list AiPlugin) (engineProviderId : string)
    (executor : value → object → list T → M R) (params : object) : M R :=
  let* transformedResult :=
    produceResult sdk rc shape manager engineProviderId executor params in
  let* _ := executeParallel sdk rc manager OnRequestEnd (Some transformedResult) None in
  ret transformedResult.

(** The [catch] block. *)
Definition catchBlock (sdk : Sdk R) (rc : RecursiveCall) (manager : list AiPlugin)
    (e : error) : M R :=
  let* _ := executeParallel sdk rc manager OnError None (Some e) in
  throw e.

(** One invocation of [executeWithPlugins], [executeImageWithPlugins] or
    [executeStreamWithPlugins] on an existing context, with [reenter] for
    the recursive invocation of the same method.  The model id is read
    before the closure is installed and the [try] block is entered; when
    that throws, no hook has run and the context is as it was. *)
Definition lifecycleBody (sdk : Sdk R) (reenter : object → M R) (shape : CallShape)
    (engineProviderId : string) (basePlugins : list AiPlugin)
    (executor : value → object → list T → M R) (params : object) : M R :=
  λ context,
    match readModelId (prop params "model") with
    | Ok _ =>
        let manager := PluginManager basePlugins in
        let rc := callRecursive sdk reenter in
        tryCatch
          (tryBlock sdk rc shape manager engineProviderId executor params)
          (catchBlock sdk rc manager)
          (set_recursiveCall (EngineClosure params) context)
    | Throw e => (Throw e, context)
    | Diverge => (Diverge, context)
    end.

(** The lifecycle with its recursion; [fuel] bounds the nesting of
    recursive invocations. *)
Fixpoint lifecycle (fuel : nat) (sdk : Sdk R) (shape : CallShape)
    (engineProviderId : string) (basePlugins : list AiPlugin)
    (executor : value → object → list T → M R) (params : object) : M R :=
  match fuel with
  | O => λ c, (Diverge, c)
  | S n =>
      lifecycleBody sdk (lifecycle n sdk shape engineProviderId basePlugins executor)
        shape engineProviderId basePlugins executor params
  end.

(** The context of an invocation: [_context ?? createContext(...)]. *)
Definition contextFor (engineProviderId : string) (params : object)
    (_context : option AiRequestContext) (requestId : string) (startTime : Z)
  : AiRequestContext :=
  default (createContext engineProviderId (prop params "model") params requestId startTime)
          _context.

Definition executeWithPlugins (fuel : nat) (sdk : Sdk R) (engineProviderId : string)
    (basePlugins : list AiPlugin) (params : object) (executor : value → object → M R)
    (_context : option AiRequestContext) (requestId : string) (startTime : Z)
  : outcome R * AiRequestContext :=
  lifecycle fuel sdk GenerateText engineProviderId basePlugins
    (λ m p _, executor m p) params
    (contextFor engineProviderId params _context requestId startTime).

Definition executeImageWithPlugins (fuel : nat) (sdk : Sdk R) (engineProviderId : string)
    (basePlugins : list AiPlugin) (params : object) (executor : value → object → M R)
    (_context : option AiRequestContext) (requestId : string) (startTime : Z)
  : outcome R * AiRequestContext :=
  lifecycle fuel sdk GenerateImage engineProviderId basePlugins
    (λ m p _, executor m p) params
    (contextFor engineProviderId params _context requestId startTime).

Definition executeStreamWithPlugins (fuel : nat) (sdk : Sdk R) (engineProviderId : string)
    (basePlugins : list AiPlugin) (params : object)
    (executor : value → object → list T → M R)
    (_context : option AiRequestContext) (requestId : string) (startTime : Z)
  : outcome R * AiRequestContext :=
  lifecycle fuel sdk StreamText engineProviderId basePlugins executor params
    (contextFor engineProviderId params _context requestId startTime).

(** A plugin without its [onRequestEnd] hook. *)
Definition withoutRequestEnd (p : AiPlugin) : AiPlugin :=
  mkPlugin (name p) (enforce p) (resolveModel p) (loadTemplate p) (configureContext p)
    (transformParams p) (transformResult p) (onRequestStart p) None (onError p)
    (transformStream p).

(** The patches that the [transformParams] hooks of [plugins] return, in
    the order of the list, each hook being given the running parameters. *)
Inductive patchesInOrder (rc : RecursiveCall)
  : list AiPlugin → object → AiRequestContext → list object → AiRequestContext → Prop :=
| patches_none params c :
    patchesInOrder rc [] params c [] c
| patches_skip p rest params c patches c' :
    transformParams p = None →
    patchesInOrder rc rest params c patches c' →
    patchesInOrder rc (p :: rest) params c patches c'
| patches_step p rest hook params c partial c1 patches c' :
    transformParams p = Some hook →
    hook rc params c = (Ok partial, c1) →
    patchesInOrder rc rest (spread params partial) c1 patches c' →
    patchesInOrder rc (p :: rest) params c (partial :: patches) c'.

End Plugins.
Global Arguments AiPlugin : clear implicits.

End Engine.

(* ===================================================================== *)
(** * Streams of chunks *)
(* ===================================================================== *)

Module Stream.
Import Engine.

(** The [totalUsage] of a finish event: a record of its own, or the very
    object that [context.accumulatedUsage] refers to (which later
    accumulation mutates in place). *)
Inductive usageRef : Type :=
| OwnUsage (u : option Usage.usage)
| ContextAccumulator.

(** The chunk types that the tool-use subsystem does not interpret. *)
Inductive otherType : Type :=
| StartStep | ReasoningStart | ReasoningDelta | ReasoningEnd
| ToolInputStart | ToolInputDelta | ToolInputEnd
| ToolCall | ToolResult | ToolError | SourcePart | FilePart
| AbortPart | ErrorPart | RawPart.

(** [TextStreamPart]: the stream chunk protocol. *)
Inductive chunk : Type :=
| Start
| TextStart (id : string)
| TextDelta (id : string) (text : string)
| TextEnd (id : string)
| FinishStep (finishReason : string) (usage : option Usage.usage)
    (response providerMetadata : value) (rest : object)
| Finish (finishReason : string) (totalUsage : usageRef) (rest : object)
| Other (type : otherType) (payload : object).

Definition isStart (ch : chunk) : bool := match ch with Start => true | _ => false end.

Definition isFinish (ch : chunk) : bool := match ch with Finish _ _ _ => true | _ => false end.

(** Code that enqueues chunks on a stream controller while it runs against
    the request context. *)
Definition W (A : Type) : Type :=
  AiRequestContext → list chunk * outcome A * AiRequestContext.

(** A [ReadableStream] that is produced on demand: reading the next batch
    of chunks runs the code that produces it, against the context as it is
    at that moment. *)
Inductive lstream : Type :=
| Closed
| Stage (run : AiRequestContext → list chunk * AiRequestContext * progress)
with progress : Type :=
| Next (s : lstream)
| Errored (e : error)
| Stalled.

(** A stream whose chunks are given in advance. *)
Fixpoint ofList (chunks : list chunk) : lstream :=
  match chunks with
  | [] => Closed
  | ch :: rest => Stage (λ c, ([ch], c, Next (ofList rest)))
  end.

(** Reading a stream to its end. *)
Fixpoint readAll (s : lstream) : W unit :=
  match s with
  | Closed => λ c, ([], Ok tt, c)
  | Stage run =>
      λ c, let '(values, c1, p) := run c in
           match p with
           | Next s' => let '(more, r, c2) := readAll s' c1 in (values ++ more, r, c2)
           | Errored e => (values, Throw e, c1)
           | Stalled => (values, Diverge, c1)
           end
  end.

(** [StreamTextResult], as far as [hasFullStream] inspects it. *)
Record StreamTextResult : Type := mkStreamTextResult {
  fullStream : option lstream
}.

Definition streamSdk (wrap : value → list value → value) : Sdk StreamTextResult :=
  mkSdk StreamTextResult (mkStreamTextResult None) (λ _, false) wrap.

(* ===================================================================== *)
(** * [StreamEventManager] *)
(* ===================================================================== *)

(** The body of the read loop of [pipeRecursiveStream] on the values that
    are available: a [start] is skipped, a [finish] ends the loop, anything
    else is enqueued.  The flag tells whether the loop was ended. *)
Fixpoint forward (values : list chunk) : list chunk * bool :=
  match values with
  | [] => ([], false)
  | Start :: rest => forward rest
  | Finish _ _ _ :: _ => ([], true)
  | ch :: rest => let '(outs, stop) := forward rest in (ch :: outs, stop)
  end.

(** The chunks that precede the first [finish]. *)
Fixpoint beforeFinish (chunks : list chunk) : list chunk :=
  match chunks with
  | [] => []
  | ch :: rest => if isFinish ch then [] else ch :: beforeFinish rest
  end.

(** [pipeRecursiveStream] *)
Fixpoint pipeRecursiveStream (recursiveStream : lstream) : W unit :=
  match recursiveStream with
  | Closed => λ c, ([], Ok tt, c)
  | Stage run =>
      λ c, let '(values, c1, p) := run c in
           let '(outs, stop) := forward values in
           if stop then (outs, Ok tt, c1)
           else match p with
                | Next s' =>
                    let '(more, r, c2) := pipeRecursiveStream s' c1 in (outs ++ more, r, c2)
                | Errored e => (outs, Throw e, c1)
                | Stalled => (outs, Diverge, c1)
                end
  end.

(** The accumulation guarded by [chunk.usage && context.accumulatedUsage]. *)
Definition accumulateStepUsage (usage : option Usage.usage) (context : AiRequestContext)
  : AiRequestContext :=
  match usage, accumulatedUsage context with
  | Some u, Some target =>
      set_accumulatedUsage (fst (Usage.accumulateUsage (Some target) (Some u))) context
  | _, _ => context
  end.

(** [sendStepFinishEvent(controller, chunk, context, finishReason)] *)
Definition sendStepFinishEvent (usage : option Usage.usage) (response providerMetadata : value)
    (finishReason : string) : W unit :=
  λ context,
    ([FinishStep finishReason usage response providerMetadata ∅], Ok tt,
     accumulateStepUsage usage context).

(** [handleRecursiveCall] *)
Definition handleRecursiveCall (rc : RecursiveCall (R:=StreamTextResult))
    (recursiveParams : object) : W unit :=
  λ context,
    match rc recursiveParams (set_hasExecutedToolsInCurrentStep false context) with
    | (Ok recursiveResult, c) =>
        match fullStream recursiveResult with
        | Some s => pipeRecursiveStream s c
        | None => ([], Ok tt, c)
        end
    | (Throw e, c) => ([], Throw e, c)
    | (Diverge, c) => ([], Diverge, c)
    end.

Definition arrayItems (v : value) : list value :=
  match v with VArr items => items | _ => [] end.

Definition message (role content : string) : value :=
  VObj {[ "role" := VStr role; "content" := VStr content ]}.

(** [buildRecursiveParams] *)
Definition buildRecursiveParams (context : AiRequestContext) (textBuffer : string)
    (toolResultsText : string) (tools : object) : object :=
  let params := originalParams context in
  let newMessages :=
    arrayItems (prop params "messages")
    ++ (if String.eqb textBuffer "" then [] else [message "assistant" textBuffer])
    ++ [message "user" toolResultsText] in
  <["tools" := VObj tools]> (<["messages" := VArr newMessages]> params).

(* ===================================================================== *)
(** * [createPromptToolUsePlugin] *)
(* ===================================================================== *)

Record ToolUseResult : Type := mkToolUse {
  id : string;
  toolName : string;
  arguments : value;
  status : string
}.

(** [PromptToolUseConfig]; [mcpMode] is part of [buildSystemPrompt]. *)
Record PromptToolUseConfig : Type := mkConfig {
  enabled : bool;
  buildSystemPrompt : string → object → string;
  parseToolUse : string → object → list ToolUseResult * string
}.

(** The provider-defined tools and the prompt-mode tools of a tool set. *)
Definition isProviderTool (tool : value) : bool :=
  match getProp tool "type" with
  | VStr t => String.eqb t "provider"
  | _ => false
  end.

Definition providerDefinedTools (tools : object) : object :=
  filter (λ kv, isProviderTool kv.2 = true) tools.

Definition promptTools (tools : object) : object :=
  filter (λ kv, isProviderTool kv.2 = false) tools.

Definition isEmptyObject (o : object) : bool := bool_decide (o = ∅).

(** [tools: Object.keys(providerDefinedTools).length > 0 ? providerDefinedTools : undefined] *)
Definition keptTools (tools : object) : value :=
  if isEmptyObject (providerDefinedTools tools) then VUndefined
  else VObj (providerDefinedTools tools).

(** The [transformParams] hook. *)
Definition promptTransformParams (config : PromptToolUseConfig) (params : object)
  : M object :=
  match prop params "tools" with
  | VObj tools =>
      if negb (enabled config) then ret params
      else
        let* _ :=
          modifyContext (λ c, if isEmptyObject (promptTools tools) then c
                              else set_mcpTools (Some (promptTools tools)) c) in
        let* context := getContext in
        if isRecursiveCall context then
          let transformedParams := <["tools" := keptTools tools]> params in
          let* _ := modifyContext (set_originalParams transformedParams) in
          ret transformedParams
        else
          let userSystemPrompt :=
            match prop params "system" with VStr s => s | _ => "" end in
          let systemPrompt := buildSystemPrompt config userSystemPrompt (promptTools tools) in
          let withSystem :=
            if String.eqb systemPrompt "" then params
            else <["system" := VStr systemPrompt]> params in
          let transformedParams := <["tools" := keptTools tools]> withSystem in
          let* _ := modifyContext (set_originalParams transformedParams) in
          ret transformedParams
  | _ => ret params
  end.

(** The parameters that reach the provider in the recursive calls of a
    tool loop.  When the finish-step branch runs on the context [current],
    which differs from the context that the previous invocation left only in
    properties other than [originalParams] and [recursiveCall], it calls
    [context.recursiveCall] with the parameters of [buildRecursiveParams];
    the closure re-enters the lifecycle with [{ ...params, ...newParams }]
    on the context marked as recursive, one level deeper; that invocation
    installs its own closure and runs the [transformParams] hook, and the
    provider is called with what the hook returns spread over the
    parameters of the invocation. *)
Inductive recursiveChain (config : PromptToolUseConfig)
  : AiRequestContext → list object → Prop :=
| chain_end context :
    recursiveChain config context []
| chain_call context current captured textBuffer toolResultsText tools merged
    transformed context' sent :
    originalParams current = originalParams context →
    recursiveCall context = EngineClosure captured →
    recursiveCall current = EngineClosure captured →
    merged = spread captured (buildRecursiveParams current textBuffer toolResultsText tools) →
    promptTransformParams config merged
      (set_recursiveCall (EngineClosure merged)
         (set_isRecursiveCall true
            (set_recursiveDepth (recursiveDepth current + 1) current)))
    = (Ok transformed, context') →
    recursiveChain config context' sent →
    recursiveChain config context (spread merged transformed :: sent).

Section Transform.
(** The Tag Extractor and the Tool Executor are classes of the plugin's
    directory whose sources are not at hand; the transform is parametric
    in them.  [X] is the state of a [TagExtractor] created for
    [TOOL_USE_TAG_CONFIG]; a result is a content with its [isTagContent]. *)
Context {X E : Type}.
Variable newTagExtractor : X.
Variable processText : X → string → list (string * bool) * X.
(** [toolExecutor.executeTools(validToolUses, tools, controller)] runs the
    tools (arbitrary asynchronous code) and enqueues their events. *)
Variable executeTools :
  list ToolUseResult → object → AiRequestContext → list chunk * list E * AiRequestContext.
Variable formatToolResults : list E → string.
Variable config : PromptToolUseConfig.

(** The variables that the transform closes over. *)
Record TransformState : Type := mkTransformState {
  textBuffer : string;
  pendingTextStart : option chunk;
  hasStartedText : bool;
  tagExtractor : X
}.

Definition newTransformState : TransformState :=
  mkTransformState "" None false newTagExtractor.

(** The loop over the extraction results of one text delta. *)
Fixpoint forwardText (id : string) (results : list (string * bool))
    (pending : option chunk) (started : bool) : list chunk * option chunk * bool :=
  match results with
  | [] => ([], pending, started)
  | (content, isTagContent) :: rest =>
      if negb isTagContent && negb (String.eqb content "") then
        let '(held, pending', started') :=
          match started, pending with
          | false, Some textStart => ([textStart], None, true)
          | _, _ => ([], pending, started)
          end in
        let '(outs, p, s) := forwardText id rest pending' started' in
        (held ++ TextDelta id content :: outs, p, s)
      else forwardText id rest pending started
  end.

Definition isPending (t : ToolUseResult) : bool := String.eqb (status t) "pending".

(** The tool uses that the finish-step branch would execute. *)
Definition validToolUses (st : TransformState) (context : AiRequestContext)
  : option (object * list ToolUseResult) :=
  match mcpTools context with
  | Some tools =>
      if negb (isEmptyObject tools) && negb (hasExecutedToolsInCurrentStep context) then
        match filter (λ t, isPending t = true) (parseToolUse config (textBuffer st) tools).1 with
        | [] => None
        | valid => Some (tools, valid)
        end
      else None
  | None => None
  end.

(** The [transform] method of the [TransformStream]. *)
Definition transform (rc : RecursiveCall (R:=StreamTextResult)) (st : TransformState)
    (ch : chunk) : W TransformState :=
  λ context,
    match ch with
    | TextStart _ =>
        ([], Ok (mkTransformState (textBuffer st) (Some ch) (hasStartedText st)
                   (tagExtractor st)), context)
    | TextDelta id text =>
        let '(extractionResults, extractor) := processText (tagExtractor st) text in
        let '(outs, pending, started) :=
          forwardText id extractionResults (pendingTextStart st) (hasStartedText st) in
        (outs, Ok (mkTransformState (textBuffer st +:+ text) pending started extractor),
         context)
    | TextEnd _ =>
        (if hasStartedText st then [ch] else [], Ok st, context)
    | FinishStep finishReason usage response providerMetadata rest =>
        match validToolUses st context with
        | Some (tools, valid) =>
            let '(toolEvents, executedResults, c1) :=
              executeTools valid tools (set_hasExecutedToolsInCurrentStep true context) in
            let '(stepEvents, _, c2) :=
              sendStepFinishEvent usage response providerMetadata "tool-calls" c1 in
            let toolResultsText := formatToolResults executedResults in
            let recursiveParams :=
              buildRecursiveParams c2 (textBuffer st) toolResultsText tools in
            let '(piped, r, c3) := handleRecursiveCall rc recursiveParams c2 in
            (toolEvents ++ stepEvents ++ piped,
             match r with
             | Ok _ => Ok st
             | Throw e => Throw e
             | Diverge => Diverge
             end, c3)
        | None =>
            ([ch], Ok (mkTransformState "" (pendingTextStart st) (hasStartedText st)
                         (tagExtractor st)),
             accumulateStepUsage usage context)
        end
    | Finish finishReason _ rest =>
        ([Finish finishReason
            (match accumulatedUsage context with
             | Some _ => ContextAccumulator
             | None => OwnUsage None
             end) rest], Ok st, context)
    | _ => ([ch], Ok st, context)
    end.

(** The transform applied to a batch of chunks, one call each. *)
Fixpoint transformAll (rc : RecursiveCall (R:=StreamTextResult)) (st : TransformState)
    (chunks : list chunk) : W TransformState :=
  match chunks with
  | [] => λ c, ([], Ok st, c)
  | ch :: rest =>
      λ c, match transform rc st ch c with
           | (outs, Ok st', c') =>
               let '(more, r, c'') := transformAll rc st' rest c' in (outs ++ more, r, c'')
           | (outs, Throw e, c') => (outs, Throw e, c')
           | (outs, Diverge, c') => (outs, Diverge, c')
           end
  end.

(** [upstream.pipeThrough(new TransformStream({ transform, flush }))];
    [flush] only clears the two text-start variables. *)
Fixpoint pipeThrough (rc : RecursiveCall (R:=StreamTextResult)) (upstream : lstream)
    (st : TransformState) : lstream :=
  match upstream with
  | Closed => Closed
  | Stage run =>
      Stage (λ c,
        let '(values, c1, p) := run c in
        let '(outs, r, c2) := transformAll rc st values c1 in
        (outs, c2,
         match r, p with
         | Ok st', Next upstream' => Next (pipeThrough rc upstream' st')
         | Ok _, Errored e => Errored e
         | Ok _, Stalled => Stalled
         | Throw e, _ => Errored e
         | Diverge, _ => Stalled
         end))
  end.

(** What the AI SDK calls to build a transform for one stream. *)
Definition TransformFactory : Type :=
  AiRequestContext → (lstream → lstream) * AiRequestContext.

(** The [transformStream] hook: [(_, context) => () => { ... }]. *)
Definition promptTransformStream (rc : RecursiveCall (R:=StreamTextResult))
  : TransformFactory :=
  λ context,
    match mcpTools context with
    | None => (λ upstream, upstream, context)
    | Some _ =>
        (λ upstream, pipeThrough rc upstream newTransformState,
         match accumulatedUsage context with
         | Some _ => context
         | None => set_accumulatedUsage (Some Usage.initialAccumulator) context
         end)
    end.

Definition createPromptToolUsePlugin : AiPlugin StreamTextResult TransformFactory :=
  mkPlugin "built-in:prompt-tool-use" None None None None
    (Some (λ _ params, promptTransformParams config params))
    None None None None
    (Some (λ rc _ _, promptTransformStream rc)).

(** The executor that [RuntimeExecutor.streamText] passes to the engine:
    [streamText] of the AI SDK answers with the chunks of the provider,
    piped through the transforms in order.  [provider] is the model's
    answer to a call. *)
Fixpoint applyTransforms (transforms : list TransformFactory) (s : lstream)
  : AiRequestContext → lstream * AiRequestContext :=
  match transforms with
  | [] => λ c, (s, c)
  | factory :: rest =>
      λ c, let '(through, c1) := factory c in applyTransforms rest (through s) c1
  end.

Definition streamText (provider : value → object → list chunk)
  : value → object → list TransformFactory → M StreamTextResult :=
  λ resolvedModel transformedParams streamTransforms c,
    let '(s, c1) :=
      applyTransforms streamTransforms (ofList (provider resolvedModel transformedParams)) c in
    (Ok (mkStreamTextResult (Some s)), c1).

End Transform.

(** The usage records of the finish-step events of a list of chunks. *)
Definition stepUsages (chunks : list chunk) : list Usage.usage :=
  omap (λ ch, match ch with FinishStep _ (Some u) _ _ _ => Some u | _ => None end) chunks.

Definition sumOf (f : Usage.usage → Usage.field) (us : list Usage.usage) : Z :=
  foldr (λ u n, Usage.orZero (f u) + n) 0 us.

(** A finish-step event whose usage, if any, is a language-model usage
    (as the stream chunk protocol has it). *)
Definition languageStep (ch : chunk) : Prop :=
  match ch with
  | FinishStep _ (Some u) _ _ _ => Usage.isLanguageModelUsage u = true
  | _ => True
  end.

(** A finish event whose [totalUsage] is the accumulator of the context. *)
Definition reportsAccumulator (ch : chunk) : Prop :=
  match ch with
  | Finish _ totalUsage _ => totalUsage = ContextAccumulator
  | _ => True
  end.

Definition isOther (ch : chunk) : Prop :=
  match ch with Other _ _ => True | _ => False end.

(** A tool executor that leaves the usage accumulator and [mcpTools] of the
    context alone and enqueues tool events only. *)
Definition quietTools {E : Type}
    (executeTools : list ToolUseResult → object → AiRequestContext
                    → list chunk * list E * AiRequestContext) : Prop :=
  ∀ uses tools c,
    accumulatedUsage (executeTools uses tools c).2 = accumulatedUsage c
    ∧ mcpTools (executeTools uses tools c).2 = mcpTools c
    ∧ Forall isOther (executeTools uses tools c).1.1.

(** The accumulator [u] after the finish-step events of [chunks]. *)
Definition accumulated (u : Usage.usage) (chunks : list chunk) : Usage.usage :=
  foldl Usage.accumulateLanguage u (stepUsages chunks).

(** A context of the streaming tool-use subsystem whose accumulator is the
    language-model record [u]. *)
Definition ready (c : AiRequestContext) (u : Usage.usage) : Prop :=
  is_Some (mcpTools c) ∧ accumulatedUsage c = Some u
  ∧ Usage.isLanguageModelUsage u = true.

(** A stream that keeps the accounts: whenever a batch of chunks is read
    from it, the accumulator has grown by the usage of the finish-step
    events of that batch, the batch reports the accumulator in its finish
    events, and no finish-step event follows a finish event in it. *)
Fixpoint accounted (s : lstream) : Prop :=
  match s with
  | Closed => True
  | Stage run =>
      ∀ c u, ready c u →
        let '(values, c1, p) := run c in
        ready c1 (accumulated u values)
        ∧ Forall reportsAccumulator values
        ∧ stepUsages (forward values).1 = stepUsages values
        ∧ match p with Next s' => accounted s' | _ => True end
  end.

(** A recursive call that leaves the accumulator alone and answers with a
    stream that keeps the accounts. *)
Definition accountedCall (rc : RecursiveCall (R:=StreamTextResult)) : Prop :=
  ∀ params c u, ready c u →
    let '(r, c') := rc params c in
    ready c' u
    ∧ match r with
      | Ok result => match fullStream result with Some s => accounted s | None => True end
      | _ => True
      end.

(** The held text-start, if any, is a text-start event. *)
Definition heldTextStart {X : Type} (st : TransformState (X:=X)) : Prop :=
  match pendingTextStart st with
  | Some (TextStart _) | None => True
  | Some _ => False
  end.

End Stream.

(* ===================================================================== *)
(** * Concrete requests *)
(* ===================================================================== *)

(** Plugins, executors and contexts on which the definitions are run. *)
Module Examples.
Import Engine.

(** Results are plain values; a wrapped model is represented by the
    argument record of [wrapLanguageModel]. *)
Definition valueSdk : Sdk value :=
  mkSdk value VNull isUndefined
    (λ m mws, VObj {[ "model" := m; "middleware" := VArr mws ]}).

Definition gpt4 : value := VObj {[ "modelId" := VStr "gpt-4" ]}.

Definition handleParams : object := {[ "model" := gpt4 ]}.

Definition stringParams : object := {[ "model" := VStr "gpt-4" ]}.

(** [context.middlewares = context.middlewares || []; context.middlewares.push(mw)] *)
Definition pushMiddleware (mw : value) : M unit :=
  modifyContext (λ c, set_middlewares (Some (default [] (middlewares c) ++ [mw])) c).

Definition middlewareWriter (nm : string) (mw : value) : AiPlugin value unit :=
  mkPlugin nm None None None (Some (λ _, pushMiddleware mw)) None None None None None None.

Definition resolver : AiPlugin value unit :=
  mkPlugin "resolver" None (Some (λ _ _, ret gpt4)) None None None None None None None None.

(** A plugin whose [transformParams] returns a fixed patch. *)
Definition patcher (nm : string) (e : option Enforce) (patch : object) : AiPlugin value unit :=
  mkPlugin nm e None None None (Some (λ _ _, ret patch)) None None None None None.

(** An [onError] hook that records the error it is given. *)
Definition errorObserver : AiPlugin value unit :=
  mkPlugin "observer" None None None None None None None None
    (Some (λ _ e, let* _ := modifyContext
                            (λ c, set_dynamic (<["observed" := VBool true]> (dynamic c)) c) in
                  ret Fulfilled))
    None.

(** An [onError] hook that itself fails: a plain function that throws. *)
Definition failingErrorHook : AiPlugin value unit :=
  mkPlugin "failing-handler" None None None None None None None None
    (Some (λ _ _, throw (Thrown (VStr "handler failed")))) None.

(** An asynchronous [onError] hook whose promise is rejected, [after] so
    many turns, with a message. *)
Definition rejectingErrorHook (message : string) (after : nat) : AiPlugin value unit :=
  mkPlugin "rejecting-handler" None None None None None None None None
    (Some (λ _ _, ret (Rejected (Thrown (VStr message)) after))) None.

Definition okExecutor : value → object → M value := λ _ _, ret (VStr "done").

Definition echoModelExecutor : value → object → M value := λ m _, ret m.

Definition failingExecutor (v : value) : value → object → M value :=
  λ _ _, throw (Thrown v).

(** Two plugins that register a middleware each, and a resolver; the one
    registered last runs first because it is a pre plugin. *)
Definition twoMiddlewarePlugins : list (AiPlugin value unit) :=
  [middlewareWriter "second" (VStr "mw2"); resolver;
   mkPlugin "first" (Some Pre) None None (Some (λ _, pushMiddleware (VStr "mw1")))
     None None None None None None].

Definition freshContext (params : object) : AiRequestContext :=
  createContext "openai" (prop params "model") params "req-1" 0.

End Examples.

(** Streams on which the prompt tool-use transform is run. *)
Module StreamExamples.
Import Engine Stream.

Definition text (l : list ascii) : string := Stdlib.Strings.String.string_of_list_ascii l.

(** The Tag Extractor of the specification, created for
    [TOOL_USE_TAG_CONFIG], on JavaScript strings. *)
Definition toolUseExtractor : TagExtractor.TagExtractionState ascii :=
  TagExtractor.initialState.

Definition toolUseProcessText (st : TagExtractor.TagExtractionState ascii) (s : string)
  : list (string * bool) * TagExtractor.TagExtractionState ascii :=
  let '(rs, st') :=
    TagExtractor.processText TagExtractor.TOOL_USE_TAG_CONFIG st (TagExtractor.chars s) in
  ((λ r, (text (TagExtractor.content r), TagExtractor.isTagContent r)) <$> rs, st').

(** A tool executor that emits a tool-result event for each tool use. *)
Definition echoTools (uses : list ToolUseResult) (tools : object) (c : AiRequestContext)
  : list chunk * list string * AiRequestContext :=
  ((λ u, Other ToolResult {[ "toolName" := VStr (toolName u) ]}) <$> uses,
   toolName <$> uses, c).

Definition joinResults (results : list string) : string :=
  foldr (λ r acc, r +:+ acc) "" results.

(** A parser that recognises the one block
    [<tool_use><name>search</name><arguments>{}</arguments></tool_use>]. *)
Definition searchBlock : string :=
  "<tool_use><name>search</name><arguments>{}</arguments></tool_use>".

Definition parseSearch (content : string) (tools : object)
  : list ToolUseResult * string :=
  if String.eqb content searchBlock
  then ([mkToolUse "search-0" "search" (VObj ∅) "pending"], "")
  else ([], content).

Definition searchConfig : PromptToolUseConfig :=
  mkConfig true (λ user tools, "TOOLS " +:+ user) parseSearch.

Definition searchTools : object :=
  {[ "search" := VObj {[ "description" := VStr "web search" ]} ]}.

Definition searchTransform (rc : RecursiveCall (R:=StreamTextResult)) :=
  transform toolUseProcessText echoTools joinResults searchConfig rc.

Definition searchPlugin : AiPlugin StreamTextResult TransformFactory :=
  createPromptToolUsePlugin toolUseExtractor toolUseProcessText echoTools joinResults
    searchConfig.

(** A context in which the prompt-mode tools have been set aside. *)
Definition toolContext : AiRequestContext :=
  set_accumulatedUsage (Some Usage.initialAccumulator)
    (set_mcpTools (Some searchTools) (Examples.freshContext ∅)).

(** A stream of two steps: visible text followed by a tool-use block that
    the parser rejects, then a step whose text is a tool-use block only. *)
Definition twoSteps : list chunk :=
  [ TextStart "t1"; TextDelta "t1" "Hi<tool_use>x</tool_use>"; TextEnd "t1";
    FinishStep "stop" None VUndefined VUndefined ∅;
    TextStart "t2"; TextDelta "t2" "<tool_use>y</tool_use>"; TextEnd "t2" ].

(** A provider that asks for the search tool once and answers once it has
    been given the result. *)
Definition searchProvider (m : value) (params : object) : list chunk :=
  match arrayItems (prop params "messages") with
  | [] =>
      [ Start; Other StartStep ∅; TextStart "a"; TextDelta "a" searchBlock; TextEnd "a";
        FinishStep "stop" (Some (Usage.tokenUsage 10 20 30)) VUndefined VUndefined ∅;
        Finish "stop" (OwnUsage (Some (Usage.tokenUsage 10 20 30))) ∅ ]
  | _ =>
      [ Start; Other StartStep ∅; TextStart "b"; TextDelta "b" "Found it."; TextEnd "b";
        FinishStep "stop" (Some (Usage.tokenUsage 5 10 15)) VUndefined VUndefined ∅;
        Finish "stop" (OwnUsage (Some (Usage.tokenUsage 5 10 15))) ∅ ]
  end.

Definition searchRequest : object :=
  {[ "model" := Examples.gpt4; "system" := VStr "Be brief."; "tools" := VObj searchTools ]}.

(** The parameters of the request as its first invocation transforms
    them, and those of the recursive call that follows a use of the search
    tool. *)
Definition searchFirst : outcome object * AiRequestContext :=
  promptTransformParams searchConfig searchRequest
    (set_recursiveCall (EngineClosure searchRequest) (Examples.freshContext searchRequest)).

Definition returned (run : outcome object * AiRequestContext) : object :=
  match run.1 with Ok p => p | _ => ∅ end.

Definition searchMerged : object :=
  spread searchRequest (buildRecursiveParams searchFirst.2 searchBlock "result" searchTools).

Definition searchSecond : outcome object * AiRequestContext :=
  promptTransformParams searchConfig searchMerged
    (set_recursiveCall (EngineClosure searchMerged)
       (set_isRecursiveCall true
          (set_recursiveDepth (recursiveDepth searchFirst.2 + 1) searchFirst.2))).

(** The conversation in which the engine runs the request with the
    tool-use plugin, and what a consumer reads from its stream. *)
Definition searchRun : outcome StreamTextResult * AiRequestContext :=
  executeStreamWithPlugins 3 (streamSdk (λ m _, m)) "openai" [searchPlugin] searchRequest
    (streamText searchProvider) None "req-1" 0.

(** Whether a run returned a result that has a stream, and that stream. *)
Definition answered (run : outcome StreamTextResult * AiRequestContext) : bool :=
  match run.1 with
  | Ok result => match fullStream result with Some _ => true | None => false end
  | _ => false
  end.

Definition streamOf (run : outcome StreamTextResult * AiRequestContext) : lstream :=
  match run.1 with
  | Ok result => default Closed (fullStream result)
  | _ => Closed
  end.

Definition searchStream : lstream := streamOf searchRun.

Definition searchOutput : list chunk * outcome unit * AiRequestContext :=
  readAll searchStream searchRun.2.

End StreamExamples.

(* ===================================================================== *)
(** * Registration of plugins and statistics *)
(* ===================================================================== *)

(** The counters that [getStats] returns. *)
Module Stats.

Record hookCounts : Type := mkHookCounts {
  resolveModel : nat;
  loadTemplate : nat;
  transformParams : nat;
  transformResult : nat;
  onRequestStart : nat;
  onRequestEnd : nat;
  onError : nat;
  transformStream : nat
}.

Record stats : Type := mkStats {
  total : nat;
  pre : nat;
  normal : nat;
  post : nat;
  hooks : hookCounts
}.

End Stats.

(** The methods of [PluginManager] that change or report the plugin list;
    a manager is its sorted list [this.plugins]. *)
Module ManagerRegistry.
Import Engine.

Section Registration.
Context {R T : Type}.
Implicit Types (plugins : list (AiPlugin R T)) (p : AiPlugin R T).

(** [use(plugin)]: [this.plugins = this.sortPlugins([...this.plugins, plugin])] *)
Definition use plugins p : list (AiPlugin R T) := sortPlugins (plugins ++ [p]).

(** [remove(pluginName)] *)
Definition remove (pluginName : string) plugins : list (AiPlugin R T) :=
  filter (λ p, name p ≠ pluginName) plugins.

(** [getPlugins()] returns a copy of the list. *)
Definition getPlugins plugins : list (AiPlugin R T) := plugins.

(** [stats.x++] when the condition holds. *)
Definition bump (condition : bool) (n : nat) : nat := if condition then S n else n.

Definition hasHook {H : Type} (hook : option H) : bool :=
  match hook with Some _ => true | None => false end.

(** The body of the [forEach] of [getStats] for one plugin. *)
Definition countPlugin (s : Stats.stats) p : Stats.stats :=
  {| Stats.total := Stats.total s;
     Stats.pre := bump (isPre p) (Stats.pre s);
     Stats.normal := bump (negb (isPre p) && negb (isPost p)) (Stats.normal s);
     Stats.post := bump (negb (isPre p) && isPost p) (Stats.post s);
     Stats.hooks :=
       {| Stats.resolveModel :=
            bump (hasHook (resolveModel p)) (Stats.resolveModel (Stats.hooks s));
          Stats.loadTemplate :=
            bump (hasHook (loadTemplate p)) (Stats.loadTemplate (Stats.hooks s));
          Stats.transformParams :=
            bump (hasHook (transformParams p)) (Stats.transformParams (Stats.hooks s));
          Stats.transformResult :=
            bump (hasHook (transformResult p)) (Stats.transformResult (Stats.hooks s));
          Stats.onRequestStart :=
            bump (hasHook (onRequestStart p)) (Stats.onRequestStart (Stats.hooks s));
          Stats.onRequestEnd :=
            bump (hasHook (onRequestEnd p)) (Stats.onRequestEnd (Stats.hooks s));
          Stats.onError :=
            bump (hasHook (onError p)) (Stats.onError (Stats.hooks s));
          Stats.transformStream :=
            bump (hasHook (transformStream p)) (Stats.transformStream (Stats.hooks s)) |} |}.

(** [getStats()] *)
Definition getStats plugins : Stats.stats :=
  foldl countPlugin
    (Stats.mkStats (length plugins) 0 0 0 (Stats.mkHookCounts 0 0 0 0 0 0 0 0))
    plugins.

(** The tier that [sortPlugins] puts a plugin in. *)
Definition tier p : nat :=
  if isPre p then 0%nat else if isPost p then 2%nat else 1%nat.

End Registration.
End ManagerRegistry.

(** The methods of [PluginEngine] on its [basePlugins]. *)
Module EngineRegistry.
Import Engine.

Section Registration.
Context {R T : Type}.
Implicit Types (basePlugins plugins : list (AiPlugin R T)) (p : AiPlugin R T).

(** [use(plugin)]: [this.basePlugins.push(plugin)] *)
Definition use basePlugins p : list (AiPlugin R T) := basePlugins ++ [p].

(** [usePlugins(plugins)]: [this.basePlugins.push(...plugins)] *)
Definition usePlugins basePlugins plugins : list (AiPlugin R T) := basePlugins ++ plugins.

(** [removePlugin(pluginName)] *)
Definition removePlugin (pluginName : string) basePlugins : list (AiPlugin R T) :=
  filter (λ p, name p ≠ pluginName) basePlugins.

(** [getPluginStats()]: the statistics of a temporary manager. *)
Definition getPluginStats basePlugins : Stats.stats :=
  ManagerRegistry.getStats (PluginManager basePlugins).

(** [getPlugins()] *)
Definition getPlugins basePlugins : list (AiPlugin R T) := basePlugins.

End Registration.
End EngineRegistry.

(* ===================================================================== *)
(** * String methods *)
(* ===================================================================== *)

(** The methods of JavaScript strings that the resolvers and the
    middlewares use, on a string as the list of its code units. *)
Module Text.

Section Units.
Context {A : Type} `{!EqDecision A}.
Implicit Types (s p sep r : list A).

(** [s.startsWith(p)] *)
Fixpoint startsWith p s : bool :=
  match p, s with
  | [], _ => true
  | a :: p', b :: s' => bool_decide (a = b) && startsWith p' s'
  | _ :: _, [] => false
  end.

(** [s.indexOf(p)]; [None] stands for [-1]. *)
Fixpoint indexOf p s : option nat :=
  if startsWith p s then Some 0%nat
  else match s with
       | [] => None
       | _ :: s' => S <$> indexOf p s'
       end.

(** [s.includes(p)] *)
Definition includes p s : bool :=
  match indexOf p s with Some _ => true | None => false end.

(** [s.endsWith(p)] *)
Definition endsWith p s : bool :=
  bool_decide (length p ≤ length s)%nat
  && bool_decide (drop (length s - length p) s = p).

(** The loop of [split] for a non-empty separator: cut at the first
    occurrence and go on after it. *)
Fixpoint splitFuel (fuel : nat) sep s : list (list A) :=
  match fuel with
  | O => [s]
  | S fuel' =>
      match indexOf sep s with
      | None => [s]
      | Some i => take i s :: splitFuel fuel' sep (drop (i + length sep) s)
      end
  end.

(** [s.split(sep)]; with the empty separator the result is the list of
    the code units. *)
Definition split sep s : list (list A) :=
  match sep with
  | [] => (λ a, [a]) <$> s
  | _ :: _ => splitFuel (length s) sep s
  end.

(** [s.replace(p, r)] for a string pattern [p] and a replacement [r]
    without [$] patterns: the first occurrence is replaced. *)
Definition replace p r s : list A :=
  match indexOf p s with
  | None => s
  | Some i => take i s ++ r ++ drop (i + length p) s
  end.

End Units.

(** A string literal as a list of code units. *)
Definition ofString (s : string) : list ascii :=
  Stdlib.Strings.String.list_ascii_of_string s.

End Text.

(* ===================================================================== *)
(** * [ModelResolver] and the hub provider *)
(* ===================================================================== *)

Module ModelResolver.
Import Text.

(** [globalRegistryManagement], as far as the resolver calls it; [X] is
    what a call yields (a model, or an exception). *)
Record Registry (X : Type) : Type := mkRegistry {
  languageModel : list ascii → X;
  embeddingModel : list ascii → X;
  imageModel : list ascii → X
}.
Global Arguments languageModel {X} _ _.
Global Arguments embeddingModel {X} _ _.
Global Arguments imageModel {X} _ _.

Section Resolver.
Context {X : Type}.
(** [DEFAULT_SEPARATOR], a constant of [RegistryManagement]. *)
Variable DEFAULT_SEPARATOR : list ascii.
Variable globalRegistryManagement : Registry X.

Definition resolveNamespacedModel (modelId : list ascii) : X :=
  languageModel globalRegistryManagement modelId.

Definition resolveTraditionalModel (providerId modelId : list ascii) : X :=
  languageModel globalRegistryManagement (providerId ++ DEFAULT_SEPARATOR ++ modelId).

Definition resolveNamespacedEmbeddingModel (modelId : list ascii) : X :=
  embeddingModel globalRegistryManagement modelId.

Definition resolveTraditionalEmbeddingModel (providerId modelId : list ascii) : X :=
  embeddingModel globalRegistryManagement (providerId ++ DEFAULT_SEPARATOR ++ modelId).

Definition resolveNamespacedImageModel (modelId : list ascii) : X :=
  imageModel globalRegistryManagement modelId.

Definition resolveTraditionalImageModel (providerId modelId : list ascii) : X :=
  imageModel globalRegistryManagement (providerId ++ DEFAULT_SEPARATOR ++ modelId).

(** [providerOptions?.mode === 'chat'] *)
Definition isChatMode (providerOptions : value) : bool :=
  match getProp providerOptions "mode" with
  | VStr mode => String.eqb mode "chat"
  | _ => false
  end.

(** [resolveLanguageModel(modelId, fallbackProviderId, providerOptions)] *)
Definition resolveLanguageModel (modelId fallbackProviderId : list ascii)
    (providerOptions : value) : X :=
  let finalProviderId :=
    if (bool_decide (fallbackProviderId = ofString "openai")
        || bool_decide (fallbackProviderId = ofString "azure"))
       && isChatMode providerOptions
    then fallbackProviderId ++ ofString "-chat"
    else fallbackProviderId in
  if includes DEFAULT_SEPARATOR modelId then resolveNamespacedModel modelId
  else resolveTraditionalModel finalProviderId modelId.

(** [resolveTextEmbeddingModel(modelId, fallbackProviderId)] *)
Definition resolveTextEmbeddingModel (modelId fallbackProviderId : list ascii) : X :=
  if includes DEFAULT_SEPARATOR modelId then resolveNamespacedEmbeddingModel modelId
  else resolveTraditionalEmbeddingModel fallbackProviderId modelId.

(** [resolveImageModel(modelId, fallbackProviderId)] *)
Definition resolveImageModel (modelId fallbackProviderId : list ascii) : X :=
  if includes DEFAULT_SEPARATOR modelId then resolveNamespacedImageModel modelId
  else resolveTraditionalImageModel fallbackProviderId modelId.

End Resolver.

(** A registry that answers with the id it is asked for. *)
Definition echoRegistry : Registry (list ascii) := mkRegistry _ id id id.

End ModelResolver.

Module HubProvider.
Import Text.

(** What [parseHubModelId] throws: a [HubProviderError] whose message
    quotes the model id and whose [hubId] is ['unknown']. *)
Inductive ParseError : Type :=
| InvalidHubModelId (modelId : list ascii).

(** [parseHubModelId(modelId)] *)
Definition parseHubModelId (DEFAULT_SEPARATOR modelId : list ascii)
  : ParseError + (list ascii * list ascii) :=
  match split DEFAULT_SEPARATOR modelId with
  | [provider; actualModelId] => inr (provider, actualModelId)
  | _ => inl (InvalidHubModelId modelId)
  end.

End HubProvider.

(* ===================================================================== *)
(** * Usage of the Claude Code provider *)
(* ===================================================================== *)

Module ClaudeCode.

(** A property of type [number | null | undefined]. *)
Inductive count : Type := Unset | Null | Count (n : Z).

(** [x ?? 0] *)
Definition orZero (x : count) : Z :=
  match x with Count n => n | _ => 0 end.

Record ClaudeCodeUsage : Type := mkClaudeCodeUsage {
  input_tokens : count;
  output_tokens : count;
  cache_creation_input_tokens : count;
  cache_read_input_tokens : count
}.

(** The object that [convertClaudeCodeUsage] returns: the usage
    properties and [raw]. *)
Record Converted : Type := mkConverted {
  usage : Usage.usage;
  raw : ClaudeCodeUsage
}.

(** [convertClaudeCodeUsage(usage)] *)
Definition convertClaudeCodeUsage (u : ClaudeCodeUsage) : Converted :=
  let inputTokens := orZero (input_tokens u) in
  let outputTokens := orZero (output_tokens u) in
  let cacheWrite := orZero (cache_creation_input_tokens u) in
  let cacheRead := orZero (cache_read_input_tokens u) in
  {| usage :=
       {| Usage.totalTokens := Usage.Num (inputTokens + outputTokens);
          Usage.inputTokens := Usage.Num inputTokens;
          Usage.outputTokens := Usage.Num outputTokens;
          Usage.inputTokenDetails :=
            Usage.Obj {| Usage.noCacheTokens := Usage.Num inputTokens;
                         Usage.cacheReadTokens := Usage.Num cacheRead;
                         Usage.cacheWriteTokens := Usage.Num cacheWrite |};
          Usage.outputTokenDetails :=
            Usage.Obj {| Usage.textTokens := Usage.Undefined;
                         Usage.reasoningTokens := Usage.Undefined |};
          Usage.tokens := Usage.Absent;
          Usage.legacyReasoningTokens := Usage.Absent;
          Usage.cachedInputTokens := Usage.Absent |};
     raw := u |}.

End ClaudeCode.

(* ===================================================================== *)
(** * [googleToolsPlugin] *)
(* ===================================================================== *)

Module GoogleTools.
Import Engine.

(** The keys of [toolNameMap]. *)
Inductive ToolConfigKey : Type := googleSearch | urlContext | codeExecution.

Definition toolNameMap (key : ToolConfigKey) : string :=
  match key with
  | googleSearch => "google_search"
  | urlContext => "url_context"
  | codeExecution => "code_execution"
  end.

(** [ToolConfig]: three optional booleans. *)
Definition ToolConfig : Type := ToolConfigKey → option bool.

(** [config[key]] is truthy. *)
Definition enabledKey (config : ToolConfig) (key : ToolConfigKey) : bool :=
  match config key with Some true => true | _ => false end.

Definition allKeys : list ToolConfigKey := [googleSearch; urlContext; codeExecution].

Section Plugin.
Context {R T : Type}.
(** [google.tools]: for a key that it has, the tool that
    [google.tools[key]({})] creates. *)
Variable googleTools : ToolConfigKey → option value.

(** [config[key] && key in toolNameMap && key in google.tools] *)
Definition usable (config : ToolConfig) (key : ToolConfigKey) : bool :=
  enabledKey config key && bool_decide (is_Some (googleTools key)).

(** The [tools] object that the [forEach] fills. *)
Definition builtTools (config : ToolConfig) : object :=
  foldl (λ tools key,
           if usable config key
           then match googleTools key with
                | Some tool => <[toolNameMap key := tool]> tools
                | None => tools
                end
           else tools) ∅ allKeys.

(** [{ ...params.tools }] for a tool set or [undefined]. *)
Definition toolSet (tools : value) : object :=
  match tools with VObj o => o | _ => ∅ end.

(** The [transformParams] hook. *)
Definition googleTransformParams (config : option ToolConfig) (params : object)
  : M object :=
  λ context,
    match config with
    | Some config =>
        if negb (String.eqb (providerId context) "google") then (Ok ∅, context)
        else if negb (existsb (usable config) allKeys) then (Ok ∅, context)
        else (Ok {[ "tools" := VObj (spread (toolSet (prop params "tools"))
                                       (builtTools config)) ]}, context)
    | None => (Ok ∅, context)
    end.

Definition googleToolsPlugin (config : option ToolConfig) : AiPlugin R T :=
  mkPlugin "googleToolsPlugin" None None None None
    (Some (λ _ params, googleTransformParams config params))
    None None None None None.

End Plugin.
End GoogleTools.

(* ===================================================================== *)
(** * Model guards and [RuntimeExecutor] *)
(* ===================================================================== *)

Module Models.

(** [isV2Model(model)] *)
Definition isV2Model (model : value) : bool :=
  match model with
  | VObj o => match prop o "specificationVersion" with
              | VStr v => String.eqb v "v2"
              | _ => false
              end
  | _ => false
  end.

(** [isV3Model(model)] *)
Definition isV3Model (model : value) : bool :=
  match model with
  | VObj o => match prop o "specificationVersion" with
              | VStr v => String.eqb v "v3"
              | _ => false
              end
  | _ => false
  end.

(** [hasModelId(model)] *)
Definition hasModelId (model : value) : bool :=
  match model with
  | VObj o => match o !! "modelId" with
              | Some (VStr _) => true
              | _ => false
              end
  | _ => false
  end.

End Models.

Module RuntimeExecutor.
Import Engine.

(** The [experimental_transform] that [streamText] of the AI SDK is
    given, if any: the one of the caller, or the transforms of the
    plugins. *)
Inductive Transform (T : Type) : Type :=
| FromParams (v : value)
| FromPlugins (transforms : list T).
Global Arguments FromParams {T} v.
Global Arguments FromPlugins {T} transforms.

Section Executor.
Context {R T : Type}.
Variable sdk : Sdk R.
(** [this.config.providerId] and [this.config.providerSettings] *)
Variable providerId : string.
Variable providerSettings : value.
(** [this] *)
Variable self : value.
Variable DEFAULT_SEPARATOR : list ascii.
(** The registry answers with a model or throws; it has no access to the
    context of a request. *)
Variable globalRegistryManagement : ModelResolver.Registry (outcome value).
(** [streamText], [generateText] and [generateImage] of the AI SDK. *)
Variable _streamText : object → option (Transform T) → M R.
Variable _generateText : object → M R.
Variable _generateImage : object → M R.
(** The [Error] that [resolveModel] throws for a model that is not a V3
    model, and the constructor of [ImageModelResolutionError] (a class of
    [runtime/errors]). *)
Variable modelMustBeV3 : error.
Variable ImageModelResolutionError : value → string → error → error.

(** A call that does not touch the context. *)
Definition withoutContext {A : Type} (o : outcome A) : M A := λ c, (o, c).

(** [resolveModel(modelOrId)] *)
Definition resolveModel (modelOrId : value) : M value :=
  match modelOrId with
  | VStr modelId =>
      withoutContext (ModelResolver.resolveLanguageModel DEFAULT_SEPARATOR
                 globalRegistryManagement (Text.ofString modelId)
                 (Text.ofString providerId) providerSettings)
  | _ => if Models.isV3Model modelOrId then ret modelOrId else throw modelMustBeV3
  end.

(** [resolveImageModel(modelOrId)] *)
Definition resolveImageModel (modelOrId : value) : M value :=
  tryCatch
    (match modelOrId with
     | VStr modelId =>
         withoutContext (ModelResolver.resolveImageModel DEFAULT_SEPARATOR
                    globalRegistryManagement (Text.ofString modelId)
                    (Text.ofString providerId))
     | _ => ret modelOrId
     end)
    (λ e, throw (ImageModelResolutionError
                   (match modelOrId with VStr _ => modelOrId | _ => getProp modelOrId "modelId" end)
                   providerId e)).

Definition createResolveModelPlugin : AiPlugin R T :=
  mkPlugin "_internal_resolveModel" (Some Post)
    (Some (λ _ modelId, resolveModel (VStr modelId)))
    None None None None None None None None.

Definition createResolveImageModelPlugin : AiPlugin R T :=
  mkPlugin "_internal_resolveImageModel" (Some Post)
    (Some (λ _ modelId, resolveImageModel (VStr modelId)))
    None None None None None None None None.

(** [configureContext: async (context) => { context.executor = this }] *)
Definition createConfigureContextPlugin : AiPlugin R T :=
  mkPlugin "_internal_configureContext" None None None
    (Some (λ _, modifyContext (λ c, set_dynamic (<["executor" := self]> (dynamic c)) c)))
    None None None None None None.

(** The plugins that a call registers with [pluginEngine.usePlugins]. *)
Definition internalPlugins (resolver : AiPlugin R T) (model : value) : list (AiPlugin R T) :=
  if isString model then [resolver; createConfigureContextPlugin]
  else [createConfigureContextPlugin].

(** [params?.experimental_transform ??
     (streamTransforms.length > 0 ? streamTransforms : undefined)] *)
Definition experimental_transform (params : object) (streamTransforms : list T)
  : option (Transform T) :=
  if isNullish (prop params "experimental_transform") then
    match streamTransforms with
    | [] => None
    | _ :: _ => Some (FromPlugins streamTransforms)
    end
  else Some (FromParams (prop params "experimental_transform")).

(** The argument of the SDK call, [experimental_transform] apart:
    [{ ...transformedParams, model: resolvedModel }]. *)
Definition callParams (resolvedModel : value) (transformedParams : object) : object :=
  <["model" := resolvedModel]> transformedParams.

(** [streamText(params)]: the base plugins of the engine afterwards, and
    the outcome. *)
Definition streamText (fuel : nat) (basePlugins : list (AiPlugin R T)) (params : object)
    (requestId : string) (startTime : Z)
  : list (AiPlugin R T) * (outcome R * AiRequestContext) :=
  let plugins :=
    EngineRegistry.usePlugins basePlugins
      (internalPlugins createResolveModelPlugin (prop params "model")) in
  (plugins,
   executeStreamWithPlugins fuel sdk providerId plugins params
     (λ resolvedModel transformedParams streamTransforms,
        _streamText
          (delete "experimental_transform" (callParams resolvedModel transformedParams))
          (experimental_transform params streamTransforms))
     None requestId startTime).

(** [generateText(params)] *)
Definition generateText (fuel : nat) (basePlugins : list (AiPlugin R T)) (params : object)
    (requestId : string) (startTime : Z)
  : list (AiPlugin R T) * (outcome R * AiRequestContext) :=
  let plugins :=
    EngineRegistry.usePlugins basePlugins
      (internalPlugins createResolveModelPlugin (prop params "model")) in
  (plugins,
   executeWithPlugins fuel sdk providerId plugins params
     (λ resolvedModel transformedParams,
        _generateText (callParams resolvedModel transformedParams))
     None requestId startTime).

(** [generateImage(params)].  The [try] block returns the promise of the
    engine without awaiting it, so its [catch] sees no rejection. *)
Definition generateImage (fuel : nat) (basePlugins : list (AiPlugin R T)) (params : object)
    (requestId : string) (startTime : Z)
  : list (AiPlugin R T) * (outcome R * AiRequestContext) :=
  let plugins :=
    EngineRegistry.usePlugins basePlugins
      (internalPlugins createResolveImageModelPlugin (prop params "model")) in
  (plugins,
   executeImageWithPlugins fuel sdk providerId plugins params
     (λ resolvedModel transformedParams,
        _generateImage (callParams resolvedModel transformedParams))
     None requestId startTime).

End Executor.
End RuntimeExecutor.

(* ===================================================================== *)
(** * Middleware plugins of the renderer *)
(* ===================================================================== *)

Module Middleware.
Import Engine.

(** ** The Qwen thinking middleware *)

(** A part of the content of a message: its [type], its [text] (of a text
    part) and its other properties. *)
Record Part : Type := mkPart {
  type : string;
  text : list ascii;
  partOptions : object
}.

(** The content of a message: a string (system messages) or parts. *)
Inductive Content : Type :=
| StringContent (s : list ascii)
| Parts (parts : list Part).

Record Message : Type := mkMessage {
  role : string;
  content : Content;
  messageOptions : object
}.

(** The call options that the middleware is given: the prompt, which is
    [None] when it is missing or not an array, and the other options. *)
Record CallOptions : Type := mkCallOptions {
  prompt : option (list Message);
  options : object
}.

(** [const suffix = enableThinking ? ' /think' : ' /no_think'] *)
Definition suffix (enableThinking : bool) : list ascii :=
  if enableThinking then Text.ofString " /think" else Text.ofString " /no_think".

(** The body of the loop over the parts of a user message. *)
Definition appendSuffix (enableThinking : bool) (part : Part) : Part :=
  if String.eqb (type part) "text"
     && negb (Text.endsWith (Text.ofString "/think") (text part))
     && negb (Text.endsWith (Text.ofString "/no_think") (text part))
  then mkPart (type part) (text part ++ suffix enableThinking) (partOptions part)
  else part.

(** The function that [prompt.map] applies to a message. *)
Definition processMessage (enableThinking : bool) (message : Message) : Message :=
  if String.eqb (role message) "user" then
    match content message with
    | Parts parts =>
        mkMessage (role message) (Parts (appendSuffix enableThinking <$> parts))
          (messageOptions message)
    | StringContent _ => message
    end
  else message.

(** [transformParams] of [createQwenThinkingMiddleware(enableThinking)] *)
Definition qwenTransformParams (enableThinking : bool) (params : CallOptions) : CallOptions :=
  mkCallOptions (fmap (M:=list) (processMessage enableThinking) <$> prompt params)
    (options params).

(** A part that the loop leaves alone: anything but a text part without
    one of the two suffixes. *)
Definition marked (part : Part) : Prop :=
  type part = "text" →
  Text.endsWith (Text.ofString "/think") (text part) || Text.endsWith (Text.ofString "/no_think") (text part)
  = true.

(** ** The OpenRouter image generation middleware *)

(** [{ ...v }] for an object, [undefined] or [null]. *)
Definition properties (v : value) : object :=
  match v with VObj o => o | _ => ∅ end.

(** Provider options are an object or missing. *)
Definition optionalObject (v : value) : Prop :=
  match v with VObj _ | VUndefined => True | _ => False end.

(** [transformParams] of [createOpenrouterGenerateImageMiddleware()] *)
Definition openrouterTransformParams (params : object) : object :=
  let providerOptions := prop params "providerOptions" in
  <["providerOptions" :=
      VObj (<["openrouter" :=
                VObj (<["modalities" := VArr [VStr "image"; VStr "text"]]>
                        (properties (getProp providerOptions "openrouter")))]>
              (properties providerOptions))]> params.

(** ** The plugins *)

Section Plugins.
Context {R T : Type}.
(** The middleware objects, which the AI SDK interprets. *)
Variable simulateStreamingMiddleware : value.
Variable extractReasoningMiddleware : string → value.
Variable qwenThinkingMiddleware : bool → value.
Variable openrouterReasoningMiddleware : value.
Variable openrouterGenerateImageMiddleware : value.

(** [context.middlewares = context.middlewares || [];
     context.middlewares.push(middleware)] *)
Definition pushMiddleware (middleware : value) : M unit :=
  modifyContext
    (λ c, set_middlewares (Some (default [] (middlewares c) ++ [middleware])) c).

(** A plugin of tier [pre] whose only hook is such a [configureContext]. *)
Definition middlewarePlugin (name : string) (middleware : value) : AiPlugin R T :=
  mkPlugin name (Some Pre) None None (Some (λ _, pushMiddleware middleware))
    None None None None None None.

Definition createSimulateStreamingPlugin : AiPlugin R T :=
  middlewarePlugin "simulateStreaming" simulateStreamingMiddleware.

(** [options.tagName || 'thinking'] *)
Definition createReasoningExtractionPlugin (tagName : option string) : AiPlugin R T :=
  middlewarePlugin "reasoningExtraction"
    (extractReasoningMiddleware
       (match tagName with
        | Some t => if String.eqb t "" then "thinking" else t
        | None => "thinking"
        end)).

Definition createQwenThinkingPlugin (enableThinking : bool) : AiPlugin R T :=
  middlewarePlugin "qwenThinking" (qwenThinkingMiddleware enableThinking).

Definition createOpenrouterReasoningPlugin : AiPlugin R T :=
  middlewarePlugin "openrouterReasoning" openrouterReasoningMiddleware.

Definition createOpenrouterGenerateImagePlugin : AiPlugin R T :=
  middlewarePlugin "openrouterGenerateImage" openrouterGenerateImageMiddleware.

End Plugins.
End Middleware.


(* ===================================================================== *)
(** * Text that the prompt tool-use transform forwards *)
(* ===================================================================== *)

Module TextBlocks.

(** The extraction results that the loop over [results] forwards:
    [if (!result.isTagContent && result.content)]. *)
Definition forwarded (result : string * bool) : bool :=
  negb result.2 && negb (String.eqb result.1 "").

Definition visible (results : list (string * bool)) : list string :=
  fst <$> filter (λ result, forwarded result = true) results.

Section Extractor.
Context {X : Type}.
Variable processText : X → string → list (string * bool) * X.

(** [tagExtractor.processText] called on the texts of consecutive
    text-delta chunks, the extractor keeping its state between calls. *)
Fixpoint extractAll (extractor : X) (texts : list string)
  : list (string * bool) * X :=
  match texts with
  | [] => ([], extractor)
  | text :: rest =>
      let '(results, extractor1) := processText extractor text in
      let '(more, extractor2) := extractAll extractor1 rest in
      (results ++ more, extractor2)
  end.

End Extractor.

(** [textBuffer += chunk.text] over consecutive text-delta chunks. *)
Definition buffered (textBuffer : string) (texts : list string) : string :=
  foldl (λ buffer text, buffer +:+ text) textBuffer texts.

End TextBlocks.
(* ===================================================================== *)
(** * Properties *)
(* ===================================================================== *)

(** ** Usage accumulation *)

Module UsageFacts.
Import Usage.

Lemma image_is_language u :
  isImageModelUsage u = true → isLanguageModelUsage u = true.
Proof.
  unfold isImageModelUsage, isLanguageModelUsage.
  destruct (has (inputTokens u)), (has (totalTokens u)); simpl;
    (reflexivity || discriminate).
Qed.

Lemma acc_language t s :
  isLanguageModelUsage t = true → isLanguageModelUsage s = true →
  accumulateUsage (Some t) (Some s) = (Some (accumulateLanguage t s), []).
Proof. intros Ht Hs. unfold accumulateUsage. by rewrite Ht, Hs. Qed.

Lemma language_after t s : isLanguageModelUsage (accumulateLanguage t s) = true.
Proof. reflexivity. Qed.

Lemma embeddingOnly_not_language u :
  embeddingOnly u = true →
  isLanguageModelUsage u = false ∧ isImageModelUsage u = false
  ∧ isEmbeddingModelUsage u = true.
Proof.
  unfold embeddingOnly, isEmbeddingModelUsage, isLanguageModelUsage, isImageModelUsage.
  destruct (has (tokens u)), (has (inputTokens u)), (has (outputTokens u)),
    (has (totalTokens u)); simpl; intros H; try discriminate; auto.
Qed.

Lemma acc_embedding t s :
  embeddingOnly t = true → embeddingOnly s = true →
  accumulateUsage (Some t) (Some s) = (Some (accumulateEmbedding t s), []).
Proof.
  intros Ht Hs.
  destruct (embeddingOnly_not_language _ Ht) as (Hl & Hi & He).
  destruct (embeddingOnly_not_language _ Hs) as (_ & _ & He').
  unfold accumulateUsage. by rewrite Hl, Hi, He, He'.
Qed.

Lemma embeddingOnly_after t s :
  embeddingOnly t = true → embeddingOnly (accumulateEmbedding t s) = true.
Proof.
  unfold embeddingOnly, isEmbeddingModelUsage. simpl.
  destruct (has (inputTokens t)), (has (outputTokens t)), (has (totalTokens t));
    simpl; rewrite ?andb_false_r; try discriminate; reflexivity.
Qed.

Lemma language_comm t a b :
  accumulateLanguage (accumulateLanguage t a) b
  = accumulateLanguage (accumulateLanguage t b) a.
Proof.
  unfold accumulateLanguage, addTokenTotals; simpl.
  f_equal; try (f_equal; lia).
  - destruct (inputTokenDetails a), (inputTokenDetails b), (inputTokenDetails t);
      simpl; try reflexivity; unfold addInputDetails; simpl;
      do 2 f_equal; apply (f_equal Num); lia.
  - destruct (outputTokenDetails a), (outputTokenDetails b), (outputTokenDetails t);
      simpl; try reflexivity; unfold addOutputDetails; simpl;
      do 2 f_equal; apply (f_equal Num); lia.
Qed.

Lemma language_assoc t a b :
  accumulateLanguage (accumulateLanguage t a) b
  = accumulateLanguage t (accumulateLanguage a b).
Proof.
  unfold accumulateLanguage, addTokenTotals; simpl.
  f_equal; try (f_equal; lia).
  - destruct (inputTokenDetails a), (inputTokenDetails b), (inputTokenDetails t);
      simpl; try reflexivity; unfold addInputDetails; simpl;
      do 2 f_equal; apply (f_equal Num); lia.
  - destruct (outputTokenDetails a), (outputTokenDetails b), (outputTokenDetails t);
      simpl; try reflexivity; unfold addOutputDetails; simpl;
      do 2 f_equal; apply (f_equal Num); lia.
Qed.

Lemma embedding_comm t a b :
  accumulateEmbedding (accumulateEmbedding t a) b
  = accumulateEmbedding (accumulateEmbedding t b) a.
Proof. unfold accumulateEmbedding; simpl. do 2 f_equal. lia. Qed.

Lemma embedding_assoc t a b :
  accumulateEmbedding (accumulateEmbedding t a) b
  = accumulateEmbedding t (accumulateEmbedding a b).
Proof. unfold accumulateEmbedding; simpl. do 2 f_equal. lia. Qed.

Lemma acc_is_language t s :
  isLanguageModelUsage t = true → isLanguageModelUsage s = true →
  acc t s = accumulateLanguage t s.
Proof. intros Ht Hs. unfold acc. by rewrite acc_language. Qed.

Lemma acc_is_embedding t s :
  embeddingOnly t = true → embeddingOnly s = true →
  acc t s = accumulateEmbedding t s.
Proof. intros Ht Hs. unfold acc. by rewrite acc_embedding. Qed.

Lemma acc_same_shape t a b :
  sameShape t a b →
  acc (acc t a) b = acc (acc t b) a ∧ acc (acc t a) b = acc t (acc a b).
Proof.
  assert (Hlang : isLanguageModelUsage t = true → isLanguageModelUsage a = true →
                  isLanguageModelUsage b = true →
                  acc (acc t a) b = acc (acc t b) a
                  ∧ acc (acc t a) b = acc t (acc a b)).
  { intros Ht Ha Hb.
    rewrite (acc_is_language t a), (acc_is_language t b), (acc_is_language a b)
      by assumption.
    rewrite !acc_is_language by (assumption || apply language_after).
    split; [apply language_comm | apply language_assoc]. }
  intros [(Ht & Ha & Hb) | [(Ht & Ha & Hb) | (Ht & Ha & Hb)]].
  - by apply Hlang.
  - apply Hlang; by apply image_is_language.
  - rewrite (acc_is_embedding t a), (acc_is_embedding t b), (acc_is_embedding a b)
      by assumption.
    rewrite !acc_is_embedding by (assumption || by apply embeddingOnly_after).
    split; [apply embedding_comm | apply embedding_assoc].
Qed.

(** C5.  For a target [t] and sources [a], [b] of one shape, the order in
    which [a] and [b] are accumulated into [t] does not matter, and
    accumulating [a] then [b] equals accumulating the accumulation of [b]
    into [a]; none of these calls writes a diagnostic.  Accumulating
    {10,20,30} and {5,10,15} into the zero target gives {15,30,45} in
    both orders.  When no guard accepts both [t'] and [s'] (such as a
    language-model target and the embedding source {tokens:5}) the target
    is returned unchanged together with exactly one diagnostic; the
    function has no failing outcome. *)
Theorem accumulateUsage_commutative_associative
    (t a b : usage) (Hshape : sameShape t a b)
    (t' s' : usage) (Hmis : mismatched t' s') :
  (acc (acc t a) b = acc (acc t b) a
   ∧ acc (acc t a) b = acc t (acc a b)
   ∧ snd (accumulateUsage (Some t) (Some a)) = []
   ∧ snd (accumulateUsage (Some (acc t a)) (Some b)) = [])
  ∧ (acc (acc (tokenUsage 0 0 0) (tokenUsage 10 20 30)) (tokenUsage 5 10 15)
       = tokenUsage 15 30 45
     ∧ acc (acc (tokenUsage 0 0 0) (tokenUsage 5 10 15)) (tokenUsage 10 20 30)
       = tokenUsage 15 30 45)
  ∧ accumulateUsage (Some t') (Some s') = (Some t', [UnableToAccumulate t' s'])
  ∧ accumulateUsage (Some (tokenUsage 10 20 30)) (Some (embeddingUsage 5))
    = (Some (tokenUsage 10 20 30),
       [UnableToAccumulate (tokenUsage 10 20 30) (embeddingUsage 5)]).
Proof.
  split; [| split; [| split]].
  - destruct (acc_same_shape t a b Hshape) as [Hc Ha].
    repeat split; try assumption.
    + destruct Hshape as [(Ht & Hsa & Hb) | [(Ht & Hsa & Hb) | (Ht & Hsa & Hb)]].
      * by rewrite acc_language.
      * apply image_is_language in Ht, Hsa. by rewrite acc_language.
      * by rewrite acc_embedding.
    + destruct Hshape as [(Ht & Hsa & Hb) | [(Ht & Hsa & Hb) | (Ht & Hsa & Hb)]].
      * rewrite acc_is_language by assumption.
        by rewrite acc_language.
      * apply image_is_language in Ht, Hsa, Hb.
        rewrite acc_is_language by assumption.
        by rewrite acc_language.
      * rewrite acc_is_embedding by assumption.
        rewrite acc_embedding; auto using embeddingOnly_after.
  - split; reflexivity.
  - destruct Hmis as (Hl & Hi & He). unfold accumulateUsage.
    by rewrite Hl, Hi, He.
  - reflexivity.
Qed.

Lemma accumulateUsage_commutative_associative_witness :
  sameShape initialAccumulator (tokenUsage 10 20 30) (tokenUsage 5 10 15)
  ∧ mismatched (tokenUsage 10 20 30) (embeddingUsage 5)
  ∧ acc (acc initialAccumulator (tokenUsage 10 20 30)) (tokenUsage 5 10 15)
    = acc (acc initialAccumulator (tokenUsage 5 10 15)) (tokenUsage 10 20 30).
Proof.
  assert (Hs : sameShape initialAccumulator (tokenUsage 10 20 30) (tokenUsage 5 10 15))
    by (left; repeat split; reflexivity).
  assert (Hm : mismatched (tokenUsage 10 20 30) (embeddingUsage 5))
    by (repeat split; reflexivity).
  split; [exact Hs | split; [exact Hm |]].
  exact (proj1 (proj1 (accumulateUsage_commutative_associative _ _ _ Hs _ _ Hm))).
Defined.

End UsageFacts.

(** ** The Tag Extractor *)

Module TagExtractorFacts.
Import TagExtractor.

Section Facts.
Context {A : Type} `{!EqDecision A}.
Implicit Types (cfg : TagConfig A) (s t p u tag : list A).
Implicit Types (x y z : list (TagExtractionResult A) * TagExtractionState A).

Lemma startsWith_spec tag s : startsWith tag s = true ↔ ∃ r, s = tag ++ r.
Proof.
  revert s; induction tag as [|a tag IH]; intros s; simpl.
  - split; eauto.
  - destruct s as [|b s]; simpl.
    + split; [discriminate | intros [r Hr]; discriminate].
    + rewrite andb_true_iff, bool_decide_eq_true, IH. split.
      * intros [-> [r ->]]. eauto.
      * intros [r Hr]. injection Hr as -> ->. eauto.
Qed.

Lemma startsWith_app tag s t : startsWith tag s = true → startsWith tag (s ++ t) = true.
Proof.
  rewrite !startsWith_spec. intros [r ->]. exists (r ++ t). by rewrite app_assoc.
Qed.

Lemma startsWith_length tag s : startsWith tag s = true → (length tag ≤ length s)%nat.
Proof. rewrite startsWith_spec. intros [r ->]. rewrite length_app. lia. Qed.

Lemma startsWith_app_inv tag s t :
  startsWith tag (s ++ t) = true → (length tag ≤ length s)%nat → startsWith tag s = true.
Proof.
  revert s; induction tag as [|a tag IH]; intros s; simpl; [done|].
  destruct s as [|b s]; simpl; [lia|].
  rewrite !andb_true_iff. intros [? ?] ?. split; [done|]. apply IH; [done | lia].
Qed.

(** A tag that starts [s ++ t] starts [s], or [s] is a beginning of it. *)
Lemma startsWith_app_cases tag s t :
  startsWith tag (s ++ t) = true → startsWith tag s = true ∨ startsWith s tag = true.
Proof.
  rewrite !startsWith_spec. intros [r Hr].
  apply app_eq_inv in Hr as [(k & -> & _) | (k & -> & _)]; eauto.
Qed.

Lemma startsWith_app_l s t tag : startsWith (s ++ t) tag = true → startsWith s tag = true.
Proof.
  rewrite !startsWith_spec. intros [r ->]. exists (t ++ r). by rewrite app_assoc.
Qed.

Lemma indexOf_Some tag s i :
  indexOf tag s = Some i →
  s = take i s ++ tag ++ drop (i + length tag) s.
Proof.
  revert i; induction s as [|b s IH]; intros i; simpl.
  - destruct (startsWith tag []) eqn:Hp; [|discriminate].
    intros [= <-]. apply startsWith_spec in Hp as [r Hr].
    destruct tag; [done | discriminate].
  - destruct (startsWith tag (b :: s)) eqn:Hp.
    + intros [= <-]. apply startsWith_spec in Hp as [r Hr]. simpl.
      rewrite Hr at 1. f_equal. rewrite Hr. by rewrite drop_app_length.
    + destruct (indexOf tag s) as [j|] eqn:Hj; [|discriminate].
      simpl. intros [= <-]. simpl. f_equal. by apply IH.
Qed.

Lemma indexOf_bound tag s i : indexOf tag s = Some i → (i + length tag ≤ length s)%nat.
Proof.
  revert i; induction s as [|b s IH]; intros i; simpl.
  - destruct (startsWith tag []) eqn:Hp; [|discriminate].
    intros [= <-]. apply startsWith_length in Hp. simpl in *. lia.
  - destruct (startsWith tag (b :: s)) eqn:Hp.
    + intros [= <-]. apply startsWith_length in Hp. simpl in *. lia.
    + destruct (indexOf tag s) as [j|] eqn:Hj; [|discriminate].
      simpl. intros [= <-]. specialize (IH j eq_refl). lia.
Qed.

Lemma indexOf_app tag s t i : indexOf tag s = Some i → indexOf tag (s ++ t) = Some i.
Proof.
  revert i; induction s as [|b s IH]; intros i Hi.
  - pose proof (indexOf_bound _ _ _ Hi) as Hb. simpl in Hb.
    assert (tag = []) as -> by (destruct tag; [done | simpl in Hb; lia]).
    assert (i = 0%nat) as -> by lia. by destruct t.
  - simpl in *. destruct (startsWith tag (b :: s)) eqn:Hp.
    + apply (startsWith_app _ _ t) in Hp. simpl in Hp. by rewrite Hp.
    + destruct (indexOf tag s) as [j|] eqn:Hj; [|discriminate].
      injection Hi as <-.
      destruct (startsWith tag (b :: s ++ t)) eqn:Hp'.
      * pose proof (indexOf_bound _ _ _ Hj).
        apply (startsWith_app_inv tag (b :: s) t) in Hp'; [congruence | simpl; lia].
      * by rewrite (IH j).
Qed.

Lemma indexOf_absent tag s k : indexOf tag s = None → startsWith tag (drop k s) = false.
Proof.
  revert k; induction s as [|b s IH]; intros k; simpl.
  - destruct (startsWith tag []) eqn:Hp; [discriminate|]. by destruct k.
  - destruct (startsWith tag (b :: s)) eqn:Hp; [discriminate|].
    destruct (indexOf tag s) eqn:Hs; [discriminate|]. intros _.
    destruct k as [|k]; [exact Hp | by apply IH].
Qed.

Lemma partialTagIndex_None tag s k :
  partialTagIndex tag s = None → (k < length s)%nat → startsWith (drop k s) tag = false.
Proof.
  revert k; induction s as [|b s IH]; intros k; cbn [partialTagIndex length];
    [intros _ ?; lia|].
  destruct (partialTagIndex tag s) eqn:Hs; [discriminate|].
  destruct (startsWith (b :: s) tag) eqn:Hp; [discriminate|]. intros _ Hk.
  destruct k as [|k]; [exact Hp | apply IH; [done | lia]].
Qed.

Lemma partialTagIndex_Some tag s i :
  partialTagIndex tag s = Some i →
  (i < length s)%nat ∧ startsWith (drop i s) tag = true.
Proof.
  revert i; induction s as [|b s IH]; intros i; cbn [partialTagIndex length];
    [discriminate|].
  destruct (partialTagIndex tag s) as [j|] eqn:Hs.
  - intros [= <-]. destruct (IH j eq_refl). split; [lia | done].
  - destruct (startsWith (b :: s) tag) eqn:Hp; [|discriminate].
    intros [= <-]. split; [lia | done].
Qed.

Lemma fmap_shift_0 (x : option nat) : (λ j, 0 + j)%nat <$> x = x.
Proof. by destruct x. Qed.

Lemma indexOf_skip tag p u :
  (∀ k, (k < length p)%nat → startsWith tag (drop k (p ++ u)) = false) →
  indexOf tag (p ++ u) = (λ j, length p + j)%nat <$> indexOf tag u.
Proof.
  induction p as [|a p IH]; intros Hclear; [by rewrite fmap_shift_0|].
  pose proof (Hclear 0%nat ltac:(simpl; lia)) as H0. cbn [drop app] in H0.
  cbn [app indexOf]. rewrite H0.
  rewrite IH by (intros k Hk; apply (Hclear (S k)); simpl; lia).
  by destruct (indexOf tag u).
Qed.

Lemma partialTagIndex_skip tag p u :
  (∀ k, (k < length p)%nat → startsWith (drop k (p ++ u)) tag = false) →
  partialTagIndex tag (p ++ u) = (λ j, length p + j)%nat <$> partialTagIndex tag u.
Proof.
  induction p as [|a p IH]; intros Hclear; [by rewrite fmap_shift_0|].
  cbn [app partialTagIndex].
  rewrite IH by (intros k Hk; apply (Hclear (S k)); simpl; lia).
  destruct (partialTagIndex tag u); [done|]. cbn [fmap option_fmap option_map].
  pose proof (Hclear 0%nat ltac:(simpl; lia)) as H0. cbn [drop app] in H0. by rewrite H0.
Qed.

Lemma tagBoundary_skip tag p u :
  boundaryFree tag p u →
  tagBoundary tag (p ++ u) = (λ j, length p + j)%nat <$> tagBoundary tag u.
Proof.
  intros Hclear. unfold tagBoundary. destruct tag as [|a tag]; [done|].
  rewrite indexOf_skip by (intros k Hk; by apply Hclear).
  rewrite partialTagIndex_skip by (intros k Hk; by apply Hclear).
  by destruct (indexOf (a :: tag) u).
Qed.

Lemma tagBoundary_None tag s :
  tag ≠ [] → tagBoundary tag s = None → indexOf tag s = None ∧ partialTagIndex tag s = None.
Proof.
  unfold tagBoundary. destruct tag; [done|]. intros _.
  by destruct (indexOf _ s).
Qed.

Lemma boundaryFree_None tag p u : tag ≠ [] → tagBoundary tag p = None → boundaryFree tag p u.
Proof.
  intros Hne [Hfull Hpartial]%tagBoundary_None k Hk; [|done].
  rewrite drop_app_le by lia.
  pose proof (partialTagIndex_None tag p k Hpartial Hk) as Hp.
  split.
  - destruct (startsWith tag (drop k p ++ u)) eqn:H; [|done].
    apply startsWith_app_cases in H as [H | H]; [|congruence].
    by rewrite (indexOf_absent tag p k Hfull) in H.
  - destruct (startsWith (drop k p ++ u) tag) eqn:H; [|done].
    apply startsWith_app_l in H. congruence.
Qed.

(** With a tag whose first character does not recur, a text has at most
    one end that is a beginning of the tag. *)
Lemma simpleTag_partial tag s k i :
  simpleTag tag → (k < i)%nat → (i < length s)%nat →
  startsWith (drop k s) tag = true → startsWith (drop i s) tag = true → False.
Proof.
  intros (a & rest & -> & Hnotin) Hki Hi [r1 H1]%startsWith_spec [r2 H2]%startsWith_spec.
  assert (Hdrop : drop i s = drop (i - k) (drop k s))
    by (rewrite drop_drop; f_equal; lia).
  destruct (drop k s) as [|x xs] eqn:Hx.
  { apply (f_equal length) in Hx. rewrite length_drop in Hx. simpl in Hx. lia. }
  destruct (drop i s) as [|y ys] eqn:Hy.
  { apply (f_equal length) in Hy. rewrite length_drop in Hy. simpl in Hy. lia. }
  injection H1 as <- Hrest. injection H2 as <- _.
  destruct (i - k)%nat as [|d] eqn:Hd; [lia|]. cbn [drop] in Hdrop.
  apply Hnotin. rewrite Hrest. apply elem_of_app. left.
  assert (Hin : a ∈ drop d xs) by (rewrite <- Hdrop; left).
  rewrite <- (take_drop d xs). apply elem_of_app. by right.
Qed.

Lemma boundaryFree_partial tag s t i :
  simpleTag tag → indexOf tag s = None → partialTagIndex tag s = Some i →
  boundaryFree tag (take i s) (drop i s ++ t).
Proof.
  intros Hsimple Hfull [Hi Hpartial]%partialTagIndex_Some k Hk.
  rewrite length_take in Hk.
  rewrite app_assoc, take_drop, drop_app_le by lia.
  assert (Hno : startsWith (drop k s) tag = false).
  { destruct (startsWith (drop k s) tag) eqn:H; [|done].
    destruct (simpleTag_partial tag s k i Hsimple); [lia | done | done | done]. }
  split.
  - destruct (startsWith tag (drop k s ++ t)) eqn:H; [|done].
    apply startsWith_app_cases in H as [H | H]; [|congruence].
    by rewrite (indexOf_absent tag s k Hfull) in H.
  - destruct (startsWith (drop k s ++ t) tag) eqn:H; [|done].
    apply startsWith_app_l in H. congruence.
Qed.

Lemma outsideText_app (rs1 rs2 : list (TagExtractionResult A)) :
  outsideText (rs1 ++ rs2) = outsideText rs1 ++ outsideText rs2.
Proof. unfold outsideText. by rewrite filter_app, fmap_app, concat_app. Qed.

Lemma insideText_app (rs1 rs2 : list (TagExtractionResult A)) :
  insideText (rs1 ++ rs2) = insideText rs1 ++ insideText rs2.
Proof. unfold insideText. by rewrite filter_app, fmap_app, concat_app. Qed.

Lemma sameRun_refl x : sameRun x x.
Proof. by repeat split. Qed.

Lemma sameRun_trans x y z : sameRun x y → sameRun y z → sameRun x z.
Proof. intros (? & ? & ?) (? & ? & ?). repeat split; congruence. Qed.

Lemma sameRun_app rs x y : sameRun x y → sameRun (rs ++ x.1, x.2) (rs ++ y.1, y.2).
Proof.
  intros (Ho & Hi & Hs). repeat split; cbn [fst snd]; [| |done].
  - by rewrite !outsideText_app, Ho.
  - by rewrite !insideText_app, Hi.
Qed.

Lemma emit_app cfg inside after p q :
  outsideText (emit cfg inside after (p ++ q)).1
  = outsideText ((emit cfg inside after p).1
                 ++ (emit cfg inside (emit cfg inside after p).2 q).1)
  ∧ insideText (emit cfg inside after (p ++ q)).1
    = insideText ((emit cfg inside after p).1
                  ++ (emit cfg inside (emit cfg inside after p).2 q).1)
  ∧ (emit cfg inside after (p ++ q)).2 = (emit cfg inside (emit cfg inside after p).2 q).2.
Proof.
  destruct p as [|a p]; [done|]. destruct q as [|b q].
  { rewrite app_nil_r. cbn [emit fst snd]. by rewrite app_nil_r. }
  unfold outsideText, insideText. cbn [emit app fst snd].
  rewrite !filter_cons, !filter_nil. cbn [isTagContent].
  destruct inside; repeat case_decide; try done;
    cbn [fmap list_fmap concat app content]; by rewrite ?app_nil_r, <- ?app_assoc.
Qed.

Lemma expectedTag_simple cfg inside : wellFormed cfg → simpleTag (expectedTag cfg inside).
Proof. intros [Ho Hc]. by destruct inside. Qed.

Lemma simpleTag_length tag : simpleTag tag → (0 < length tag)%nat ∧ tag ≠ [].
Proof. intros (a & rest & -> & _). split; [simpl; lia | done]. Qed.

Lemma tagBoundary_bound tag s i : tagBoundary tag s = Some i → (i ≤ length s)%nat.
Proof.
  unfold tagBoundary. destruct tag as [|a tag]; [done|].
  destruct (indexOf (a :: tag) s) as [j|] eqn:Hj.
  - intros [= <-]. apply indexOf_bound in Hj. lia.
  - intros [Hi _]%partialTagIndex_Some. lia.
Qed.

Lemma scan_fuel cfg n m inside after s :
  wellFormed cfg → (length s < n)%nat → (length s < m)%nat →
  scan n cfg inside after s = scan m cfg inside after s.
Proof.
  intros Hwf. revert m inside after s; induction n as [|n IH]; intros m inside after s Hn Hm;
    [lia|].
  destruct m as [|m]; [lia|]. cbn [scan].
  destruct (tagBoundary (expectedTag cfg inside) s) as [i|] eqn:Hi; [|done].
  destruct (emit cfg inside after (take i s)) as [rs after'].
  destruct (i + length (expectedTag cfg inside) <=? length s)%nat eqn:Hfull; [|done].
  apply Nat.leb_le in Hfull.
  destruct (simpleTag_length _ (expectedTag_simple cfg inside Hwf)) as [Hlen _].
  rewrite (IH m); [done | |]; rewrite length_drop; lia.
Qed.

(** A beginning of the text that holds no tag boundary is emitted, and the
    scan goes on with the rest. *)
Lemma scan_skip cfg inside after p u n m :
  wellFormed cfg → boundaryFree (expectedTag cfg inside) p u →
  (length (p ++ u) < n)%nat → (length u < m)%nat →
  sameRun (scan n cfg inside after (p ++ u))
          ((emit cfg inside after p).1 ++ (scan m cfg inside (emit cfg inside after p).2 u).1,
           (scan m cfg inside (emit cfg inside after p).2 u).2).
Proof.
  intros Hwf Hfree Hn Hm. destruct n as [|n]; [lia|]. destruct m as [|m]; [lia|].
  cbn [scan]. rewrite (tagBoundary_skip _ _ _ Hfree).
  destruct (emit_app cfg inside after p u) as (Houtside & Hinside & Hafter).
  destruct (tagBoundary (expectedTag cfg inside) u) as [j|] eqn:Hj;
    cbn [fmap option_fmap option_map].
  - pose proof (tagBoundary_bound _ _ _ Hj) as Hbound.
    destruct (emit_app cfg inside after p (take j u)) as (Ho & Hi & Ha).
    rewrite (take_app_add' p u (length p) j eq_refl).
    rewrite (drop_app_add' p u (length p) j eq_refl).
    rewrite length_app.
    replace (length p + j + length (expectedTag cfg inside) <=? length p + length u)%nat
      with (j + length (expectedTag cfg inside) <=? length u)%nat
      by (apply eq_true_iff_eq; rewrite !Nat.leb_le; lia).
    replace (length p + j + length (expectedTag cfg inside))%nat
      with (length p + (j + length (expectedTag cfg inside)))%nat by lia.
    rewrite (drop_app_add' p u (length p) _ eq_refl).
    destruct (emit cfg inside after (p ++ take j u)) as [rs after1].
    destruct (emit cfg inside after p) as [rs1 after2]. cbn [fst snd] in *.
    destruct (emit cfg inside after2 (take j u)) as [rs2 after3].
    cbn [fst snd] in *.
    destruct (j + length (expectedTag cfg inside) <=? length u)%nat eqn:Hfull.
    + apply Nat.leb_le in Hfull.
      destruct (simpleTag_length _ (expectedTag_simple cfg inside Hwf)) as [Hlen _].
      rewrite (scan_fuel cfg n m) by (try done; rewrite length_drop; rewrite ?length_app in *; lia).
      destruct (scan m cfg (negb inside) true _) as [more st].
      unfold sameRun. cbn [fst snd]. split; [|split; [|done]].
      * rewrite app_assoc, !outsideText_app. by rewrite Ho, outsideText_app.
      * rewrite app_assoc, !insideText_app. by rewrite Hi, insideText_app.
    + unfold sameRun. cbn [fst snd]. by rewrite Ha.
  - destruct (emit cfg inside after (p ++ u)) as [rs after1].
    destruct (emit cfg inside after p) as [rs1 after2]. cbn [fst snd] in *.
    destruct (emit cfg inside after2 u) as [rs2 after3].
    cbn [fst snd] in *. unfold sameRun. cbn [fst snd]. by rewrite Hafter.
Qed.

(** A partial tag is shorter than the tag. *)
Lemma partialTag_short tag s i :
  indexOf tag s = None → partialTagIndex tag s = Some i →
  (length s < i + length tag)%nat.
Proof.
  intros Hnone [Hi Hp]%partialTagIndex_Some.
  destruct (decide (length s < i + length tag)%nat) as [|Hfull]; [done|].
  assert (Hstart : startsWith tag (drop i s) = true).
  { apply startsWith_spec in Hp as [r Hr]. apply startsWith_spec. exists [].
    assert (r = []) as ->.
    { apply (f_equal length) in Hr. rewrite length_app, length_drop in Hr.
      destruct r; [done | simpl in *; lia]. }
    by rewrite app_nil_r in *. }
  by rewrite (indexOf_absent _ _ i Hnone) in Hstart.
Qed.

Lemma tagBoundary_full tag s t i :
  tagBoundary tag s = Some i → (i + length tag ≤ length s)%nat →
  tagBoundary tag (s ++ t) = Some i.
Proof.
  unfold tagBoundary. destruct tag as [|a tag]; [done|].
  destruct (indexOf (a :: tag) s) as [j|] eqn:Hj.
  - intros [= <-] _. by rewrite (indexOf_app _ _ t _ Hj).
  - intros Hp Hfull. pose proof (partialTag_short _ _ _ Hj Hp). lia.
Qed.

Lemma tagBoundary_partial tag s i :
  tagBoundary tag s = Some i → (length s < i + length tag)%nat →
  indexOf tag s = None ∧ partialTagIndex tag s = Some i.
Proof.
  unfold tagBoundary. destruct tag as [|a tag]; [done|].
  destruct (indexOf (a :: tag) s) as [j|] eqn:Hj; [|done].
  intros [= <-] Hlt. apply indexOf_bound in Hj. lia.
Qed.

(** Scanning a text in two parts emits what scanning it at once does. *)
Lemma scan_app cfg n m inside after s t :
  wellFormed cfg → (length s < n)%nat → (length (s ++ t) < m)%nat →
  sameRun (scan m cfg inside after (s ++ t))
          ((scan n cfg inside after s).1
           ++ (processText cfg (scan n cfg inside after s).2 t).1,
           (processText cfg (scan n cfg inside after s).2 t).2).
Proof.
  intros Hwf. revert m inside after s; induction n as [|n IH]; intros m inside after s Hn Hm;
    [lia|].
  destruct (simpleTag_length _ (expectedTag_simple cfg inside Hwf)) as [Hlen Hne].
  cbn [scan].
  destruct (tagBoundary (expectedTag cfg inside) s) as [i|] eqn:Hi.
  - pose proof (tagBoundary_bound _ _ _ Hi) as Hbound.
    destruct (i + length (expectedTag cfg inside) <=? length s)%nat eqn:Hfull.
    + apply Nat.leb_le in Hfull.
      destruct m as [|m]; [lia|]. cbn [scan].
      rewrite (tagBoundary_full _ _ t _ Hi Hfull).
      rewrite take_app_le, drop_app_le by lia.
      destruct (emit cfg inside after (take i s)) as [rs after'].
      replace (i + length (expectedTag cfg inside) <=? length (s ++ t))%nat with true
        by (symmetry; apply Nat.leb_le; rewrite length_app; lia).
      set (rest := drop (i + length (expectedTag cfg inside)) s).
      assert (Hrest : (length rest < n)%nat) by (unfold rest; rewrite length_drop; lia).
      assert (Hm' : (length (rest ++ t) < m)%nat)
        by (rewrite !length_app in *; unfold rest; rewrite length_drop; lia).
      pose proof (IH m (negb inside) true rest Hrest Hm') as Hsame.
      destruct (scan m cfg (negb inside) true (rest ++ t)) as [more st].
      destruct (scan n cfg (negb inside) true rest) as [rs1 st1].
      cbn [fst snd] in *. rewrite <- app_assoc.
      apply (sameRun_app rs (more, st) (_, _) Hsame).
    + apply Nat.leb_gt in Hfull.
      destruct (tagBoundary_partial _ _ _ Hi Hfull) as [Hnone Hpartial].
      pose proof (boundaryFree_partial _ s t i (expectedTag_simple cfg inside Hwf)
                    Hnone Hpartial) as Hfree.
      assert (Hsplit : s ++ t = take i s ++ (drop i s ++ t))
        by by rewrite app_assoc, take_drop.
      pose proof (scan_skip cfg inside after (take i s) (drop i s ++ t) m
                    (S (length (drop i s ++ t))) Hwf Hfree) as Hsame.
      rewrite <- Hsplit in Hsame. specialize (Hsame Hm ltac:(lia)).
      destruct (emit cfg inside after (take i s)) as [rs after'].
      exact Hsame.
  - pose proof (boundaryFree_None _ s t Hne Hi) as Hfree.
    pose proof (scan_skip cfg inside after s t m (S (length t)) Hwf Hfree Hm ltac:(lia))
      as Hsame.
    destruct (emit cfg inside after s) as [rs after'].
    exact Hsame.
Qed.

Lemma processText_app cfg st f1 f2 :
  wellFormed cfg →
  sameRun (processText cfg st (f1 ++ f2))
          ((processText cfg st f1).1 ++ (processText cfg (processText cfg st f1).2 f2).1,
           (processText cfg (processText cfg st f1).2 f2).2).
Proof.
  intros Hwf. unfold processText at 1 2 4 6. rewrite app_assoc.
  apply scan_app; [done | lia | lia].
Qed.

Lemma sameRun_sym x y : sameRun x y → sameRun y x.
Proof. intros (? & ? & ?). by repeat split. Qed.

Lemma processText_initial_nil cfg :
  wellFormed cfg → processText cfg initialState [] = ([], initialState).
Proof.
  intros [(a & rest & Ho & _) _]. unfold processText. cbn. by rewrite Ho.
Qed.

(** Feeding fragment by fragment emits what feeding their concatenation
    at once does, and leaves the extractor in the same state. *)
Lemma feed_concat cfg st f fragments :
  wellFormed cfg →
  sameRun (feed cfg st (f :: fragments)) (processText cfg st (concat (f :: fragments))).
Proof.
  intros Hwf. revert st f; induction fragments as [|g fs IH]; intros st f.
  - cbn [feed concat]. rewrite app_nil_r.
    destruct (processText cfg st f) as [rs st1]. rewrite app_nil_r. apply sameRun_refl.
  - change (concat (f :: g :: fs)) with (f ++ concat (g :: fs)).
    eapply sameRun_trans; [|apply sameRun_sym, processText_app, Hwf].
    change (feed cfg st (f :: g :: fs))
      with (let '(rs, st1) := processText cfg st f in
            let '(rs', st2) := feed cfg st1 (g :: fs) in (rs ++ rs', st2)).
    destruct (processText cfg st f) as [rs st1]. cbn [fst snd].
    specialize (IH st1 g).
    destruct (feed cfg st1 (g :: fs)) as [rs' st2].
    apply (sameRun_app rs (rs', st2) _ IH).
Qed.

Lemma feed_initial cfg fragments :
  wellFormed cfg →
  sameRun (feed cfg initialState fragments)
          (processText cfg initialState (concat fragments)).
Proof.
  intros Hwf. destruct fragments as [|f fs]; [|by apply feed_concat].
  cbn [feed concat]. rewrite processText_initial_nil by done. apply sameRun_refl.
Qed.

Lemma emit_nonempty cfg inside after text :
  Forall (λ r, content r ≠ []) (emit cfg inside after text).1.
Proof.
  destruct text as [|a text]; [constructor|]. cbn [emit fst].
  constructor; [|constructor]. cbn [content]. by destruct after, (separator cfg).
Qed.

Lemma scan_nonempty cfg n inside after s :
  Forall (λ r, content r ≠ []) (scan n cfg inside after s).1.
Proof.
  revert inside after s; induction n as [|n IH]; intros inside after s; [constructor|].
  cbn [scan]. destruct (tagBoundary _ s) as [i|].
  - pose proof (emit_nonempty cfg inside after (take i s)) as Hemit.
    destruct (emit cfg inside after (take i s)) as [rs after'].
    destruct (_ <=? _)%nat; [|exact Hemit].
    specialize (IH (negb inside) true (drop (i + length (expectedTag cfg inside)) s)).
    destruct (scan n cfg (negb inside) true _) as [more st].
    apply Forall_app. by split.
  - pose proof (emit_nonempty cfg inside after s) as Hemit.
    by destruct (emit cfg inside after s) as [rs after'].
Qed.

Lemma feed_nonempty cfg st fragments :
  Forall (λ r, content r ≠ []) (feed cfg st fragments).1.
Proof.
  revert st; induction fragments as [|f fs IH]; intros st; [constructor|].
  cbn [feed]. pose proof (scan_nonempty cfg (S (length (buffer st ++ f))) (insideTag st)
                            (afterSwitch st) (buffer st ++ f)) as Hscan.
  fold (processText cfg st f) in Hscan.
  destruct (processText cfg st f) as [rs st1]. specialize (IH st1).
  destruct (feed cfg st1 fs) as [rs' st2]. apply Forall_app. by split.
Qed.

Lemma extract_nonempty cfg fragments :
  Forall (λ r, content r ≠ []) (extract cfg fragments).
Proof.
  unfold extract. pose proof (feed_nonempty cfg initialState fragments) as Hfeed.
  destruct (feed cfg initialState fragments) as [rs st]. apply Forall_app. split; [done|].
  unfold finalize. cbn [fst]. destruct (insideTag st); [constructor|].
  apply emit_nonempty.
Qed.

(** Where nothing was emitted as tag content, all that was emitted is
    outside text. *)
Lemma emittedText_outside (rs : list (TagExtractionResult A)) :
  Forall (λ r, content r ≠ []) rs → insideText rs = [] → emittedText rs = outsideText rs.
Proof.
  unfold emittedText, outsideText, insideText.
  induction 1 as [|r rs Hr Hrs IH]; [done|].
  rewrite !filter_cons. destruct (isTagContent r); repeat case_decide; try done.
  - cbn [fmap list_fmap concat]. intros [Hnil _]%app_eq_nil. by destruct Hr.
  - cbn [fmap list_fmap concat]. intros Hin. by rewrite IH.
Qed.

(** A text without an opening tag comes out as it went in. *)
Lemma extract_plain cfg text :
  wellFormed cfg → indexOf (openingTag cfg) text = None →
  outsideText (extract cfg [text]) = text ∧ insideText (extract cfg [text]) = [].
Proof.
  intros Hwf Hnone. destruct (simpleTag_length _ (proj1 Hwf)) as [Hlen Hne].
  unfold extract, feed, processText. cbn [initialState buffer insideTag afterSwitch app scan].
  change (expectedTag cfg false) with (openingTag cfg).
  assert (Hemit : ∀ w, outsideText (emit cfg false false w).1 = w
                       ∧ insideText (emit cfg false false w).1 = []
                       ∧ (emit cfg false false w).2 = false).
  { intros [|a w]; [done|]. unfold outsideText, insideText. cbn [emit fst snd].
    rewrite !filter_cons, !filter_nil. cbn [isTagContent].
    repeat case_decide; try done. cbn. by rewrite app_nil_r. }
  destruct (tagBoundary (openingTag cfg) text) as [i|] eqn:Hi.
  - assert (Hpartial : partialTagIndex (openingTag cfg) text = Some i).
    { revert Hi. unfold tagBoundary. destruct (openingTag cfg); [done|]. by rewrite Hnone. }
    pose proof (partialTag_short _ _ _ Hnone Hpartial) as Hshort.
    destruct (Hemit (take i text)) as (Ho1 & Hi1 & Ha1).
    destruct (emit cfg false false (take i text)) as [rs1 after1].
    cbn [fst snd] in *. subst after1.
    replace (i + length (openingTag cfg) <=? length text)%nat with false
      by (symmetry; apply Nat.leb_gt; lia).
    rewrite app_nil_r. unfold finalize. cbn [fst snd insideTag afterSwitch buffer].
    destruct (Hemit (drop i text)) as (Ho2 & Hi2 & _).
    rewrite outsideText_app, insideText_app, Ho1, Ho2, Hi1, Hi2.
    by rewrite take_drop.
  - destruct (Hemit text) as (Ho1 & Hi1 & Ha1).
    destruct (emit cfg false false text) as [rs1 after1].
    cbn [fst snd] in *. subst after1.
    rewrite app_nil_r. unfold finalize. cbn [fst snd insideTag afterSwitch buffer emit].
    by rewrite app_nil_r.
Qed.

End Facts.


Lemma tool_use_config_wellFormed : wellFormed TOOL_USE_TAG_CONFIG.
Proof.
  split; eexists _, _; (split; [reflexivity|]); intros Hin;
    repeat (apply elem_of_cons in Hin as [Hin|Hin]; [discriminate Hin|]);
    by apply elem_of_nil in Hin.
Qed.



(** The hypothesis on the tags is needed in this model: of a text that
    ends in several beginnings of the tag the shortest is retained, so a
    tag whose first character recurs can be missed when it is split. *)
Lemma overlapping_tag_split :
  outsideText (extract (mkTagConfig (chars "aab") (chars "c") []) [chars "xaa"; chars "b"])
  = chars "xaab"
  ∧ outsideText (extract (mkTagConfig (chars "aab") (chars "c") []) [chars "xaab"])
    = chars "x".
Proof. split; vm_compute; reflexivity. Qed.

End TagExtractorFacts.

(** ** The plugin manager and the plugin engine *)

Module EngineFacts.
Import Engine Examples.

Section Manager.
Context {R T : Type}.
Implicit Types (rc : RecursiveCall (R:=R)) (plugins rest : list (AiPlugin R T)) (p : AiPlugin R T).

Lemma spread_empty (params : object) : spread params ∅ = params.
Proof. unfold spread. apply (left_id_L ∅ (∪)). Qed.

Lemma executeTransformParams_patches rc plugins params c result c' :
  executeTransformParams rc plugins params c = (Ok result, c') →
  ∃ patches, patchesInOrder rc plugins params c patches c'
             ∧ result = foldl spread params patches.
Proof.
  revert params c; induction plugins as [|p rest IH]; intros params c; simpl.
  - intros [= <- <-]. exists []. split; [constructor | done].
  - destruct (transformParams p) as [hook|] eqn:Hp.
    + unfold bind. destruct (hook rc params c) as [[partial|e|] c1] eqn:Hh; try discriminate.
      intros Hrest. apply IH in Hrest as (patches & Hpatches & ->).
      exists (partial :: patches). split; [|done]. by eapply patches_step.
    + intros Hrest. apply IH in Hrest as (patches & Hpatches & ->).
      exists patches. split; [|done]. by apply patches_skip.
Qed.

Lemma executeTransformParams_empty_patch rc p rest hook params c c1 :
  transformParams p = Some hook → hook rc params c = (Ok ∅, c1) →
  executeTransformParams rc (p :: rest) params c = executeTransformParams rc rest params c1.
Proof.
  intros Hp Hh. simpl. rewrite Hp. unfold bind. rewrite Hh. by rewrite spread_empty.
Qed.

End Manager.

(** C8 (as amended).  When the [transformParams] hooks of the plugins
    return, the final parameter object is the original one with the patch of
    each plugin spread over it (a shallow merge: a property of the patch
    replaces the property of the running value), in the order of the
    manager's list, which is pre, normal, post and registration order within
    a tier; each hook is given the running value.  An empty patch leaves
    the running value unchanged. *)
Theorem transformParams_is_ordered_spread {R T : Type}
    (rc : RecursiveCall (R:=R)) (plugins : list (AiPlugin R T))
    (params : object) (c : AiRequestContext) (result : object) (c' : AiRequestContext)
    (Hrun : executeTransformParams rc (PluginManager plugins) params c = (Ok result, c')) :
  (∃ patches,
      patchesInOrder rc (filter (λ p, isPre p = true) plugins
                         ++ filter (λ p, isNormal p = true) plugins
                         ++ filter (λ p, isPost p = true) plugins) params c patches c'
      ∧ result = foldl spread params patches)
  ∧ (∀ running : object, spread running ∅ = running)
  ∧ (∀ (p : AiPlugin R T) rest hook running c0 c1,
       transformParams p = Some hook → hook rc running c0 = (Ok ∅, c1) →
       executeTransformParams rc (p :: rest) running c0
       = executeTransformParams rc rest running c1).
Proof.
  split; [| split].
  - by apply executeTransformParams_patches.
  - apply spread_empty.
  - intros. by eapply executeTransformParams_empty_patch.
Qed.

Lemma transformParams_is_ordered_spread_witness :
  executeTransformParams (λ _, ret VNull)
    (PluginManager [patcher "last" (Some Post) {[ "temperature" := VNum 1 ]};
                    patcher "noop" None ∅;
                    patcher "first" (Some Pre) {[ "temperature" := VNum 2; "topP" := VNum 3 ]}])
    handleParams (freshContext handleParams)
  = (Ok {[ "model" := gpt4; "temperature" := VNum 1; "topP" := VNum 3 ]},
     freshContext handleParams)
  ∧ ∃ patches,
      patchesInOrder (λ _, ret VNull)
        ([patcher "first" (Some Pre) {[ "temperature" := VNum 2; "topP" := VNum 3 ]}]
         ++ [patcher "noop" None ∅]
         ++ [patcher "last" (Some Post) {[ "temperature" := VNum 1 ]}])
        handleParams (freshContext handleParams) patches (freshContext handleParams)
      ∧ ({[ "model" := gpt4; "temperature" := VNum 1; "topP" := VNum 3 ]} : object)
        = foldl spread handleParams patches.
Proof.
  assert (Hrun : executeTransformParams (R:=value) (T:=unit) (λ _, ret VNull)
    (PluginManager [patcher "last" (Some Post) {[ "temperature" := VNum 1 ]};
                    patcher "noop" None ∅;
                    patcher "first" (Some Pre) {[ "temperature" := VNum 2; "topP" := VNum 3 ]}])
    handleParams (freshContext handleParams)
  = (Ok {[ "model" := gpt4; "temperature" := VNum 1; "topP" := VNum 3 ]},
     freshContext handleParams)) by (vm_compute; reflexivity).
  split; [exact Hrun |].
  exact (proj1 (transformParams_is_ordered_spread _ _ _ _ _ _ Hrun)).
Defined.

(** C8 as stated fails twice.  A patch with a nested object replaces the
    nested object of the running value instead of being merged into it, and
    a post plugin registered before a normal plugin is applied after it. *)
Lemma transformParams_not_deep_registration_merge :
  (fst (executeTransformParams (R:=value) (T:=unit) (λ _, ret VNull)
          (PluginManager [patcher "tools" None {[ "tools" := VObj {[ "b" := VNum 2 ]} ]}])
          {[ "tools" := VObj {[ "a" := VNum 1 ]} ]} (freshContext ∅))
   = Ok {[ "tools" := VObj {[ "b" := VNum 2 ]} ]}
   ∧ foldl deepMergeObject {[ "tools" := VObj {[ "a" := VNum 1 ]} ]}
       [ {[ "tools" := VObj {[ "b" := VNum 2 ]} ]} ]
     = {[ "tools" := VObj {[ "a" := VNum 1; "b" := VNum 2 ]} ]}
   ∧ ({[ "tools" := VObj {[ "b" := VNum 2 ]} ]} : object)
     ≠ {[ "tools" := VObj {[ "a" := VNum 1; "b" := VNum 2 ]} ]})
  ∧ (fst (executeTransformParams (R:=value) (T:=unit) (λ _, ret VNull)
            (PluginManager [patcher "registered-first" (Some Post) {[ "temperature" := VNum 1 ]};
                            patcher "registered-second" None {[ "temperature" := VNum 2 ]}])
            ∅ (freshContext ∅))
     = Ok {[ "temperature" := VNum 1 ]}
     ∧ foldl deepMergeObject ∅
         [ {[ "temperature" := VNum 1 ]}; {[ "temperature" := VNum 2 ]} ]
       = {[ "temperature" := VNum 2 ]}
     ∧ ({[ "temperature" := VNum 1 ]} : object) ≠ {[ "temperature" := VNum 2 ]}).
Proof.
  repeat split; try (vm_compute; reflexivity).
  - intros H. apply (f_equal (λ o : object, getProp (prop o "tools") "a")) in H.
    vm_compute in H. discriminate.
  - intros H. apply (f_equal (λ o : object, prop o "temperature")) in H.
    vm_compute in H. discriminate.
Qed.

Section Recursion.
Context {R T : Type} (sdk : Sdk R).

Lemma recursiveCallClosure_limit (reenter : object → M R) params newParams context :
  maxRecursiveDepth context ≤ recursiveDepth context →
  recursiveCallClosure reenter params newParams context
  = (Throw (RecursiveDepthError (requestId context) (recursiveDepth context)
              (maxRecursiveDepth context)), context).
Proof.
  intros Hle. unfold recursiveCallClosure.
  by rewrite (proj2 (Z.leb_le _ _) Hle).
Qed.

Lemma recursiveCallClosure_restores (reenter : object → M R) params newParams context r c' :
  recursiveDepth context < maxRecursiveDepth context →
  reenter (spread params newParams)
    (set_isRecursiveCall true (set_recursiveDepth (recursiveDepth context + 1) context))
  = (r, c') →
  r ≠ Diverge →
  recursiveCallClosure reenter params newParams context
  = (r, set_isRecursiveCall (isRecursiveCall context)
          (set_recursiveDepth (recursiveDepth context) c')).
Proof.
  intros Hlt Hre Hr. unfold recursiveCallClosure, tryFinally.
  rewrite (proj2 (Z.leb_gt _ _) Hlt), Hre. by destruct r.
Qed.

End Recursion.

(** C1.  Let [context.recursiveCall] be the closure that a lifecycle
    invocation with parameters [params] installed.  If the depth is below
    the limit, calling it with an override re-enters the same lifecycle with
    [{...params, ...newParams}], on the same context with the depth
    incremented and [isRecursiveCall] set; whenever that nested invocation
    returns or throws, the call returns or throws the same, and
    [recursiveDepth] and [isRecursiveCall] are back at their values from
    before the call.  If the depth has reached the limit, the call throws
    [RecursiveDepthError] and leaves the context as it was. *)
Theorem recursiveCall_bounded_and_restoring {R T : Type} (sdk : Sdk R)
    (fuel : nat) (shape : CallShape) (engineProviderId : string)
    (basePlugins : list (AiPlugin R T)) (executor : value → object → list T → M R)
    (params newParams : object) (context : AiRequestContext)
    (Hinstalled : recursiveCall context = EngineClosure params) :
  let reenter := lifecycle fuel sdk shape engineProviderId basePlugins executor in
  (recursiveDepth context < maxRecursiveDepth context →
   ∀ r c',
     reenter (spread params newParams)
       (set_isRecursiveCall true (set_recursiveDepth (recursiveDepth context + 1) context))
     = (r, c') →
     r ≠ Diverge →
     callRecursive sdk reenter newParams context
     = (r, set_isRecursiveCall (isRecursiveCall context)
             (set_recursiveDepth (recursiveDepth context) c'))
     ∧ recursiveDepth (snd (callRecursive sdk reenter newParams context))
       = recursiveDepth context
     ∧ isRecursiveCall (snd (callRecursive sdk reenter newParams context))
       = isRecursiveCall context)
  ∧ (maxRecursiveDepth context ≤ recursiveDepth context →
     callRecursive sdk reenter newParams context
     = (Throw (RecursiveDepthError (requestId context) (recursiveDepth context)
                 (maxRecursiveDepth context)), context)).
Proof.
  intros reenter. unfold callRecursive. rewrite Hinstalled. split.
  - intros Hlt r c' Hre Hr.
    rewrite (recursiveCallClosure_restores reenter params newParams context r c' Hlt Hre Hr).
    by repeat split.
  - apply recursiveCallClosure_limit.
Qed.

Lemma recursiveCall_bounded_and_restoring_witness :
  recursiveCall (set_recursiveCall (EngineClosure handleParams) (freshContext handleParams))
  = EngineClosure handleParams
  ∧ recursiveDepth (set_recursiveCall (EngineClosure handleParams) (freshContext handleParams))
    < maxRecursiveDepth (set_recursiveCall (EngineClosure handleParams) (freshContext handleParams))
  ∧ recursiveDepth
      (snd (callRecursive valueSdk
              (lifecycle (T:=unit) 1 valueSdk GenerateText "openai" [] (λ m p _, okExecutor m p))
              {[ "temperature" := VNum 1 ]}
              (set_recursiveCall (EngineClosure handleParams) (freshContext handleParams))))
    = 0.
Proof.
  split; [reflexivity | split; [reflexivity |]].
  refine (proj1 (proj2 (proj1 (recursiveCall_bounded_and_restoring (T:=unit) valueSdk
            1 GenerateText "openai" [] (λ m p _, okExecutor m p)
            handleParams {[ "temperature" := VNum 1 ]}
            (set_recursiveCall (EngineClosure handleParams) (freshContext handleParams))
            eq_refl) _ (Ok (VStr "done")) _ _ _))).
  - reflexivity.
  - vm_compute. reflexivity.
  - discriminate.
Defined.

Section Middleware.
Context {R T : Type} (sdk : Sdk R).
Implicit Types (rc : RecursiveCall (R:=R)) (manager : list (AiPlugin R T)).

Lemma prepare_resolved rc shape manager pid params context m c1 :
  resolve sdk rc manager pid (prop params "model") context = (Ok m, c1) →
  prepare sdk rc shape manager pid params context
  = match executeTransformParams rc manager params c1 with
    | (Ok tp, c2) =>
        (Ok (applyMiddlewares sdk shape (prop params "model") c1 m, tp,
             match shape with
             | StreamText => collectStreamTransforms rc manager tp c2
             | _ => []
             end), c2)
    | (Throw e, c2) => (Throw e, c2)
    | (Diverge, c2) => (Diverge, c2)
    end.
Proof.
  intros Hres. unfold prepare, bind, getContext, ret. rewrite Hres.
  by destruct (executeTransformParams rc manager params c1) as [[tp|e|] c2].
Qed.

Lemma produceResult_prepared rc shape manager pid executor params context call c2 :
  prepare sdk rc shape manager pid params context = (Ok call, c2) →
  produceResult sdk rc shape manager pid executor params context
  = (let* result := executor call.1.1 call.1.2 call.2 in
     executeTransformResult rc manager result) c2.
Proof.
  intros Hprep. unfold produceResult, bind at 1. rewrite Hprep.
  by destruct call as [[m tp] ts].
Qed.

End Middleware.

(** C7 (as amended).  Let the model be resolved to [m] (from a string
    identifier through [resolveModel], or because the parameter already was
    a handle) and let the context hold the non-empty list [mws] of
    middlewares after [configureContext].  In a non-streaming text request,
    whichever way the model arrived, and in a streaming request whose model
    arrived as a handle, the executor is called with
    [wrapLanguageModel({ model: m, middleware: mws })], the list being the
    context's list in its order.  In an image request the executor is
    called with [m] itself. *)
Theorem middlewares_wrap_resolved_model {R T : Type} (sdk : Sdk R)
    (rc : RecursiveCall (R:=R)) (shape : CallShape) (manager : list (AiPlugin R T))
    (engineProviderId : string) (params : object) (context : AiRequestContext)
    (m : value) (c1 : AiRequestContext) (mws : list value)
    (call : value * object * list T) (c2 : AiRequestContext)
    (Hshape : shape = GenerateText ∨ shape = GenerateImage
              ∨ (shape = StreamText ∧ isString (prop params "model") = false))
    (Hresolve : resolve sdk rc manager engineProviderId (prop params "model") context
                = (Ok m, c1))
    (Hmiddlewares : middlewares c1 = Some mws)
    (Hnonempty : mws ≠ [])
    (Hprepare : prepare sdk rc shape manager engineProviderId params context = (Ok call, c2)) :
  call.1.1 = (match shape with GenerateImage => m | _ => wrapLanguageModel sdk m mws end)
  ∧ ∀ executor,
      produceResult sdk rc shape manager engineProviderId executor params context
      = (let* result := executor
                          (match shape with
                           | GenerateImage => m
                           | _ => wrapLanguageModel sdk m mws
                           end) call.1.2 call.2 in
         executeTransformResult rc manager result) c2.
Proof.
  assert (Hmodel : call.1.1
                   = match shape with GenerateImage => m | _ => wrapLanguageModel sdk m mws end).
  { rewrite (prepare_resolved sdk rc shape manager _ params context m c1 Hresolve) in Hprepare.
    destruct (executeTransformParams rc manager params c1) as [[tp|e|] c3]; try discriminate.
    injection Hprepare as <- <-. simpl.
    unfold applyMiddlewares, wrapWithMiddlewares. rewrite Hmiddlewares.
    destruct mws as [|mw mws']; [done|].
    destruct Hshape as [-> | [-> | [-> Hstr]]]; simpl; [done | done |].
    by rewrite Hstr. }
  split; [exact Hmodel |].
  intros executor. rewrite (produceResult_prepared sdk _ _ _ _ _ _ _ _ _ Hprepare).
  by rewrite Hmodel.
Qed.

Lemma middlewares_wrap_resolved_model_witness :
  (GenerateText = GenerateText ∨ GenerateText = GenerateImage
   ∨ (GenerateText = StreamText ∧ isString (prop stringParams "model") = false))
  ∧ resolve (T:=unit) valueSdk (λ _, ret VNull) (PluginManager twoMiddlewarePlugins)
      "openai" (prop stringParams "model") (freshContext stringParams)
    = (Ok gpt4, set_middlewares (Some [VStr "mw1"; VStr "mw2"]) (freshContext stringParams))
  ∧ middlewares (set_middlewares (Some [VStr "mw1"; VStr "mw2"]) (freshContext stringParams))
    = Some [VStr "mw1"; VStr "mw2"]
  ∧ [VStr "mw1"; VStr "mw2"] ≠ []
  ∧ prepare (T:=unit) valueSdk (λ _, ret VNull) GenerateText
      (PluginManager twoMiddlewarePlugins) "openai" stringParams (freshContext stringParams)
    = (Ok (wrapLanguageModel valueSdk gpt4 [VStr "mw1"; VStr "mw2"], stringParams, []),
       set_middlewares (Some [VStr "mw1"; VStr "mw2"]) (freshContext stringParams))
  ∧ (wrapLanguageModel valueSdk gpt4 [VStr "mw1"; VStr "mw2"], stringParams, @nil unit).1.1
    = wrapLanguageModel valueSdk gpt4 [VStr "mw1"; VStr "mw2"].
Proof.
  assert (Hshape : GenerateText = GenerateText ∨ GenerateText = GenerateImage
                   ∨ (GenerateText = StreamText ∧ isString (prop stringParams "model") = false))
    by (left; reflexivity).
  assert (Hresolve : resolve (T:=unit) valueSdk (λ _, ret VNull)
                       (PluginManager twoMiddlewarePlugins)
                       "openai" (prop stringParams "model") (freshContext stringParams)
                     = (Ok gpt4, set_middlewares (Some [VStr "mw1"; VStr "mw2"])
                                   (freshContext stringParams)))
    by (vm_compute; reflexivity).
  assert (Hnonempty : [VStr "mw1"; VStr "mw2"] ≠ []) by discriminate.
  assert (Hprepare : prepare (T:=unit) valueSdk (λ _, ret VNull) GenerateText
                       (PluginManager twoMiddlewarePlugins) "openai" stringParams
                       (freshContext stringParams)
                     = (Ok (wrapLanguageModel valueSdk gpt4 [VStr "mw1"; VStr "mw2"],
                            stringParams, []),
                        set_middlewares (Some [VStr "mw1"; VStr "mw2"])
                          (freshContext stringParams)))
    by (vm_compute; reflexivity).
  repeat (split; [assumption || reflexivity |]).
  exact (proj1 (middlewares_wrap_resolved_model valueSdk _ _ _ _ _ _ _ _ _ _ _
                  Hshape Hresolve eq_refl Hnonempty Hprepare)).
Defined.

(** C7 as stated fails for image requests: the image lifecycle has no
    middleware step, so the executor receives the handle itself although the
    context holds a middleware. *)
Lemma image_model_not_wrapped :
  middlewares (snd (executeImageWithPlugins (T:=unit) 1 valueSdk "openai"
                      [middlewareWriter "writer" (VStr "mw")]
                      handleParams echoModelExecutor None "req-1" 0))
  = Some [VStr "mw"]
  ∧ fst (executeImageWithPlugins (T:=unit) 1 valueSdk "openai"
           [middlewareWriter "writer" (VStr "mw")]
           handleParams echoModelExecutor None "req-1" 0)
    = Ok gpt4
  ∧ gpt4 ≠ wrapLanguageModel valueSdk gpt4 [VStr "mw"].
Proof.
  split; [vm_compute; reflexivity | split; [vm_compute; reflexivity |]].
  intros H. apply (f_equal (λ v, getProp v "modelId")) in H. vm_compute in H. discriminate.
Qed.

(** The streaming entry point applies the middlewares only when the model
    parameter is not a string: with a string identifier the executor
    receives the resolved model as [resolveModel] returned it. *)
Lemma streaming_string_model_not_wrapped :
  fst (executeStreamWithPlugins (T:=unit) 1 valueSdk "openai"
         [middlewareWriter "writer" (VStr "mw"); resolver]
         stringParams (λ m _ _, ret m) None "req-1" 0)
  = Ok gpt4
  ∧ fst (executeStreamWithPlugins (T:=unit) 1 valueSdk "openai"
           [middlewareWriter "writer" (VStr "mw")]
           handleParams (λ m _ _, ret m) None "req-1" 0)
    = Ok (wrapLanguageModel valueSdk gpt4 [VStr "mw"])
  ∧ fst (executeWithPlugins (T:=unit) 1 valueSdk "openai"
           [middlewareWriter "writer" (VStr "mw"); resolver]
           stringParams echoModelExecutor None "req-1" 0)
    = Ok (wrapLanguageModel valueSdk gpt4 [VStr "mw"]).
Proof. repeat split; vm_compute; reflexivity. Qed.

Section ErrorPath.
Context {R T : Type} (sdk : Sdk R).
Implicit Types (rc : RecursiveCall (R:=R)) (plugins manager : list (AiPlugin R T))
  (p : AiPlugin R T).

Lemma omap_cons {A B} (f : A → option B) (x : A) (l : list A) :
  omap f (x :: l) = match f x with Some y => y :: omap f l | None => omap f l end.
Proof. reflexivity. Qed.

(** The calls that [executeParallel] makes for [onError]. *)
Lemma onError_calls rc plugins e :
  isUndefinedError e = false →
  omap (parallelCall sdk rc OnError None (Some e)) plugins
  = omap (λ p, (λ hook, hook rc e) <$> onError p) plugins.
Proof.
  intros He. induction plugins as [|p rest IH]; [done|].
  rewrite !omap_cons, IH. unfold parallelCall.
  destruct (onError p); simpl; by rewrite ?He.
Qed.

Lemma onRequestEnd_calls_stripped rc plugins result error :
  omap (parallelCall sdk rc OnRequestEnd result error) (withoutRequestEnd <$> plugins) = [].
Proof. induction plugins as [|p rest IH]; [done|]. by rewrite fmap_cons, omap_cons, IH. Qed.

Lemma other_calls_stripped rc plugins hookName result error :
  hookName ≠ OnRequestEnd →
  omap (parallelCall sdk rc hookName result error) (withoutRequestEnd <$> plugins)
  = omap (parallelCall sdk rc hookName result error) plugins.
Proof.
  intros Hh. induction plugins as [|p rest IH]; [done|].
  rewrite fmap_cons, !omap_cons, IH. by destruct hookName.
Qed.

Lemma sortPlugins_stripped plugins :
  sortPlugins (withoutRequestEnd <$> plugins) = withoutRequestEnd <$> sortPlugins plugins.
Proof.
  unfold sortPlugins. rewrite !fmap_app. repeat f_equal.
  all: induction plugins as [|p rest IH]; [done|]; rewrite fmap_cons, !filter_cons, IH.
  - change (isPre (withoutRequestEnd p)) with (isPre p). by destruct (decide _).
  - change (isNormal (withoutRequestEnd p)) with (isNormal p). by destruct (decide _).
  - change (isPost (withoutRequestEnd p)) with (isPost p). by destruct (decide _).
Qed.

Lemma executeConfigureContext_stripped rc plugins c :
  executeConfigureContext rc (withoutRequestEnd <$> plugins) c
  = executeConfigureContext rc plugins c.
Proof.
  revert c; induction plugins as [|p rest IH]; intros c; [done|]. simpl.
  destruct (configureContext p) as [hook|]; [|apply IH].
  unfold bind. destruct (hook rc c) as [[[]|e|] c1]; [apply IH | done | done].
Qed.

Lemma executeFirst_stripped rc hookName plugins arg c :
  executeFirst rc hookName (withoutRequestEnd <$> plugins) arg c
  = executeFirst rc hookName plugins arg c.
Proof.
  revert c; induction plugins as [|p rest IH]; intros c; [done|]. simpl.
  change (firstHook hookName (withoutRequestEnd p)) with (firstHook hookName p).
  destruct (firstHook hookName p) as [hook|]; [|apply IH].
  unfold bind. destruct (hook rc arg c) as [[v|e|] c1]; [| done | done].
  destruct (isNullish v); [apply IH | done].
Qed.

Lemma executeTransformParams_stripped rc plugins params c :
  executeTransformParams rc (withoutRequestEnd <$> plugins) params c
  = executeTransformParams rc plugins params c.
Proof.
  revert params c; induction plugins as [|p rest IH]; intros params c; [done|]. simpl.
  destruct (transformParams p) as [hook|]; [|apply IH].
  unfold bind. destruct (hook rc params c) as [[v|e|] c1]; [apply IH | done | done].
Qed.

Lemma executeTransformResult_stripped rc plugins result c :
  executeTransformResult rc (withoutRequestEnd <$> plugins) result c
  = executeTransformResult rc plugins result c.
Proof.
  revert result c; induction plugins as [|p rest IH]; intros result c; [done|]. simpl.
  destruct (transformResult p) as [hook|]; [|apply IH].
  unfold bind. destruct (hook rc result c) as [[v|e|] c1]; [apply IH | done | done].
Qed.

Lemma collectStreamTransforms_stripped rc plugins params c :
  collectStreamTransforms rc (withoutRequestEnd <$> plugins) params c
  = collectStreamTransforms rc plugins params c.
Proof.
  unfold collectStreamTransforms. induction plugins as [|p rest IH]; [done|].
  by rewrite fmap_cons, !omap_cons, IH.
Qed.

Lemma resolve_stripped rc plugins pid model c :
  resolve sdk rc (withoutRequestEnd <$> plugins) pid model c
  = resolve sdk rc plugins pid model c.
Proof.
  unfold resolve, executeParallel, bind.
  rewrite executeConfigureContext_stripped.
  destruct (executeConfigureContext rc plugins c) as [[[]|e|] c1]; [| done | done].
  rewrite other_calls_stripped by done.
  destruct (callAll _ c1) as [[promises|e|] c2]; [| done | done].
  destruct (awaitAll promises c2) as [[[]|e|] c3]; [| done | done].
  destruct model; try done. by rewrite executeFirst_stripped.
Qed.

Lemma prepare_stripped rc shape plugins pid params c :
  prepare sdk rc shape (withoutRequestEnd <$> plugins) pid params c
  = prepare sdk rc shape plugins pid params c.
Proof.
  unfold prepare, bind. rewrite resolve_stripped.
  destruct (resolve sdk rc plugins pid (prop params "model") c) as [[m|e|] c1];
    [| done | done].
  unfold getContext. rewrite executeTransformParams_stripped.
  destruct (executeTransformParams rc plugins params c1) as [[tp|e|] c2]; [| done | done].
  by rewrite collectStreamTransforms_stripped.
Qed.

Lemma produceResult_stripped rc shape plugins pid executor params c :
  produceResult sdk rc shape (withoutRequestEnd <$> plugins) pid executor params c
  = produceResult sdk rc shape plugins pid executor params c.
Proof.
  unfold produceResult, bind. rewrite prepare_stripped.
  destruct (prepare sdk rc shape plugins pid params c) as [[[[m tp] ts]|e|] c1];
    [| done | done].
  destruct (executor m tp ts c1) as [[r|e|] c2]; [| done | done].
  apply executeTransformResult_stripped.
Qed.

Lemma tryBlock_throws_early rc shape manager pid executor params c e c1 :
  produceResult sdk rc shape manager pid executor params c = (Throw e, c1) →
  tryBlock sdk rc shape manager pid executor params c = (Throw e, c1).
Proof. intros H. unfold tryBlock, bind at 1. by rewrite H. Qed.

Lemma catchBlock_stripped rc plugins e c :
  catchBlock sdk rc (withoutRequestEnd <$> plugins) e c = catchBlock sdk rc plugins e c.
Proof.
  unfold catchBlock, executeParallel. by rewrite other_calls_stripped.
Qed.

End ErrorPath.

Lemma firstRejection_earliest (promises : list promise) e after :
  firstRejection promises = Some (e, after) →
  Rejected e after ∈ promises
  ∧ Forall (λ p, ∀ e' after', p = Rejected e' after' → (after ≤ after')%nat) promises.
Proof.
  revert e after. induction promises as [|p rest IH]; intros e after; [done|].
  destruct p as [|e0 after0]; cbn [firstRejection].
  - intros [Hin Hall]%IH. split; [by right|]. constructor; [done|exact Hall].
  - destruct (firstRejection rest) as [[e1 after1]|] eqn:Hrest.
    + destruct (IH e1 after1 eq_refl) as [Hin Hall].
      destruct (after1 <? after0)%nat eqn:Hlt; intros [= <- <-].
      * apply Nat.ltb_lt in Hlt. split; [by right|].
        constructor; [intros ? ? [= <- <-]; lia | exact Hall].
      * apply Nat.ltb_ge in Hlt. split; [by left|].
        constructor; [by intros ? ? [= <- <-]|].
        eapply Forall_impl; [exact Hall|]. intros p Hp e' after' Heq.
        specialize (Hp e' after' Heq). lia.
    + intros [= <- <-]. split; [by left|].
      constructor; [by intros ? ? [= <- <-]|].
      clear IH. induction rest as [|q rest IH]; [done|].
      destruct q as [|e2 after2]; cbn [firstRejection] in Hrest.
      * constructor; [done | by apply IH].
      * by destruct (firstRejection rest) as [[? ?]|]; [destruct (_ <? _)%nat|].
Qed.

Lemma callAll_throwing (calls rest : list (M promise)) (call : M promise)
    promises c1 c2 e c3 :
  callAll calls c1 = (Ok promises, c2) → call c2 = (Throw e, c3) →
  callAll (calls ++ call :: rest) c1 = (Throw e, c3).
Proof.
  revert promises c1. induction calls as [|first calls IH]; intros promises c1.
  - intros [= <- <-] Hcall. cbn [app callAll]. unfold bind. by rewrite Hcall.
  - cbn [app callAll]. unfold bind at 1 3.
    destruct (first c1) as [[returned|e0|] c] eqn:Hfirst; [| done | done].
    unfold bind at 1 2.
    destruct (callAll calls c) as [[others|e0|] c'] eqn:Hcalls; [| done | done].
    intros [= <- <-] Hcall. by rewrite (IH _ _ Hcalls Hcall).
Qed.

(** C9 (as amended).  When a step inside the [try] block of a lifecycle
    invocation throws a defined error value [e], the engine calls the
    [onError] hooks of the plugins with [e], one after the other in the
    order of the manager's list, and no other hook.  If every call returns
    and none of the promises is rejected, the invocation throws [e] itself.
    If every call returns and a promise is rejected, the invocation throws
    the rejection that comes first in time instead.  If a call throws, the
    hooks after it are not called and the invocation throws what that call
    threw.  No [onRequestEnd] hook is called after the failure, and when
    the failing step precedes [onRequestEnd] the invocation behaves as if
    the plugins had no [onRequestEnd] hooks at all. *)
Theorem onError_runs_then_rethrows {R T : Type} (sdk : Sdk R)
    (reenter : object → M R) (shape : CallShape) (engineProviderId : string)
    (basePlugins : list (AiPlugin R T)) (executor : value → object → list T → M R)
    (params : object) (context : AiRequestContext)
    (e : error) (c1 : AiRequestContext)
    (Hmodel : isNullish (prop params "model") = false)
    (Hthrows : tryBlock sdk (callRecursive sdk reenter) shape (PluginManager basePlugins)
                 engineProviderId executor params
                 (set_recursiveCall (EngineClosure params) context)
               = (Throw e, c1))
    (Hdefined : isUndefinedError e = false) :
  let rc := callRecursive sdk reenter in
  let handlers := omap (λ p, (λ hook, hook rc e) <$> onError p) (PluginManager basePlugins) in
  let invocation :=
    lifecycleBody sdk reenter shape engineProviderId basePlugins executor params context in
  invocation = (let* promises := callAll handlers in
                let* _ := awaitAll promises in throw e) c1
  ∧ (∀ promises c2,
       callAll handlers c1 = (Ok promises, c2) → firstRejection promises = None →
       invocation = (Throw e, c2))
  ∧ (∀ promises c2 e' after,
       callAll handlers c1 = (Ok promises, c2) →
       firstRejection promises = Some (e', after) →
       invocation = (Throw e', c2)
       ∧ Rejected e' after ∈ promises
       ∧ Forall (λ p, ∀ e'' after', p = Rejected e'' after' → (after ≤ after')%nat) promises)
  ∧ (∀ called hook later promises c2 e' c3,
       handlers = called ++ hook :: later →
       callAll called c1 = (Ok promises, c2) → hook c2 = (Throw e', c3) →
       invocation = (Throw e', c3))
  ∧ (produceResult sdk rc shape (PluginManager basePlugins) engineProviderId executor params
       (set_recursiveCall (EngineClosure params) context) = (Throw e, c1) →
     lifecycleBody sdk reenter shape engineProviderId (withoutRequestEnd <$> basePlugins)
       executor params context
     = invocation).
Proof.
  intros rc handlers invocation.
  assert (Hread : ∃ modelId, readModelId (prop params "model") = Ok modelId).
  { destruct (prop params "model"); try done; by eexists. }
  destruct Hread as [modelId Hread].
  assert (Hbody : invocation = (let* promises := callAll handlers in
                                let* _ := awaitAll promises in throw e) c1).
  { unfold invocation, lifecycleBody, tryCatch. rewrite Hread, Hthrows.
    unfold catchBlock, executeParallel, handlers. rewrite onError_calls by done.
    unfold bind. by destruct (callAll _ c1) as [[promises|e0|] c2]. }
  split; [exact Hbody | split; [| split; [| split]]].
  - intros promises c2 Hcalls Hnone. rewrite Hbody. unfold bind, awaitAll.
    by rewrite Hcalls, Hnone.
  - intros promises c2 e' after Hcalls Hfirst.
    split; [|by apply firstRejection_earliest].
    rewrite Hbody. unfold bind, awaitAll. by rewrite Hcalls, Hfirst.
  - intros called hook later promises c2 e' c3 Hsplit Hcalled Hhook.
    rewrite Hbody. unfold bind at 1.
    by rewrite Hsplit, (callAll_throwing _ _ _ _ _ _ _ _ Hcalled Hhook).
  - intros Hearly.
    unfold invocation, lifecycleBody, tryCatch, PluginManager in *. rewrite Hread.
    fold rc. rewrite sortPlugins_stripped.
    rewrite (tryBlock_throws_early sdk rc shape (withoutRequestEnd <$> sortPlugins basePlugins)
               engineProviderId executor params _ e c1)
      by (rewrite produceResult_stripped; exact Hearly).
    rewrite (tryBlock_throws_early sdk rc shape (sortPlugins basePlugins)
               engineProviderId executor params _ e c1) by exact Hearly.
    apply catchBlock_stripped.
Qed.

Lemma onError_runs_then_rethrows_witness :
  isNullish (prop handleParams "model") = false
  ∧ tryBlock (T:=unit) valueSdk (callRecursive valueSdk (λ _ c, (Diverge, c))) GenerateText
      (PluginManager [errorObserver]) "openai"
      (λ m p _, failingExecutor (VStr "boom") m p) handleParams
      (set_recursiveCall (EngineClosure handleParams) (freshContext handleParams))
    = (Throw (Thrown (VStr "boom")),
       set_recursiveCall (EngineClosure handleParams) (freshContext handleParams))
  ∧ isUndefinedError (Thrown (VStr "boom")) = false
  ∧ lifecycleBody (T:=unit) valueSdk (λ _ c, (Diverge, c)) GenerateText "openai"
      [errorObserver] (λ m p _, failingExecutor (VStr "boom") m p) handleParams
      (freshContext handleParams)
    = (Throw (Thrown (VStr "boom")),
       set_dynamic {[ "observed" := VBool true ]}
         (set_recursiveCall (EngineClosure handleParams) (freshContext handleParams))).
Proof.
  assert (Hthrows :
    tryBlock (T:=unit) valueSdk (callRecursive valueSdk (λ _ c, (Diverge, c))) GenerateText
      (PluginManager [errorObserver]) "openai"
      (λ m p _, failingExecutor (VStr "boom") m p) handleParams
      (set_recursiveCall (EngineClosure handleParams) (freshContext handleParams))
    = (Throw (Thrown (VStr "boom")),
       set_recursiveCall (EngineClosure handleParams) (freshContext handleParams)))
    by (vm_compute; reflexivity).
  assert (Hmodel : isNullish (prop handleParams "model") = false) by reflexivity.
  split; [exact Hmodel | split; [exact Hthrows | split; [reflexivity |]]].
  refine (proj1 (proj2 (onError_runs_then_rethrows valueSdk _ _ _ _ _ _ _ _ _
                          Hmodel Hthrows eq_refl)) [Fulfilled] _ _ _).
  - vm_compute. reflexivity.
  - reflexivity.
Defined.

(** Of two [onError] hooks whose promises are rejected both are called,
    and the caller receives the rejection that comes first in time,
    whichever hook comes first in the list. *)
Lemma rejected_onError_promises :
  dynamic (snd (executeWithPlugins (T:=unit) 1 valueSdk "openai"
                  [rejectingErrorHook "rejected" 0; errorObserver]
                  handleParams (failingExecutor (VStr "boom")) None "req-1" 0))
    !! "observed" = Some (VBool true)
  ∧ fst (executeWithPlugins (T:=unit) 1 valueSdk "openai"
           [rejectingErrorHook "slow" 2; rejectingErrorHook "fast" 1]
           handleParams (failingExecutor (VStr "boom")) None "req-1" 0)
    = Throw (Thrown (VStr "fast"))
  ∧ fst (executeWithPlugins (T:=unit) 1 valueSdk "openai"
           [rejectingErrorHook "first" 1; rejectingErrorHook "second" 1]
           handleParams (failingExecutor (VStr "boom")) None "req-1" 0)
    = Throw (Thrown (VStr "first")).
Proof. repeat split; vm_compute; reflexivity. Qed.

(** C9 as stated fails when an [onError] hook itself fails: the caller then
    receives the failure of the hook, not the error that was caught, and a
    hook that throws keeps the hooks registered after it from being called.
    (And a thrown [undefined] reaches no [onError] hook at all.) *)
Lemma onError_failure_replaces_error :
  fst (executeWithPlugins (T:=unit) 1 valueSdk "openai" [failingErrorHook]
         handleParams (failingExecutor (VStr "boom")) None "req-1" 0)
  = Throw (Thrown (VStr "handler failed"))
  ∧ Throw (A:=value) (Thrown (VStr "handler failed")) ≠ Throw (Thrown (VStr "boom"))
  ∧ dynamic (snd (executeWithPlugins (T:=unit) 1 valueSdk "openai" [errorObserver]
                    handleParams (failingExecutor (VStr "boom")) None "req-1" 0))
      !! "observed" = Some (VBool true)
  ∧ dynamic (snd (executeWithPlugins (T:=unit) 1 valueSdk "openai" [errorObserver]
                    handleParams (failingExecutor VUndefined) None "req-1" 0))
      !! "observed" = None
  ∧ dynamic (snd (executeWithPlugins (T:=unit) 1 valueSdk "openai"
                    [failingErrorHook; errorObserver]
                    handleParams (failingExecutor (VStr "boom")) None "req-1" 0))
      !! "observed" = None.
Proof. repeat split; try (vm_compute; reflexivity). discriminate. Qed.

End EngineFacts.

(** ** The prompt tool-use plugin *)

Module StreamFacts.
Import Engine Stream StreamExamples.

(** Induction on a lazily produced stream: a property holds of every
    stream if it holds of the closed stream and of a stage whenever it
    holds of every stream that the stage can continue with. *)
Lemma lstream_induction (P : lstream → Prop) :
  P Closed →
  (∀ run, (∀ c, match (run c).2 with Next s' => P s' | _ => True end) → P (Stage run)) →
  ∀ s, P s.
Proof.
  intros HC HS. fix IH 1. intros [|run]; [exact HC|].
  apply HS. intros c. destruct (run c) as [[values c1] [s'| |]]; simpl; auto.
Qed.

Lemma forward_spec values :
  forward values
  = (filter (λ ch, isStart ch = false) (beforeFinish values), existsb isFinish values).
Proof.
  induction values as [|ch rest IH]; [done|].
  destruct ch; simpl; rewrite ?IH; try done.
Qed.

Lemma forward_clean values :
  Forall (λ ch, isStart ch = false ∧ isFinish ch = false) (forward values).1.
Proof.
  induction values as [|ch rest IH]; [constructor|].
  destruct ch; simpl; try done; try constructor;
    destruct (forward rest); simpl in *; try (constructor; [done | exact IH]).
Qed.

(** Nothing that [pipeRecursiveStream] enqueues is a [start] or a [finish]. *)
Lemma pipeRecursiveStream_clean s :
  ∀ c, Forall (λ ch, isStart ch = false ∧ isFinish ch = false) (pipeRecursiveStream s c).1.1.
Proof.
  induction s as [|run IH] using lstream_induction; intros c; simpl; [constructor|].
  specialize (IH c). pose proof (forward_clean (run c).1.1) as Hf.
  destruct (run c) as [[values c1] p]; simpl in *.
  destruct (forward values) as [outs stop]; simpl in *.
  destruct stop; [done|].
  destruct p as [s'| |]; simpl; [|done|done].
  specialize (IH c1). destruct (pipeRecursiveStream s' c1) as [[more r] c2]; simpl in *.
  by apply Forall_app.
Qed.

(** A nested stream given as a list: its [start] events are dropped, and
    nothing from its first [finish] on is forwarded. *)
Lemma pipeRecursiveStream_ofList chunks c :
  pipeRecursiveStream (ofList chunks) c
  = (filter (λ ch, isStart ch = false) (beforeFinish chunks), Ok tt, c).
Proof.
  induction chunks as [|ch rest IH]; [done|].
  destruct ch; simpl; rewrite ?IH; try done.
Qed.

Section Plugin.
Context {X E : Type}.
Variable newTagExtractor : X.
Variable processText : X → string → list (string * bool) * X.
Variable executeTools :
  list ToolUseResult → object → AiRequestContext → list chunk * list E * AiRequestContext.
Variable formatToolResults : list E → string.
Variable config : PromptToolUseConfig.

Lemma promptTransformParams_recursive params context tools :
  isRecursiveCall context = true → enabled config = true →
  prop params "tools" = VObj tools →
  promptTransformParams config params context
  = (Ok (<["tools" := keptTools tools]> params),
     set_originalParams (<["tools" := keptTools tools]> params)
       (if isEmptyObject (promptTools tools) then context
        else set_mcpTools (Some (promptTools tools)) context)).
Proof.
  intros Hrec Hen Htools. unfold promptTransformParams. rewrite Htools, Hen. simpl.
  unfold bind, modifyContext, getContext, ret.
  destruct (isEmptyObject (promptTools tools)); simpl; by rewrite Hrec.
Qed.

Lemma promptTransformParams_passthrough params context :
  (enabled config = false ∨ ∀ tools, prop params "tools" ≠ VObj tools) →
  promptTransformParams config params context = (Ok params, context).
Proof.
  intros H. unfold promptTransformParams.
  destruct (prop params "tools") eqn:Ht; try done.
  destruct H as [-> | H]; [done|]. by destruct (H fields).
Qed.

Lemma promptTransformParams_recursive_system params context :
  isRecursiveCall context = true →
  ∃ p' c', promptTransformParams config params context = (Ok p', c')
           ∧ p' !! "system" = params !! "system"
           ∧ isRecursiveCall c' = true
           ∧ (originalParams c' = originalParams context ∧ p' = params
              ∨ originalParams c' = p').
Proof.
  intros Hrec.
  destruct (enabled config) eqn:Hen.
  - destruct (prop params "tools") eqn:Ht;
      try (exists params, context; split;
           [apply promptTransformParams_passthrough; right; intros t; congruence | auto]).
    eexists _, _. split; [by apply promptTransformParams_recursive|].
    split; [by rewrite lookup_insert_ne|]. split; [|by right].
    by destruct (isEmptyObject _).
  - exists params, context. split; [apply promptTransformParams_passthrough; by left | auto].
Qed.

End Plugin.

Lemma isProviderTool_spec (tool : value) :
  isProviderTool tool = true ↔ getProp tool "type" = VStr "provider".
Proof.
  unfold isProviderTool. destruct (getProp tool "type"); try (split; [done|congruence]).
  rewrite String.eqb_eq. split; congruence.
Qed.

Lemma providerDefinedTools_spec (tools : object) (name : string) (tool : value) :
  providerDefinedTools tools !! name = Some tool
  ↔ tools !! name = Some tool ∧ getProp tool "type" = VStr "provider".
Proof.
  unfold providerDefinedTools. rewrite map_lookup_filter_Some. cbn [snd].
  by rewrite isProviderTool_spec.
Qed.

Lemma promptTools_spec (tools : object) (name : string) (tool : value) :
  promptTools tools !! name = Some tool
  ↔ tools !! name = Some tool ∧ getProp tool "type" ≠ VStr "provider".
Proof.
  unfold promptTools. rewrite map_lookup_filter_Some. cbn [snd].
  rewrite <- isProviderTool_spec. destruct (isProviderTool tool); intuition congruence.
Qed.

(** What every call of the hook does with the context and with the
    [system] property. *)
Lemma promptTransformParams_system (config : PromptToolUseConfig) params context :
  ∃ p' c',
    promptTransformParams config params context = (Ok p', c')
    ∧ recursiveCall c' = recursiveCall context
    ∧ (p' = params ∧ originalParams c' = originalParams context
       ∨ originalParams c' = p')
    ∧ (p' !! "system" = None → params !! "system" = None)
    ∧ (isRecursiveCall context = true → p' !! "system" = params !! "system").
Proof.
  unfold promptTransformParams.
  destruct (prop params "tools") eqn:Ht;
    try (exists params, context; split; [done|]; split; [done|]; split; [by left|by split]).
  destruct (enabled config); cbn [negb];
    [|exists params, context; split; [done|]; split; [done|]; split; [by left|by split]].
  unfold bind, modifyContext, getContext, ret.
  set (c1 := if isEmptyObject (promptTools fields) then context
             else set_mcpTools (Some (promptTools fields)) context).
  assert (Hc1 : recursiveCall c1 = recursiveCall context
                ∧ isRecursiveCall c1 = isRecursiveCall context)
    by (unfold c1; by destruct (isEmptyObject _)).
  destruct Hc1 as [Hcall Hrec]. rewrite Hrec.
  destruct (isRecursiveCall context).
  - eexists _, _. split; [reflexivity|]. split; [exact Hcall|]. split; [by right|].
    rewrite lookup_insert_ne by done. by split.
  - eexists _, _. split; [reflexivity|]. split; [exact Hcall|]. split; [by right|].
    split; [|done]. rewrite lookup_insert_ne by done.
    destruct (String.eqb _ ""); [done|]. by rewrite lookup_insert_eq.
Qed.

(** Along the recursive calls of a tool loop the [system] property that
    reaches the provider stays that of [context.originalParams], as long as
    the captured parameters have no [system] property when the original
    ones have none. *)
Lemma recursiveChain_system (config : PromptToolUseConfig) context sent :
  recursiveChain config context sent →
  ∀ captured,
    recursiveCall context = EngineClosure captured →
    (originalParams context !! "system" = None → captured !! "system" = None) →
    Forall (λ p, p !! "system" = originalParams context !! "system") sent.
Proof.
  induction 1 as [context|context current captured0 textBuffer toolResultsText tools merged
                    transformed context' sent Horig Hcall Hcurrent Hmerged Hrun Hrest IH];
    intros captured Hcaptured Hnone; [constructor|].
  rewrite Hcall in Hcaptured. injection Hcaptured as <-.
  assert (Hsys : merged !! "system" = originalParams context !! "system").
  { rewrite Hmerged. unfold spread, buildRecursiveParams.
    rewrite lookup_union, !lookup_insert_ne by done. rewrite Horig.
    destruct (originalParams context !! "system") eqn:Ho; [by destruct (captured0 !! _)|].
    by rewrite (Hnone eq_refl). }
  destruct (promptTransformParams_system config merged
              (set_recursiveCall (EngineClosure merged)
                 (set_isRecursiveCall true
                    (set_recursiveDepth (recursiveDepth current + 1) current))))
    as (p' & c' & Hrun' & Hcall' & Horig' & _ & Hkeep).
  rewrite Hrun in Hrun'. injection Hrun' as <- <-.
  specialize (Hkeep eq_refl).
  assert (Hsent : spread merged transformed !! "system" = originalParams context !! "system").
  { unfold spread. rewrite lookup_union, Hkeep, Hsys.
    by destruct (originalParams context !! "system"). }
  assert (Hnext : originalParams context' !! "system" = originalParams context !! "system").
  { destruct Horig' as [[_ ->] | ->]; [|congruence]. cbn. by rewrite Horig. }
  constructor; [exact Hsent|].
  rewrite <- Hnext. apply (IH merged); [exact Hcall'|]. by rewrite Hnext, <- Hsys.
Qed.

(** C10.  When the context is marked as a recursive call, the
    [transformParams] hook of the prompt tool-use plugin returns parameters
    whose system prompt is that of its argument, whatever
    [buildSystemPrompt] is (it is not called).  If the plugin is enabled and
    the parameters carry a tool set, the tools are still separated: the
    returned [tools] hold exactly the tools of type [provider] (or are
    [undefined] if there is none), the tools of any other type are stored
    in [context.mcpTools] (which is left alone if there is none), and the
    returned parameters become [context.originalParams].  Across a whole
    tool loop the catalogue is therefore put into the system prompt once:
    after the first transformation of a request, every recursive call, as
    deep as the chain goes, hands the provider the system prompt that the
    first call handed it, which is the result of the one application of
    [buildSystemPrompt] to the user's prompt and the prompt-mode tools when
    that result is not empty. *)
Theorem recursive_call_keeps_system_prompt
    (config : PromptToolUseConfig) (params : object) (context : AiRequestContext)
    (Hrecursive : isRecursiveCall context = true) :
  (∃ p' c', promptTransformParams config params context = (Ok p', c')
            ∧ p' !! "system" = params !! "system")
  ∧ (∀ otherBuild,
       promptTransformParams
         (mkConfig (enabled config) otherBuild (parseToolUse config)) params context
       = promptTransformParams config params context)
  ∧ (∀ tools, enabled config = true → prop params "tools" = VObj tools →
       ∃ (kept others : object) c',
         (∀ name tool, kept !! name = Some tool
                       ↔ tools !! name = Some tool ∧ getProp tool "type" = VStr "provider")
         ∧ (∀ name tool, others !! name = Some tool
                         ↔ tools !! name = Some tool ∧ getProp tool "type" ≠ VStr "provider")
         ∧ promptTransformParams config params context
           = (Ok (<["tools" := if bool_decide (kept = ∅) then VUndefined else VObj kept]> params),
              c')
         ∧ mcpTools c' = (if bool_decide (others = ∅) then mcpTools context else Some others)
         ∧ originalParams c'
           = <["tools" := if bool_decide (kept = ∅) then VUndefined else VObj kept]> params)
  ∧ (∀ first firstContext transformed context1 sent,
       originalParams firstContext = first →
       promptTransformParams config first
         (set_recursiveCall (EngineClosure first) firstContext)
       = (Ok transformed, context1) →
       recursiveChain config context1 sent →
       Forall (λ p, p !! "system" = spread first transformed !! "system") sent
       ∧ (∀ tools, isRecursiveCall firstContext = false → enabled config = true →
            prop first "tools" = VObj tools →
            let userSystemPrompt :=
              match prop first "system" with VStr s => s | _ => "" end in
            let systemPrompt :=
              buildSystemPrompt config userSystemPrompt (promptTools tools) in
            systemPrompt ≠ "" →
            spread first transformed !! "system" = Some (VStr systemPrompt))).
Proof.
  split; [| split; [| split]].
  - destruct (promptTransformParams_recursive_system config params context Hrecursive)
      as (p' & c' & H & Hsys & _). eauto.
  - intros otherBuild. unfold promptTransformParams. simpl.
    destruct (prop params "tools"); try done.
    destruct (enabled config); simpl; [|done].
    unfold bind, modifyContext, getContext.
    destruct (isEmptyObject (promptTools fields)); simpl; by rewrite Hrecursive.
  - intros tools Hen Htools.
    exists (providerDefinedTools tools), (promptTools tools). eexists.
    split; [apply providerDefinedTools_spec|]. split; [apply promptTools_spec|].
    rewrite (promptTransformParams_recursive config params context tools Hrecursive Hen Htools).
    unfold keptTools, isEmptyObject.
    split; [reflexivity|]. split; [by destruct (bool_decide (promptTools tools = ∅))|done].
  - intros first firstContext transformed context1 sent Hfirst Hrun Hchain.
    destruct (promptTransformParams_system config first
                (set_recursiveCall (EngineClosure first) firstContext))
      as (p' & c' & Hrun' & Hcall & Horig & Hnone & _).
    rewrite Hrun in Hrun'. injection Hrun' as <- <-.
    assert (Hsame : originalParams context1 !! "system"
                    = spread first transformed !! "system").
    { unfold spread. rewrite lookup_union.
      destruct Horig as [[-> ->] | ->].
      - cbn. rewrite Hfirst. by destruct (first !! "system").
      - destruct (transformed !! "system") eqn:Ht; [by destruct (first !! _)|].
        by rewrite (Hnone eq_refl). }
    split.
    + rewrite <- Hsame.
      apply (recursiveChain_system config context1 sent Hchain first Hcall).
      destruct Horig as [[-> ->] | ->]; [|exact Hnone]. cbn. by rewrite Hfirst.
    + intros tools Hnot Hen Htools userSystemPrompt systemPrompt Hbuilt.
      revert Hrun. unfold promptTransformParams. rewrite Htools, Hen. cbn [negb].
      unfold bind, modifyContext, getContext, ret.
      assert (Hrec : isRecursiveCall
                (if isEmptyObject (promptTools tools)
                 then set_recursiveCall (EngineClosure first) firstContext
                 else set_mcpTools (Some (promptTools tools))
                        (set_recursiveCall (EngineClosure first) firstContext)) = false)
        by by destruct (isEmptyObject _).
      rewrite Hrec. fold userSystemPrompt. fold systemPrompt.
      apply String.eqb_neq in Hbuilt. rewrite Hbuilt.
      intros [= <- _]. unfold spread.
      apply lookup_union_Some_l. rewrite lookup_insert_ne by done.
      by rewrite lookup_insert_eq.
Qed.

Lemma recursive_call_keeps_system_prompt_witness :
  isRecursiveCall (set_isRecursiveCall true toolContext) = true
  ∧ (∃ p' c', promptTransformParams searchConfig searchRequest
                (set_isRecursiveCall true toolContext) = (Ok p', c')
              ∧ p' !! "system" = searchRequest !! "system")
  ∧ searchFirst = (Ok (returned searchFirst), searchFirst.2)
  ∧ recursiveChain searchConfig searchFirst.2 [spread searchMerged (returned searchSecond)]
  ∧ spread searchMerged (returned searchSecond) !! "system" = Some (VStr "TOOLS Be brief.").
Proof.
  split; [reflexivity |]. split.
  { exact (proj1 (recursive_call_keeps_system_prompt searchConfig searchRequest
                    (set_isRecursiveCall true toolContext) eq_refl)). }
  assert (Hfirst : searchFirst = (Ok (returned searchFirst), searchFirst.2))
    by (vm_compute; reflexivity).
  assert (Hsecond : searchSecond = (Ok (returned searchSecond), searchSecond.2))
    by (vm_compute; reflexivity).
  assert (Hchain : recursiveChain searchConfig searchFirst.2
                     [spread searchMerged (returned searchSecond)]).
  { eapply (chain_call searchConfig searchFirst.2 searchFirst.2 searchRequest searchBlock
              "result" searchTools searchMerged (returned searchSecond) searchSecond.2);
      [reflexivity | vm_compute; reflexivity | vm_compute; reflexivity | reflexivity
      | exact Hsecond | apply chain_end]. }
  split; [exact Hfirst | split; [exact Hchain |]].
  pose proof (proj1 (proj2 (proj2 (proj2 (recursive_call_keeps_system_prompt searchConfig
                searchRequest (set_isRecursiveCall true toolContext) eq_refl)))
              searchRequest (Examples.freshContext searchRequest) (returned searchFirst)
              searchFirst.2 _ eq_refl Hfirst Hchain)) as Hall.
  apply Forall_cons_1 in Hall as [Hsent _]. rewrite Hsent. vm_compute. reflexivity.
Defined.

(** C2.  On a finish-step event, when prompt-mode tools exist, no tools
    were executed yet in this step, and parsing the accumulated text yields
    the non-empty list [valid] of pending tool uses: the tools are executed
    on the context in which [hasExecutedToolsInCurrentStep] is set (and
    their events are enqueued first); then a finish-step event with
    [finishReason = "tool-calls"] is enqueued and the usage of the step is
    accumulated; then the flag is cleared and [context.recursiveCall] is
    called with the parameters of [buildRecursiveParams]; if it returns a
    result with a stream, that stream is piped after the finish-step event,
    and if it throws, the transform throws after the finish-step event.
    What is piped contains no [start] and no [finish]: for a nested stream
    given as a list, it is the chunks that precede the first [finish],
    without the [start] events. *)
Theorem finish_step_runs_tools_then_recurses {X E : Type}
    (processText : X → string → list (string * bool) * X)
    (executeTools : list ToolUseResult → object → AiRequestContext
                    → list chunk * list E * AiRequestContext)
    (formatToolResults : list E → string) (config : PromptToolUseConfig)
    (rc : RecursiveCall (R:=StreamTextResult)) (st : TransformState)
    (context : AiRequestContext)
    (finishReason : string) (usage : option Usage.usage) (response providerMetadata : value)
    (rest : object) (tools : object) (valid : list ToolUseResult)
    (Htools : mcpTools context = Some tools)
    (Hexist : tools ≠ ∅)
    (Hnotyet : hasExecutedToolsInCurrentStep context = false)
    (Hparsed : filter (λ t, isPending t = true)
                 (parseToolUse config (textBuffer st) tools).1 = valid)
    (Hpending : valid ≠ []) :
  let marked := set_hasExecutedToolsInCurrentStep true context in
  let toolEvents := (executeTools valid tools marked).1.1 in
  let executed := (executeTools valid tools marked).1.2 in
  let c1 := (executeTools valid tools marked).2 in
  let stepEvent := FinishStep "tool-calls" usage response providerMetadata ∅ in
  let c2 := accumulateStepUsage usage c1 in
  let recursiveParams :=
    buildRecursiveParams c2 (textBuffer st) (formatToolResults executed) tools in
  let call := rc recursiveParams (set_hasExecutedToolsInCurrentStep false c2) in
  hasExecutedToolsInCurrentStep marked = true
  ∧ transform processText executeTools formatToolResults config rc st
      (FinishStep finishReason usage response providerMetadata rest) context
    = match call with
      | (Ok recursiveResult, c3) =>
          match fullStream recursiveResult with
          | Some s =>
              let '(piped, r, c4) := pipeRecursiveStream s c3 in
              (toolEvents ++ [stepEvent] ++ piped,
               match r with Ok _ => Ok st | Throw e => Throw e | Diverge => Diverge end, c4)
          | None => (toolEvents ++ [stepEvent] ++ [], Ok st, c3)
          end
      | (Throw e, c3) => (toolEvents ++ [stepEvent] ++ [], Throw e, c3)
      | (Diverge, c3) => (toolEvents ++ [stepEvent] ++ [], Diverge, c3)
      end
  ∧ (∀ s c, Forall (λ ch, isStart ch = false ∧ isFinish ch = false)
              (pipeRecursiveStream s c).1.1)
  ∧ (∀ chunks c, pipeRecursiveStream (ofList chunks) c
                 = (filter (λ ch, isStart ch = false) (beforeFinish chunks), Ok tt, c)).
Proof.
  intros marked toolEvents executed c1 stepEvent c2 recursiveParams call.
  split; [reflexivity | split; [| split]].
  - assert (Hvalid : validToolUses config st context = Some (tools, valid)).
    { unfold validToolUses. rewrite Htools, Hnotyet.
      unfold isEmptyObject. rewrite bool_decide_eq_false_2 by done. simpl.
      rewrite Hparsed. by destruct valid. }
    unfold transform. rewrite Hvalid.
    subst toolEvents executed c1 call recursiveParams c2 stepEvent marked.
    destruct (executeTools valid tools (set_hasExecutedToolsInCurrentStep true context))
      as [[evs ex] c1']. cbn [fst snd sendStepFinishEvent].
    unfold handleRecursiveCall.
    destruct (rc _ _) as [[res|e|] c3]; [| done | done].
    destruct (fullStream res) as [s|]; [| done].
    by destruct (pipeRecursiveStream s c3) as [[piped r] c4].
  - intros s c. apply pipeRecursiveStream_clean.
  - apply pipeRecursiveStream_ofList.
Qed.

Lemma finish_step_runs_tools_then_recurses_witness :
  mcpTools toolContext = Some searchTools
  ∧ searchTools ≠ ∅
  ∧ hasExecutedToolsInCurrentStep toolContext = false
  ∧ filter (λ t, isPending t = true) (parseToolUse searchConfig searchBlock searchTools).1
    = [mkToolUse "search-0" "search" (VObj ∅) "pending"]
  ∧ [mkToolUse "search-0" "search" (VObj ∅) "pending"] ≠ []
  ∧ hasExecutedToolsInCurrentStep (set_hasExecutedToolsInCurrentStep true toolContext) = true.
Proof.
  assert (Hexist : searchTools ≠ ∅).
  { intros H. apply (f_equal (λ o : object, o !! "search")) in H. vm_compute in H.
    discriminate. }
  assert (Hparsed : filter (λ t, isPending t = true)
                      (parseToolUse searchConfig searchBlock searchTools).1
                    = [mkToolUse "search-0" "search" (VObj ∅) "pending"])
    by (vm_compute; reflexivity).
  assert (Hpending : [mkToolUse "search-0" "search" (VObj ∅) "pending"] ≠ [])
    by discriminate.
  repeat (split; [assumption || reflexivity |]).
  exact (proj1 (finish_step_runs_tools_then_recurses toolUseProcessText echoTools joinResults
                  searchConfig (λ _ c, (Diverge, c))
                  (mkTransformState searchBlock None false toolUseExtractor) toolContext
                  "stop" None VUndefined VUndefined ∅ searchTools _
                  eq_refl Hexist eq_refl Hparsed Hpending)).
Defined.

(** The outcome of the transform on the two-step stream [twoSteps]: the
    text-end of the second step is forwarded although the text-start of
    that step is still held ([hasStartedText] is cleared only by [flush],
    not at the end of a step).  This is the behaviour that claim C6
    excludes. *)
Lemma second_step_text_end_without_text_start :
  (transformAll toolUseProcessText echoTools joinResults searchConfig (λ _ c, (Diverge, c))
     (newTransformState toolUseExtractor) twoSteps toolContext).1
  = ([ TextStart "t1"; TextDelta "t1" "Hi"; TextEnd "t1";
       FinishStep "stop" None VUndefined VUndefined ∅;
       TextEnd "t2" ],
     Ok (mkTransformState "<tool_use>y</tool_use>" (Some (TextStart "t2")) true
           (TagExtractor.mkState [] false true))).
Proof. vm_compute. reflexivity. Qed.

(** *** Usage across recursive steps *)

Lemma stepUsages_cons ch rest :
  stepUsages (ch :: rest)
  = match ch with
    | FinishStep _ (Some u) _ _ _ => u :: stepUsages rest
    | _ => stepUsages rest
    end.
Proof. by destruct ch as [| | | |? [u|]| |]. Qed.

Lemma stepUsages_app a b : stepUsages (a ++ b) = stepUsages a ++ stepUsages b.
Proof.
  induction a as [|ch a IH]; [done|].
  rewrite <- app_comm_cons, !stepUsages_cons, IH. by destruct ch as [| | | |? [u|]| |].
Qed.

Lemma forward_fst_cons ch rest :
  isStart ch = false → isFinish ch = false →
  (forward (ch :: rest)).1 = ch :: (forward rest).1.
Proof. destruct ch; try done; intros _ _; simpl; by destruct (forward rest). Qed.

Lemma accumulated_app u a b : accumulated u (a ++ b) = accumulated (accumulated u a) b.
Proof. unfold accumulated. by rewrite stepUsages_app, foldl_app. Qed.

Lemma accumulated_no_steps u chunks : stepUsages chunks = [] → accumulated u chunks = u.
Proof. unfold accumulated. by intros ->. Qed.

Lemma accumulated_language u chunks :
  Usage.isLanguageModelUsage u = true →
  Usage.isLanguageModelUsage (accumulated u chunks) = true.
Proof.
  unfold accumulated. generalize (stepUsages chunks) as us. intros us. revert u.
  induction us as [|s us IH]; intros u Hu; simpl; [done|]. by apply IH.
Qed.

Lemma accumulated_same_steps u a b : stepUsages a = stepUsages b → accumulated u a = accumulated u b.
Proof. unfold accumulated. by intros ->. Qed.

Lemma ready_accumulated c u chunks :
  ready c u → stepUsages chunks = [] → ready c (accumulated u chunks).
Proof. intros H Hs. by rewrite accumulated_no_steps. Qed.

(** What [forward] leaves out carries no usage, unless a finish-step event
    follows a finish event. *)
Lemma forward_steps_no_finish values :
  existsb isFinish values = false → stepUsages (forward values).1 = stepUsages values.
Proof.
  induction values as [|ch rest IH]; [done|]. cbn [existsb].
  destruct (isFinish ch) eqn:Hfin; [discriminate|]. cbn [orb]. intros H. specialize (IH H).
  destruct (isStart ch) eqn:Hst.
  - destruct ch; try discriminate. cbn [forward]. by rewrite IH.
  - rewrite forward_fst_cons, !stepUsages_cons by done. by rewrite IH.
Qed.

Lemma forward_steps_none values :
  stepUsages values = [] → stepUsages (forward values).1 = [].
Proof.
  induction values as [|ch rest IH]; [done|].
  rewrite stepUsages_cons.
  destruct (isFinish ch) eqn:Hfin; [by destruct ch|].
  destruct (isStart ch) eqn:Hst.
  - destruct ch; try discriminate. cbn [forward]. exact IH.
  - rewrite forward_fst_cons, stepUsages_cons by done.
    destruct ch as [| | | |? [u|]| |]; try done; exact IH.
Qed.

Lemma others_no_steps evs : Forall isOther evs → stepUsages evs = [] ∧ existsb isFinish evs = false
                                              ∧ Forall reportsAccumulator evs.
Proof.
  induction 1 as [|ch evs Hch _ (IH1 & IH2 & IH3)]; [done|].
  destruct ch; try done. rewrite stepUsages_cons. simpl.
  repeat split; try done. by constructor.
Qed.

Lemma clean_no_finish outs :
  Forall (λ ch, isStart ch = false ∧ isFinish ch = false) outs →
  existsb isFinish outs = false ∧ Forall reportsAccumulator outs.
Proof.
  induction 1 as [|ch outs [_ Hch] _ [IH1 IH2]]; [done|]. simpl. rewrite Hch, IH1.
  split; [done|]. constructor; [by destruct ch | done].
Qed.

Lemma existsb_isFinish_app a b :
  existsb isFinish (a ++ b) = existsb isFinish a || existsb isFinish b.
Proof. apply existsb_app. Qed.

(** Piping a stream that keeps the accounts keeps the accounts. *)
Lemma pipe_accounted s :
  accounted s → ∀ c u, ready c u →
  ready (pipeRecursiveStream s c).2 (accumulated u (pipeRecursiveStream s c).1.1).
Proof.
  induction s as [|run IH] using lstream_induction; intros Hs c u Hc; [done|].
  simpl in *. specialize (Hs c u Hc). specialize (IH c).
  destruct (run c) as [[values c1] p]. destruct Hs as (Hc1 & _ & Hfw & Hnext).
  destruct (forward values) as [outs stop] eqn:Hf. simpl in *.
  rewrite <- (accumulated_same_steps u _ _ Hfw) in Hc1.
  destruct stop; [done|].
  destruct p as [s'| |]; simpl in *; [| done | done].
  specialize (IH Hnext c1 _ Hc1).
  destruct (pipeRecursiveStream s' c1) as [[more r] c2]. simpl in *.
  by rewrite accumulated_app.
Qed.

Lemma readAll_accounted s :
  accounted s → ∀ c u, ready c u →
  ready (readAll s c).2 (accumulated u (readAll s c).1.1)
  ∧ Forall reportsAccumulator (readAll s c).1.1.
Proof.
  induction s as [|run IH] using lstream_induction; intros Hs c u Hc; [by split|].
  simpl in *. specialize (Hs c u Hc). specialize (IH c).
  destruct (run c) as [[values c1] p]. destruct Hs as (Hc1 & Hrep & _ & Hnext).
  destruct p as [s'| |]; simpl in *; [| done | done].
  specialize (IH Hnext c1 _ Hc1).
  destruct (readAll s' c1) as [[more r] c2]. simpl in *.
  rewrite accumulated_app. split; [tauto|]. apply Forall_app. tauto.
Qed.

Lemma ready_set_executed b c u :
  ready c u → ready (set_hasExecutedToolsInCurrentStep b c) u.
Proof. done. Qed.

Lemma ready_step usage c u finishReason response providerMetadata rest :
  ready c u →
  languageStep (FinishStep finishReason usage response providerMetadata rest) →
  ready (accumulateStepUsage usage c)
    (accumulated u [FinishStep finishReason usage response providerMetadata rest]).
Proof.
  intros (Htools & Hacc & Hlang) Hstep. unfold accumulateStepUsage, accumulated.
  destruct usage as [s|]; [|done].
  rewrite Hacc, (UsageFacts.acc_language u s Hlang Hstep).
  by repeat split.
Qed.

Local Ltac four := split; [|split; [|split]].

Section Conversation.
Context {X E : Type}.
Variable newTagExtractor : X.
Variable processText : X → string → list (string * bool) * X.
Variable executeTools :
  list ToolUseResult → object → AiRequestContext → list chunk * list E * AiRequestContext.
Variable formatToolResults : list E → string.
Variable config : PromptToolUseConfig.
Hypothesis Hquiet : quietTools executeTools.

Lemma forwardText_quiet tid results pending started :
  match pending with Some (TextStart _) | None => True | Some _ => False end →
  stepUsages (forwardText tid results pending started).1.1 = []
  ∧ existsb isFinish (forwardText tid results pending started).1.1 = false
  ∧ Forall reportsAccumulator (forwardText tid results pending started).1.1
  ∧ match (forwardText tid results pending started).1.2 with
    | Some (TextStart _) | None => True
    | Some _ => False
    end.
Proof.
  revert pending started; induction results as [|[content isTag] rest IH];
    intros pending started Hp; simpl; [by repeat split|].
  destruct (negb isTag && negb (String.eqb content "")); [|by apply IH].
  assert (Hrest : ∀ held pending' started',
             match pending' with Some (TextStart _) | None => True | Some _ => False end →
             stepUsages held = [] → existsb isFinish held = false →
             Forall reportsAccumulator held →
             let '(outs, p, s) := forwardText tid rest pending' started' in
             stepUsages (held ++ TextDelta tid content :: outs) = []
             ∧ existsb isFinish (held ++ TextDelta tid content :: outs) = false
             ∧ Forall reportsAccumulator (held ++ TextDelta tid content :: outs)
             ∧ match p with Some (TextStart _) | None => True | Some _ => False end).
  { intros held pending' started' Hp' Hh1 Hh2 Hh3.
    specialize (IH pending' started' Hp').
    destruct (forwardText tid rest pending' started') as [[outs p] s].
    simpl in IH. destruct IH as (H1 & H2 & H3 & H4).
    rewrite stepUsages_app, Hh1, stepUsages_cons, existsb_isFinish_app, Hh2.
    repeat split; try done. apply Forall_app. split; [done|]. by constructor. }
  destruct started.
  - specialize (Hrest [] pending true Hp eq_refl eq_refl (Forall_nil_2 _)).
    by destruct (forwardText tid rest pending true) as [[outs p] s].
  - destruct pending as [held|].
    + destruct held as [|sid| | | | |]; try done.
      specialize (Hrest [TextStart sid] None true I eq_refl eq_refl).
      destruct (forwardText tid rest None true) as [[outs p] s].
      apply Hrest. by repeat constructor.
    + specialize (Hrest [] None false I eq_refl eq_refl (Forall_nil_2 _)).
      by destruct (forwardText tid rest None false) as [[outs p] s].
Qed.

Lemma transform_accounted rc st ch c u :
  accountedCall rc → heldTextStart st → languageStep ch → ready c u →
  ready (transform processText executeTools formatToolResults config rc st ch c).2
    (accumulated u (transform processText executeTools formatToolResults config rc st ch c).1.1)
  ∧ Forall reportsAccumulator
      (transform processText executeTools formatToolResults config rc st ch c).1.1
  ∧ stepUsages
      (forward (transform processText executeTools formatToolResults config rc st ch c).1.1).1
    = stepUsages (transform processText executeTools formatToolResults config rc st ch c).1.1
  ∧ match (transform processText executeTools formatToolResults config rc st ch c).1.2 with
    | Ok st' => heldTextStart st'
    | _ => True
    end.
Proof using Hquiet.
  intros Hrc Hst Hch Hc.
  destruct ch as [|tid|tid delta|tid|finishReason usage response providerMetadata more
                 |finishReason total more|kind payload]; simpl.
  - four; try done. by repeat constructor.
  - by four.
  - destruct (processText (tagExtractor st) delta) as [results extractor].
    pose proof (forwardText_quiet tid results (pendingTextStart st) (hasStartedText st) Hst)
      as (H1 & H2 & H3 & H4).
    destruct (forwardText tid results (pendingTextStart st) (hasStartedText st))
      as [[outs pending] started]. simpl in *.
    four; try done.
    + by apply ready_accumulated.
    + by apply forward_steps_no_finish.
  - destruct (hasStartedText st); simpl; four; try done. by repeat constructor.
  - destruct (validToolUses config st c) as [[tools valid]|] eqn:Hvalid.
    + destruct (Hquiet valid tools (set_hasExecutedToolsInCurrentStep true c))
        as (Ha & Hm & Hevs).
      destruct (executeTools valid tools (set_hasExecutedToolsInCurrentStep true c))
        as [[evs executed] c1]. simpl in Ha, Hm, Hevs.
      apply others_no_steps in Hevs as (Hevs1 & Hevs2 & Hevs3).
      assert (Hc1 : ready c1 u).
      { destruct Hc as (? & ? & ?). split; [|split]; try done; congruence. }
      pose proof (ready_step usage c1 u "tool-calls" response providerMetadata ∅ Hc1 Hch)
        as Hc2.
      unfold sendStepFinishEvent, handleRecursiveCall.
      set (c2 := accumulateStepUsage usage c1) in *.
      set (stepEvent := FinishStep "tool-calls" usage response providerMetadata ∅) in *.
      specialize (Hrc (buildRecursiveParams c2 (textBuffer st) (formatToolResults executed) tools)
                    (set_hasExecutedToolsInCurrentStep false c2) _
                    (ready_set_executed false _ _ Hc2)).
      assert (Hprefix : ∀ piped,
                 existsb isFinish piped = false → Forall reportsAccumulator piped →
                 Forall reportsAccumulator (evs ++ [stepEvent] ++ piped)
                 ∧ stepUsages (forward (evs ++ [stepEvent] ++ piped)).1
                   = stepUsages (evs ++ [stepEvent] ++ piped)
                 ∧ accumulated u (evs ++ [stepEvent] ++ piped)
                   = accumulated (accumulated u [stepEvent]) piped).
      { intros piped Hp1 Hp2. split; [|split].
        - apply Forall_app. split; [done|]. by constructor.
        - apply forward_steps_no_finish.
          rewrite existsb_isFinish_app, Hevs2. simpl. exact Hp1.
        - rewrite !accumulated_app. by rewrite (accumulated_no_steps u evs). }
      destruct (rc _ _) as [[result|e|] c3]; destruct Hrc as [Hc3 Hs].
      * destruct (fullStream result) as [s|].
        -- pose proof (pipe_accounted s Hs c3 _ Hc3) as Hpipe.
           pose proof (pipeRecursiveStream_clean s c3) as Hclean.
           apply clean_no_finish in Hclean as [Hcl1 Hcl2].
           destruct (pipeRecursiveStream s c3) as [[piped r] c4]. simpl in *.
           destruct (Hprefix piped Hcl1 Hcl2) as (? & ? & ->).
           four; try done. by destruct r.
        -- destruct (Hprefix [] eq_refl (Forall_nil_2 _)) as (Hp1 & Hp2 & Hp3).
        cbn [app] in Hp1, Hp2, Hp3. cbn [fst snd]. rewrite Hp3.
           by four.
      * destruct (Hprefix [] eq_refl (Forall_nil_2 _)) as (Hp1 & Hp2 & Hp3).
        cbn [app] in Hp1, Hp2, Hp3. cbn [fst snd]. rewrite Hp3.
        by four.
      * destruct (Hprefix [] eq_refl (Forall_nil_2 _)) as (Hp1 & Hp2 & Hp3).
        cbn [app] in Hp1, Hp2, Hp3. cbn [fst snd]. rewrite Hp3.
        by four.
    + simpl. four; try done.
      * by apply ready_step.
      * by repeat constructor.
  - destruct Hc as (Htools & Hacc & Hlang). rewrite Hacc. simpl.
    four; try done. by repeat constructor.
  - four; try done. by repeat constructor.
Qed.

Lemma pipeThrough_accounted rc raw :
  accountedCall rc → Forall languageStep raw →
  ∀ st, heldTextStart st →
  accounted (pipeThrough processText executeTools formatToolResults config rc (ofList raw) st).
Proof using Hquiet.
  intros Hrc. induction 1 as [|ch rest Hch Hrest IH]; intros st Hst; [done|].
  simpl. intros c u Hc.
  pose proof (transform_accounted rc st ch c u Hrc Hst Hch Hc) as (H1 & H2 & H3 & H4).
  destruct (transform processText executeTools formatToolResults config rc st ch c)
    as [[outs r] c']. simpl in *.
  destruct r as [st'|e|]; simpl; rewrite ?app_nil_r; four; try done.
  by apply IH.
Qed.

Variable wrap : value → list value → value.
Variable pid : string.
Variable provider : value → object → list chunk.
Hypothesis Hprovider : ∀ m p, Forall languageStep (provider m p).

Local Abbreviation toolUsePlugin :=
  (createPromptToolUsePlugin newTagExtractor processText executeTools formatToolResults config).

Local Abbreviation conversation fuel :=
  (lifecycle fuel (streamSdk wrap) StreamText pid [toolUsePlugin] (streamText provider)).

Lemma manager_single : PluginManager [toolUsePlugin] = [toolUsePlugin].
Proof. reflexivity. Qed.

(** One invocation of the streaming lifecycle with the tool-use plugin as
    its only plugin. *)
Lemma conversation_step n params c :
  conversation (S n) params c
  = let c0 := set_recursiveCall (EngineClosure params) c in
    let model := prop params "model" in
    if isNullish model then (Throw (TypeError model "modelId"), c)
    else if isString model || negb (truthy model)
    then (Throw (ModelResolutionError
                   (match model with VStr _ => model | _ => getProp model "modelId" end) pid),
          c0)
    else
      match promptTransformParams config params c0 with
      | (Ok partial, c1) =>
          let '(through, c2) :=
            promptTransformStream newTagExtractor processText executeTools
              formatToolResults config (callRecursive (streamSdk wrap) (conversation n)) c1 in
          (Ok (mkStreamTextResult
                 (Some (through (ofList (provider (wrapWithMiddlewares (streamSdk wrap) c0 model)
                                           (spread params partial)))))), c2)
      | (Throw e, c1) => (Throw e, c1)
      | (Diverge, c1) => (Diverge, c1)
      end.
Proof.
  cbn [lifecycle]. unfold lifecycleBody. rewrite manager_single.
  unfold tryCatch, tryBlock, produceResult, prepare, resolve, catchBlock.
  destruct (prop params "model") eqn:Hmodel; simpl;
    unfold executeParallel, bind, ret, throw, getContext, streamText; simpl;
    try reflexivity.
  all: try (match goal with |- context [if ?b then _ else _] => destruct b end;
            simpl; try reflexivity).
  all: destruct (promptTransformParams config params _) as [[partial|e|] c1];
    simpl; try reflexivity.
  all: by destruct (promptTransformStream _ _ _ _ _ _ c1) as [through c2].
Qed.

(** A recursive call of the tool loop is a step of [recursiveChain]: the
    closure re-enters the lifecycle with the captured parameters under those
    of [buildRecursiveParams], the hook transforms them on the context
    marked as recursive, and the provider is called with the result. *)
Lemma recursive_call_is_chain_step n current captured textBuffer toolResultsText tools
    transformed context' :
  let merged :=
    spread captured (buildRecursiveParams current textBuffer toolResultsText tools) in
  recursiveCall current = EngineClosure captured →
  recursiveDepth current < maxRecursiveDepth current →
  isString (prop merged "model") = false → truthy (prop merged "model") = true →
  promptTransformParams config merged
    (set_recursiveCall (EngineClosure merged)
       (set_isRecursiveCall true (set_recursiveDepth (recursiveDepth current + 1) current)))
  = (Ok transformed, context') →
  ∃ model through c2,
    callRecursive (streamSdk wrap) (conversation (S n))
      (buildRecursiveParams current textBuffer toolResultsText tools) current
    = (Ok (mkStreamTextResult
             (Some (through (ofList (provider model (spread merged transformed)))))),
       c2).
Proof.
  intros merged Hcall Hdepth Hstring Htruthy Hrun.
  unfold callRecursive. rewrite Hcall. unfold recursiveCallClosure, tryFinally.
  rewrite (proj2 (Z.leb_gt _ _) Hdepth).
  fold merged. rewrite conversation_step. cbn zeta.
  assert (Hnull : isNullish (prop merged "model") = false)
    by by destruct (prop merged "model").
  rewrite Hnull, Hstring, Htruthy. cbn [orb negb]. rewrite Hrun.
  destruct (promptTransformStream _ _ _ _ _ _ context') as [through c2].
  by eexists _, _, _.
Qed.

Lemma promptTransformParams_context params c :
  (∃ partial, (promptTransformParams config params c).1 = Ok partial)
  ∧ accumulatedUsage (promptTransformParams config params c).2 = accumulatedUsage c
  ∧ (is_Some (mcpTools c) → is_Some (mcpTools (promptTransformParams config params c).2))
  ∧ (enabled config = true → ∀ tools, prop params "tools" = VObj tools →
     promptTools tools ≠ ∅ → is_Some (mcpTools (promptTransformParams config params c).2)).
Proof.
  unfold promptTransformParams.
  destruct (prop params "tools") as [| | | | |items|tools] eqn:Htools;
    try (simpl; split; [by eexists|]; split; [done|]; split; [done|]; by intros _ ? ?).
  destruct (enabled config); simpl;
    [|split; [by eexists|]; split; [done|]; split; [done|]; by intros ?].
  unfold bind, modifyContext, getContext, ret. simpl.
  unfold isEmptyObject. case_bool_decide as Hempty; simpl.
  - destruct (isRecursiveCall c); simpl.
    all: split; [by eexists|]; split; [done|]; split; [done|].
    all: intros _ ? [= <-] Hne; by destruct Hne.
  - destruct (isRecursiveCall c); simpl.
    all: split; [by eexists|]; split; [done|]; split; by eauto.
Qed.

Lemma callRecursive_accounted reenter :
  accountedCall reenter → accountedCall (callRecursive (streamSdk wrap) reenter).
Proof.
  intros Hre params c u Hc. unfold callRecursive.
  destruct (recursiveCall c) as [|outer]; [done|].
  unfold recursiveCallClosure.
  destruct (maxRecursiveDepth c <=? recursiveDepth c); [done|].
  unfold tryFinally.
  specialize (Hre (spread outer params)
                (set_isRecursiveCall true (set_recursiveDepth (recursiveDepth c + 1) c)) u Hc).
  destruct (reenter _ _) as [[result|e|] c']; destruct Hre as [Hc' Hs]; by split.
Qed.

(** Every invocation of the lifecycle on a context whose accumulator is
    set answers with a stream that keeps the accounts. *)
Lemma conversation_accounted n : accountedCall (conversation n).
Proof using Hquiet Hprovider.
  induction n as [|n IH]; intros params c u Hc; [done|].
  rewrite conversation_step. cbn zeta.
  destruct (isNullish (prop params "model")); [done|].
  destruct (isString (prop params "model") || negb (truthy (prop params "model")));
    [done|].
  destruct (promptTransformParams_context params (set_recursiveCall (EngineClosure params) c))
    as ([partial Hpartial] & Hacc & Htools & _).
  destruct (promptTransformParams config params _) as [r c1]. simpl in *. subst r.
  destruct Hc as (Hm & Hu & Hlang). destruct (Htools Hm) as [tools Hc1].
  unfold promptTransformStream. rewrite Hc1, Hacc, Hu. simpl.
  split; [by repeat split; eauto; congruence|].
  apply pipeThrough_accounted; [|done..].
  by apply callRecursive_accounted.
Qed.

Lemma readAll_forwards_finish rc raw :
  accountedCall rc → Forall languageStep raw →
  ∀ st c u, heldTextStart st → ready c u →
  (readAll (pipeThrough processText executeTools formatToolResults config rc
              (ofList raw) st) c).1.2 = Ok tt →
  ∀ finishReason total more,
    In (Finish finishReason total more) raw →
    In (Finish finishReason ContextAccumulator more)
       (readAll (pipeThrough processText executeTools formatToolResults config rc
                   (ofList raw) st) c).1.1.
Proof using Hquiet.
  intros Hrc. induction 1 as [|ch raw Hch Hraw IH]; intros st c u Hst Hc Hend fr total more Hin;
    [by destruct Hin|].
  simpl in Hend |- *.
  pose proof (transform_accounted rc st ch c u Hrc Hst Hch Hc) as (H1 & _ & _ & H4).
  assert (Hhere : ch = Finish fr total more →
            (transform processText executeTools formatToolResults config rc st ch c).1.1
            = [Finish fr ContextAccumulator more]).
  { intros ->. simpl. destruct Hc as (_ & -> & _). done. }
  destruct (transform processText executeTools formatToolResults config rc st ch c)
    as [[outs r] c']. simpl in *.
  destruct r as [st'|e|]; simpl in *; try discriminate.
  specialize (IH st' c' _ H4 H1).
  destruct (readAll _ c') as [[rest r] c'']. simpl in *.
  rewrite app_nil_r. apply in_or_app. destruct Hin as [->|Hin].
  - left. rewrite Hhere by done. by left.
  - right. by apply (IH Hend fr total more).
Qed.

Lemma accumulated_totals u us :
  Usage.orZero (Usage.totalTokens (foldl Usage.accumulateLanguage u us))
  = Usage.orZero (Usage.totalTokens u) + sumOf Usage.totalTokens us
  ∧ Usage.orZero (Usage.inputTokens (foldl Usage.accumulateLanguage u us))
    = Usage.orZero (Usage.inputTokens u) + sumOf Usage.inputTokens us
  ∧ Usage.orZero (Usage.outputTokens (foldl Usage.accumulateLanguage u us))
    = Usage.orZero (Usage.outputTokens u) + sumOf Usage.outputTokens us.
Proof.
  revert u. induction us as [|s us IH]; intros u; simpl; [lia|].
  destruct (IH (Usage.accumulateLanguage u s)) as (-> & -> & ->). simpl. lia.
Qed.


End Conversation.

Lemma echoTools_quiet : quietTools echoTools.
Proof.
  intros uses tools c. split; [done|]. split; [done|].
  simpl. apply Forall_fmap, Forall_true. by intros u.
Qed.

Lemma searchProvider_language m p : Forall languageStep (searchProvider m p).
Proof. unfold searchProvider. destruct (arrayItems _); by repeat constructor. Qed.

Lemma searchProvider_finishes m p :
  ∃ total, In (Finish "stop" total ∅) (searchProvider m p).
Proof.
  unfold searchProvider. destruct (arrayItems _); eexists; simpl;
    repeat (first [left; reflexivity | right]).
Qed.

Lemma answered_stream run :
  answered run = true → run = (Ok (mkStreamTextResult (Some (streamOf run))), run.2).
Proof.
  unfold answered, streamOf. destruct run as [[[[s|]]|e|] c]; simpl; by try discriminate.
Qed.


End StreamFacts.

(* ===================================================================== *)
(** ** Registration of plugins and statistics *)
(* ===================================================================== *)

Module RegistryFacts.
Import Engine ManagerRegistry.

Section Registration.
Context {R T : Type}.
Implicit Types (plugins rest : list (AiPlugin R T)) (p q : AiPlugin R T).

Lemma isPre_not_isPost p : isPre p = true → isPost p = false.
Proof. unfold isPre, isPost. by destruct (enforce p) as [[|]|]. Qed.

Lemma isNormal_tier p : isNormal p = true ↔ tier p = 1%nat.
Proof.
  unfold isNormal, tier, isPre, isPost. destruct (enforce p) as [[|]|]; simpl; naive_solver.
Qed.

Lemma isPre_tier p : isPre p = true ↔ tier p = 0%nat.
Proof. unfold tier, isPre, isPost. destruct (enforce p) as [[|]|]; simpl; naive_solver. Qed.

Lemma isPost_tier p : isPost p = true ↔ tier p = 2%nat.
Proof. unfold tier, isPre, isPost. destruct (enforce p) as [[|]|]; simpl; naive_solver. Qed.

Lemma sortPlugins_tiers plugins :
  sortPlugins plugins
  = filter (λ p, tier p = 0%nat) plugins
    ++ filter (λ p, tier p = 1%nat) plugins
    ++ filter (λ p, tier p = 2%nat) plugins.
Proof.
  unfold sortPlugins. f_equal; [|f_equal]; apply list_filter_iff; intros p.
  - apply isPre_tier.
  - apply isNormal_tier.
  - apply isPost_tier.
Qed.

Lemma tier_bound p : (tier p ≤ 2)%nat.
Proof. unfold tier. destruct (isPre p), (isPost p); lia. Qed.

Lemma filter_tier_other (t u : nat) plugins :
  t ≠ u → filter (λ p, tier p = t) (filter (λ p, tier p = u) plugins) = [].
Proof.
  intros Hne. rewrite list_filter_filter.
  induction plugins as [|p rest IH]; [done|].
  rewrite filter_cons_False; [done|]. intros [? ?]. congruence.
Qed.

Lemma filter_tier_same (t : nat) plugins :
  filter (λ p, tier p = t) (filter (λ p, tier p = t) plugins)
  = filter (λ p, tier p = t) plugins.
Proof. by apply list_filter_filter_l. Qed.

Lemma filter_tier_none (t : nat) plugins :
  (2 < t)%nat → filter (λ p, tier p = t) plugins = [].
Proof.
  intros Ht. induction plugins as [|p rest IH]; [done|].
  rewrite filter_cons_False; [done|]. pose proof (tier_bound p). lia.
Qed.

(** Sorting keeps the plugins of each tier, in their order. *)
Lemma filter_tier_sorted (t : nat) plugins :
  filter (λ p, tier p = t) (sortPlugins plugins) = filter (λ p, tier p = t) plugins.
Proof.
  rewrite sortPlugins_tiers, !filter_app.
  destruct t as [|[|[|t]]].
  - rewrite filter_tier_same, !filter_tier_other by lia. by rewrite !app_nil_r.
  - rewrite filter_tier_same, !filter_tier_other by lia. by rewrite app_nil_r.
  - by rewrite filter_tier_same, !filter_tier_other by lia.
  - rewrite !filter_tier_other by lia. symmetry. apply filter_tier_none. lia.
Qed.

Lemma sortPlugins_app_sorted plugins rest :
  sortPlugins (sortPlugins plugins ++ rest) = sortPlugins (plugins ++ rest).
Proof.
  rewrite (sortPlugins_tiers (sortPlugins plugins ++ rest)),
    (sortPlugins_tiers (plugins ++ rest)), !filter_app.
  by rewrite !filter_tier_sorted.
Qed.

Lemma sortPlugins_filter (P : AiPlugin R T → Prop) `{!∀ p, Decision (P p)} plugins :
  filter P (sortPlugins plugins) = sortPlugins (filter P plugins).
Proof.
  unfold sortPlugins. rewrite !filter_app, !list_filter_filter.
  f_equal; [|f_equal]; apply list_filter_iff; intros p; tauto.
Qed.

Lemma same_tier_sorted (t : nat) plugins :
  StronglySorted (λ p q, (tier p ≤ tier q)%nat) (filter (λ p, tier p = t) plugins).
Proof.
  induction plugins as [|p rest IH]; [constructor|].
  rewrite filter_cons. case_decide as Hp; [|done].
  constructor; [done|]. apply Forall_forall. intros q Hq.
  apply list_elem_of_filter in Hq as [Hq _]. lia.
Qed.

Lemma sortPlugins_Permutation plugins : sortPlugins plugins ≡ₚ plugins.
Proof.
  rewrite sortPlugins_tiers. induction plugins as [|p rest IH]; [done|].
  rewrite !filter_cons. pose proof (tier_bound p) as Hb.
  destruct (tier p) as [|[|[|t]]] eqn:Hp; simpl; try lia.
  - by constructor.
  - by rewrite <- Permutation_middle, IH.
  - by rewrite app_assoc, <- Permutation_middle, <- app_assoc, IH.
Qed.

(** X1.  [sortPlugins] is a stable sort by tier ([pre] before plugins
    without [enforce] before [post]): its result is a rearrangement of its
    argument, no plugin comes before one of a lower tier, and the plugins of
    one tier keep the order they were given in. *)
Theorem sortPlugins_stable_by_tier plugins :
  sortPlugins plugins ≡ₚ plugins
  ∧ StronglySorted (λ p q, (tier p ≤ tier q)%nat) (sortPlugins plugins)
  ∧ ∀ t : nat, filter (λ p, tier p = t) (sortPlugins plugins)
               = filter (λ p, tier p = t) plugins.
Proof.
  split; [apply sortPlugins_Permutation|split].
  - rewrite sortPlugins_tiers.
    apply StronglySorted_app_2; [|apply same_tier_sorted|].
    + intros p q Hp Hq. apply list_elem_of_filter in Hp as [Hp _]. rewrite Hp. lia.
    + apply StronglySorted_app_2; [|apply same_tier_sorted..].
      intros p q Hp Hq. apply list_elem_of_filter in Hp as [Hp _].
      apply list_elem_of_filter in Hq as [Hq _]. lia.
  - intros t. apply filter_tier_sorted.
Qed.

(** X2.  Adding plugins to a manager one at a time with [use] gives the
    manager that the constructor builds from the whole list. *)
Theorem use_agrees_with_constructor plugins rest :
  foldl use (PluginManager plugins) rest = PluginManager (plugins ++ rest).
Proof.
  revert plugins. induction rest as [|p rest IH]; intros plugins; cbn [foldl].
  - by rewrite app_nil_r.
  - change (use (PluginManager plugins) p)
      with (sortPlugins (sortPlugins plugins ++ [p])).
    rewrite sortPlugins_app_sorted.
    change (sortPlugins (plugins ++ [p])) with (PluginManager (plugins ++ [p])).
    by rewrite IH, <- app_assoc.
Qed.

(** X3.  [remove] drops every plugin that has the given name and nothing
    else, keeps the order of the others, commutes with the sorting of the
    constructor, does nothing when no plugin has the name, and is
    idempotent. *)
Theorem remove_drops_exactly_the_named (pluginName : string) plugins :
  (∀ p, p ∈ remove pluginName plugins ↔ p ∈ plugins ∧ name p ≠ pluginName)
  ∧ remove pluginName plugins `sublist_of` plugins
  ∧ remove pluginName (PluginManager plugins) = PluginManager (remove pluginName plugins)
  ∧ (Forall (λ p, name p ≠ pluginName) plugins → remove pluginName plugins = plugins)
  ∧ remove pluginName (remove pluginName plugins) = remove pluginName plugins.
Proof.
  unfold remove. split; [|split; [|split; [|split]]].
  - intros p. rewrite list_elem_of_filter. tauto.
  - apply sublist_filter.
  - apply sortPlugins_filter.
  - intros Hall. induction Hall as [|p rest Hp _ IH]; [done|].
    by rewrite filter_cons_True, IH.
  - by apply list_filter_filter_l.
Qed.

Lemma foldl_countPlugin (s : Stats.stats) plugins :
  Stats.total (foldl countPlugin s plugins) = Stats.total s
  ∧ Stats.pre (foldl countPlugin s plugins)
    = (Stats.pre s + length (filter (λ p, isPre p = true) plugins))%nat
  ∧ Stats.normal (foldl countPlugin s plugins)
    = (Stats.normal s + length (filter (λ p, isNormal p = true) plugins))%nat
  ∧ Stats.post (foldl countPlugin s plugins)
    = (Stats.post s + length (filter (λ p, isPost p = true) plugins))%nat
  ∧ Stats.transformStream (Stats.hooks (foldl countPlugin s plugins))
    = (Stats.transformStream (Stats.hooks s)
       + length (filter (λ p, is_Some (transformStream p)) plugins))%nat
  ∧ Stats.resolveModel (Stats.hooks (foldl countPlugin s plugins))
    = (Stats.resolveModel (Stats.hooks s)
       + length (filter (λ p, is_Some (resolveModel p)) plugins))%nat.
Proof.
  revert s. induction plugins as [|p rest IH]; intros s; simpl.
  - repeat split; lia.
  - destruct (IH (countPlugin s p)) as (-> & -> & -> & -> & -> & ->).
    rewrite !filter_cons. unfold isNormal. simpl.
    pose proof (isPre_not_isPost p) as Hpp.
    repeat split.
    + destruct (isPre p); simpl; [|done]. lia.
    + destruct (isPre p), (isPost p); simpl; lia.
    + destruct (isPre p), (isPost p); simpl; try lia; by specialize (Hpp eq_refl).
    + destruct (transformStream p); simpl; lia.
    + destruct (resolveModel p); simpl; lia.
Qed.

Lemma length_collectStreamTransforms (rc : RecursiveCall) plugins params c :
  length (collectStreamTransforms rc plugins params c)
  = length (filter (λ p, is_Some (transformStream p)) plugins).
Proof.
  unfold collectStreamTransforms. induction plugins as [|p rest IH]; [done|].
  rewrite filter_cons. destruct (transformStream p) eqn:Hp.
  - rewrite decide_True by done. cbn. rewrite Hp. simpl. f_equal. exact IH.
  - rewrite decide_False by (by intros [? ?]). cbn. rewrite Hp. exact IH.
Qed.

(** X4.  The statistics of a manager: [total] is the number of plugins and
    is the sum of the three tier counters, each tier counter is the number
    of plugins that [sortPlugins] puts in that tier, and the
    [transformStream] counter is the number of stream transforms that
    [collectStreamTransforms] returns.  The statistics of an engine are
    those of its base plugins: its [total] is their number. *)
Theorem getStats_counts plugins :
  Stats.total (getStats plugins) = length plugins
  ∧ Stats.total (getStats plugins)
    = (Stats.pre (getStats plugins) + Stats.normal (getStats plugins)
       + Stats.post (getStats plugins))%nat
  ∧ Stats.pre (getStats plugins) = length (filter (λ p, tier p = 0%nat) plugins)
  ∧ Stats.normal (getStats plugins) = length (filter (λ p, tier p = 1%nat) plugins)
  ∧ Stats.post (getStats plugins) = length (filter (λ p, tier p = 2%nat) plugins)
  ∧ (∀ (rc : RecursiveCall) params c,
       Stats.transformStream (Stats.hooks (getStats plugins))
       = length (collectStreamTransforms rc plugins params c))
  ∧ Stats.total (EngineRegistry.getPluginStats plugins) = length plugins.
Proof.
  unfold EngineRegistry.getPluginStats, getStats.
  destruct (foldl_countPlugin
              (Stats.mkStats (length plugins) 0 0 0 (Stats.mkHookCounts 0 0 0 0 0 0 0 0))
              plugins) as (Ht & Hpre & Hnormal & Hpost & Hstream & _).
  destruct (foldl_countPlugin
              (Stats.mkStats (length (PluginManager plugins)) 0 0 0
                 (Stats.mkHookCounts 0 0 0 0 0 0 0 0))
              (PluginManager plugins)) as (Ht' & _).
  rewrite Ht, Ht', Hpre, Hnormal, Hpost, Hstream. simpl.
  assert (Hlen : length (sortPlugins plugins) = length plugins).
  { apply Permutation_length, sortPlugins_Permutation. }
  rewrite (list_filter_iff (λ p, isPre p = true) (λ p, tier p = 0%nat)) by apply isPre_tier.
  rewrite (list_filter_iff (λ p, isNormal p = true) (λ p, tier p = 1%nat))
    by apply isNormal_tier.
  rewrite (list_filter_iff (λ p, isPost p = true) (λ p, tier p = 2%nat))
    by apply isPost_tier.
  repeat split; try done.
  - rewrite <- Hlen at 1. rewrite sortPlugins_tiers, !length_app. lia.
  - intros rc params c. by rewrite length_collectStreamTransforms.
Qed.

End Registration.
End RegistryFacts.

(* ===================================================================== *)
(** ** Hook policies and the lifecycle without plugins *)
(* ===================================================================== *)

Module LifecycleFacts.
Import Engine.

Section Hooks.
Context {R T : Type}.
Implicit Types (plugins rest : list (AiPlugin R T)) (p : AiPlugin R T).

(** X5.  [executeFirst] stops at the first hook whose result is neither
    [null] nor [undefined]: the plugins after it are not called, and when
    every hook of a first part of the list declines, the rest of the list
    is tried on the context those hooks left.  Its result is never
    [undefined]: when every hook declines it is [null]. *)
Theorem executeFirst_first_result_wins (rc : RecursiveCall) (hookName : FirstHook)
    plugins rest (arg : string) (c : AiRequestContext) :
  executeFirst rc hookName (plugins ++ rest) arg c
  = match executeFirst rc hookName plugins arg c with
    | (Ok r, c1) => if isNullish r then executeFirst rc hookName rest arg c1 else (Ok r, c1)
    | other => other
    end
  ∧ ∀ r c', executeFirst rc hookName plugins arg c = (Ok r, c') → isUndefined r = false.
Proof.
  revert c. induction plugins as [|p plugins IH]; intros c.
  - split; [done|]. by intros r c' [= <- <-].
  - cbn [app executeFirst]. destruct (firstHook hookName p) as [hook|]; [|apply IH].
    unfold bind. destruct (hook rc arg c) as [[r|e|] c1]; [|by split..].
    destruct (isNullish r) eqn:Hr; [apply IH|].
    unfold ret. rewrite Hr. split; [done|]. intros r' c' [= <- <-]. by destruct r.
Qed.

(** X6.  An engine without plugins is transparent.  For a request whose
    model is an object (a truthy non-string), each of the three entry
    points returns or throws exactly what the executor does when called
    with that model and the unchanged parameters (and no stream
    transforms), on the fresh context in which only [recursiveCall] has
    been installed.  For a model that is [undefined] or [null], reading its
    [modelId] throws a [TypeError] before a closure is installed on any
    context.  For a string model, or another falsy one, the executor is not
    called and a [ModelResolutionError] with the model id and the provider
    id of the engine is thrown. *)
Theorem engine_without_plugins_is_transparent (fuel : nat) (sdk : Sdk R)
    (engineProviderId : string) (params : object)
    (executor : value → object → M R) (streamExecutor : value → object → list T → M R)
    (requestId : string) (startTime : Z) :
  let model := prop params "model" in
  let fresh := createContext engineProviderId model params requestId startTime in
  let c0 := set_recursiveCall (EngineClosure params) fresh in
  let answer (call : M R) : outcome R * AiRequestContext :=
    if isNullish model then (Throw (TypeError model "modelId"), fresh)
    else if negb (isString model) && truthy model then call c0
    else (Throw (ModelResolutionError
                   (match model with VStr _ => model | _ => getProp model "modelId" end)
                   engineProviderId), c0) in
  executeWithPlugins (S fuel) sdk engineProviderId (@nil (AiPlugin R T)) params executor None
    requestId startTime
  = answer (executor model params)
  ∧ executeImageWithPlugins (S fuel) sdk engineProviderId (@nil (AiPlugin R T)) params executor None
      requestId startTime
    = answer (executor model params)
  ∧ executeStreamWithPlugins (S fuel) sdk engineProviderId (@nil (AiPlugin R T)) params streamExecutor None
      requestId startTime
    = answer (streamExecutor model params []).
Proof.
  unfold executeWithPlugins, executeImageWithPlugins, executeStreamWithPlugins, contextFor.
  cbn [default lifecycle]. unfold lifecycleBody, tryCatch, tryBlock, produceResult, prepare,
    resolve, catchBlock.
  destruct (prop params "model") as [| |b|z|s|items|fields] eqn:Hmodel; simpl;
    unfold executeParallel, bind, ret, throw, getContext; simpl; try done.
  - destruct b; simpl; [|done].
    repeat split; by destruct (_ (VBool true) params _) as [[?|?|] ?].
  - destruct (z =? 0); simpl; [done|].
    repeat split; by destruct (_ (VNum z) params _) as [[?|?|] ?].
  - repeat split; by destruct (_ (VArr items) params _) as [[?|?|] ?].
  - repeat split; by destruct (_ (VObj fields) params _) as [[?|?|] ?].
Qed.

End Hooks.
End LifecycleFacts.

(* ===================================================================== *)
(** ** Model ids *)
(* ===================================================================== *)

Module TextFacts.
Import Text.

Section Units.
Context {A : Type} `{!EqDecision A}.
Implicit Types (s p sep r : list A).

Lemma startsWith_prefix p s : startsWith p s = true ↔ ∃ r, s = p ++ r.
Proof.
  revert s. induction p as [|a p IH]; intros s; simpl.
  - split; [by exists s|done].
  - destruct s as [|b s]; [split; [done|by intros [? ?]]|].
    rewrite andb_true_iff, bool_decide_eq_true, IH. split.
    + intros [-> [r ->]]. by exists r.
    + intros [r [= -> ->]]. split; [done|by exists r].
Qed.

Lemma startsWith_append p r : startsWith p (p ++ r) = true.
Proof. apply startsWith_prefix. by exists r. Qed.

Lemma startsWith_nil p : startsWith p [] = true → p = [].
Proof. by destruct p. Qed.

(** The index that [indexOf] returns is the first position at which the
    pattern occurs. *)
Lemma indexOf_first p s (i : nat) :
  indexOf p s = Some i ↔
  startsWith p (drop i s) = true ∧ (i ≤ length s)%nat
  ∧ ∀ j, (j < i)%nat → startsWith p (drop j s) = false.
Proof.
  revert i. induction s as [|b s IH]; intros i; simpl.
  - destruct (startsWith p []) eqn:Hp.
    + split.
      * intros [= <-]. simpl. rewrite Hp. split; [done|]. split; [lia|]. intros j. lia.
      * intros (_ & Hi & _). f_equal. simpl in Hi. lia.
    + split; [done|]. intros (Hd & _). rewrite drop_nil in Hd. congruence.
  - destruct (startsWith p (b :: s)) eqn:Hp.
    + split.
      * intros [= <-]. simpl. rewrite Hp. split; [done|]. split; [lia|]. intros j. lia.
      * intros (_ & _ & Hmin). destruct i as [|i]; [done|].
        specialize (Hmin 0%nat ltac:(lia)). simpl in Hmin. congruence.
    + destruct i as [|i].
      * split; [by destruct (indexOf p s)|]. intros (Hd & _). simpl in Hd. congruence.
      * assert (Hiff : S <$> indexOf p s = Some (S i) ↔ indexOf p s = Some i).
        { destruct (indexOf p s); simpl; [|done]. split; by intros [= ->]. }
        rewrite Hiff, IH. simpl.
        split; intros (H1 & H2 & H3); (split; [done|split; [lia|]]).
        -- intros [|j] Hj; [exact Hp|]. apply H3. lia.
        -- intros j Hj. apply (H3 (S j)). lia.
Qed.

Lemma indexOf_None p s :
  indexOf p s = None ↔ ∀ j, (j ≤ length s)%nat → startsWith p (drop j s) = false.
Proof.
  induction s as [|b s IH]; simpl.
  - destruct (startsWith p []) eqn:Hp.
    + split; [done|]. intros H. specialize (H 0%nat ltac:(lia)). simpl in H. congruence.
    + split; [|done]. intros _ j _. by rewrite drop_nil.
  - destruct (startsWith p (b :: s)) eqn:Hp.
    + split; [done|]. intros H. specialize (H 0%nat ltac:(lia)). simpl in H. congruence.
    + assert (Hiff : S <$> indexOf p s = None ↔ indexOf p s = None).
      { by destruct (indexOf p s). }
      rewrite Hiff, IH. split.
      * intros H [|j] Hj; [exact Hp|]. apply H. lia.
      * intros H j Hj. apply (H (S j)). lia.
Qed.

Lemma indexOf_split p s (i : nat) :
  indexOf p s = Some i → s = take i s ++ p ++ drop (i + length p) s.
Proof.
  intros (Hd & _ & _)%indexOf_first. apply startsWith_prefix in Hd as [r Hr].
  assert (Hrest : drop (i + length p) s = r).
  { by rewrite <- drop_drop, Hr, drop_app_length. }
  rewrite Hrest, <- Hr. by rewrite take_drop.
Qed.

Lemma includes_app a p b : includes p (a ++ p ++ b) = true.
Proof.
  unfold includes. destruct (indexOf p (a ++ p ++ b)) eqn:Hi; [done|].
  rewrite indexOf_None in Hi. specialize (Hi (length a)).
  rewrite drop_app_length, startsWith_append in Hi.
  rewrite !length_app in Hi. discriminate Hi. lia.
Qed.

Lemma endsWith_app a p : endsWith p (a ++ p) = true.
Proof.
  unfold endsWith. rewrite length_app. apply andb_true_iff. split.
  - apply bool_decide_eq_true. lia.
  - apply bool_decide_eq_true.
    replace (length a + length p - length p)%nat with (length a) by lia.
    by rewrite drop_app_length.
Qed.

End Units.
End TextFacts.

Module ModelIdFacts.
Import Text TextFacts ModelResolver HubProvider.

Lemma indexOf_unit_None {A : Type} `{!EqDecision A} (a : A) (s : list A) :
  indexOf [a] s = None ↔ a ∉ s.
Proof.
  induction s as [|b s IH]; simpl.
  - split; [intros _; apply not_elem_of_nil|done].
  - rewrite not_elem_of_cons. case_bool_decide as Hab; simpl.
    + split; [done|]. by intros [? _].
    + destruct (indexOf [a] s); simpl.
      * split; [done|]. intros [_ Hs]. by apply IH in Hs.
      * split; [|done]. intros _. split; [done|]. by apply IH.
Qed.

Lemma indexOf_unit_Some {A : Type} `{!EqDecision A} (a : A) (s : list A) (i : nat) :
  indexOf [a] s = Some i ↔ s !! i = Some a ∧ a ∉ take i s.
Proof.
  revert i. induction s as [|b s IH]; intros i; simpl.
  - split; [done|]. by intros [? _].
  - case_bool_decide as Hab; simpl.
    + subst b. split.
      * intros [= <-]. split; [done|]. apply not_elem_of_nil.
      * intros [_ Hi]. destruct i as [|i]; [done|].
        simpl in Hi. by apply not_elem_of_cons in Hi as [? _].
    + destruct i as [|i]; simpl.
      * split; [by destruct (indexOf [a] s)|]. intros [[= ->] _]. done.
      * assert (Hiff : S <$> indexOf [a] s = Some (S i) ↔ indexOf [a] s = Some i).
        { destruct (indexOf [a] s); simpl; [|done]. split; by intros [= ->]. }
        rewrite Hiff, IH, not_elem_of_cons. tauto.
Qed.

Section Ids.
Context {X : Type}.
Implicit Types (sep modelId fallbackProviderId : list ascii).

(** X7.  The id that [resolveLanguageModel] asks the registry for always
    contains the separator and ends with the model id.  A model id that
    contains the separator is passed on unchanged, whatever the fallback
    provider and the provider options are; otherwise the id is the
    provider id, with [-chat] appended only for [openai] and [azure] in
    chat mode, then the separator, then the model id.  The ids of image
    and embedding models are built in the same way without the chat
    suffix. *)
Theorem resolver_asks_for_namespaced_id sep (registry : Registry X)
    modelId fallbackProviderId (providerOptions : value) :
  let asked :=
    resolveLanguageModel sep echoRegistry modelId fallbackProviderId providerOptions in
  resolveLanguageModel sep registry modelId fallbackProviderId providerOptions
  = languageModel registry asked
  ∧ includes sep asked = true
  ∧ endsWith modelId asked = true
  ∧ (includes sep modelId = true → asked = modelId)
  ∧ (includes sep modelId = false →
     ∃ providerId,
       asked = providerId ++ sep ++ modelId
       ∧ (providerId = fallbackProviderId
          ∨ providerId = fallbackProviderId ++ ofString "-chat"
            ∧ isChatMode providerOptions = true
            ∧ (fallbackProviderId = ofString "openai"
               ∨ fallbackProviderId = ofString "azure")))
  ∧ resolveImageModel sep registry modelId fallbackProviderId
    = imageModel registry
        (resolveLanguageModel sep echoRegistry modelId fallbackProviderId VUndefined)
  ∧ resolveTextEmbeddingModel sep registry modelId fallbackProviderId
    = embeddingModel registry
        (resolveLanguageModel sep echoRegistry modelId fallbackProviderId VUndefined).
Proof.
  unfold resolveLanguageModel, resolveImageModel, resolveTextEmbeddingModel,
    resolveNamespacedModel, resolveTraditionalModel, resolveNamespacedImageModel,
    resolveTraditionalImageModel, resolveNamespacedEmbeddingModel,
    resolveTraditionalEmbeddingModel.
  cbn [languageModel imageModel embeddingModel echoRegistry id].
  assert (Hplain : isChatMode VUndefined = false) by done.
  rewrite Hplain, andb_false_r.
  destruct (includes sep modelId) eqn:Hns.
  - repeat split; try done.
    apply (endsWith_app [] modelId).
  - split; [done|]. split; [apply includes_app|]. split.
    { rewrite app_assoc. apply endsWith_app. }
    split; [done|]. split; [|done]. intros _.
    eexists. split; [done|].
    destruct (bool_decide (fallbackProviderId = ofString "openai")) eqn:Ho;
      destruct (bool_decide (fallbackProviderId = ofString "azure")) eqn:Ha;
      destruct (isChatMode providerOptions) eqn:Hc; simpl; auto;
      right; (split; [done|]); (split; [done|]).
    all: try (left; by apply bool_decide_eq_true in Ho).
    right. by apply bool_decide_eq_true in Ha.
Qed.

End Ids.

Lemma splitFuel_nonempty (fuel : nat) (sep s : list ascii) : splitFuel fuel sep s ≠ [].
Proof. destruct fuel; simpl; [done|]. by destruct (indexOf sep s). Qed.

Lemma splitFuel_single (fuel : nat) (a : ascii) sep' (s : list ascii) :
  indexOf (a :: sep') s = None → splitFuel fuel (a :: sep') s = [s].
Proof. intros H. destruct fuel; simpl; [done|]. by rewrite H. Qed.

(** X8.  [parseHubModelId] succeeds exactly on the ids with one occurrence
    of the separator, and then returns the text before it and the text
    after it; on every other id it throws the error that quotes the id.
    For a separator of one character: an id is parsed into a provider and
    a model id if and only if it is the provider, the separator and the
    model id, neither of which contains the separator; so building
    [provider + separator + modelId] and parsing it is a round trip. *)
Theorem parseHubModelId_one_separator (a : ascii) (sep' modelId provider actualModelId : list ascii) :
  (parseHubModelId (a :: sep') modelId = inr (provider, actualModelId)
   ↔ indexOf (a :: sep') modelId = Some (length provider)
     ∧ modelId = provider ++ (a :: sep') ++ actualModelId
     ∧ indexOf (a :: sep') actualModelId = None)
  ∧ (parseHubModelId [a] modelId = inr (provider, actualModelId)
     ↔ modelId = provider ++ [a] ++ actualModelId
       ∧ (a ∉ provider) ∧ (a ∉ actualModelId))
  ∧ (∀ e, parseHubModelId (a :: sep') modelId = inl e → e = InvalidHubModelId modelId).
Proof.
  assert (Hgeneral : ∀ sep', parseHubModelId (a :: sep') modelId = inr (provider, actualModelId)
   ↔ indexOf (a :: sep') modelId = Some (length provider)
     ∧ modelId = provider ++ (a :: sep') ++ actualModelId
     ∧ indexOf (a :: sep') actualModelId = None).
  { clear sep'. intros sep'. unfold parseHubModelId, split. split.
    - destruct (length modelId) as [|fuel] eqn:Hlen; cbn [splitFuel]; [done|].
      destruct (indexOf (a :: sep') modelId) as [i|] eqn:Hi; [|done].
      pose proof (indexOf_split _ _ _ Hi) as Hsplit.
      pose proof (proj1 (indexOf_first _ _ _) Hi) as (_ & Hle & _).
      set (rest := drop (i + length (a :: sep')) modelId) in *.
      assert (Hprovider : length (take i modelId) = i)
        by (rewrite length_take; lia).
      destruct fuel as [|fuel]; cbn [splitFuel].
      + intros [= <- <-]. rewrite Hprovider.
        split; [done|]. split; [done|].
        assert (rest = []) as Hrest.
        { apply nil_length_inv. unfold rest. rewrite length_drop. simpl. lia. }
        by rewrite Hrest.
      + destruct (indexOf (a :: sep') rest) as [j|] eqn:Hj.
        * destruct (splitFuel fuel _ _) eqn:Hparts; [|done].
          by apply splitFuel_nonempty in Hparts.
        * intros [= <- <-]. by rewrite Hprovider.
    - intros (Hi & Hid & Hnone).
      assert (Hlen : length modelId = S (length provider + length sep' + length actualModelId)).
      { rewrite Hid at 1. rewrite !length_app. simpl. lia. }
      rewrite Hlen. simpl. rewrite Hi.
      assert (take (length provider) modelId = provider) as ->.
      { by rewrite Hid, take_app_length. }
      assert (drop (length provider + S (length sep')) modelId = actualModelId) as ->.
      { rewrite Hid at 1. rewrite <- drop_drop, drop_app_length.
        change (a :: sep' ++ actualModelId) with ((a :: sep') ++ actualModelId).
        change (S (length sep')) with (length (a :: sep')). by rewrite drop_app_length. }
      by rewrite splitFuel_single. }
  split; [apply Hgeneral|]. split.
  - rewrite (Hgeneral []), indexOf_unit_Some, indexOf_unit_None. split.
    + intros ((Hlook & Hnot) & Hid & Hm). split; [done|]. split; [|done].
      by rewrite Hid, take_app_length in Hnot.
    + intros (Hid & Hp & Hm). split; [|done]. rewrite Hid. split.
      * by rewrite lookup_app_r, Nat.sub_diag.
      * by rewrite take_app_length.
  - intros e. unfold parseHubModelId.
    destruct (split (a :: sep') modelId) as [|? [|? [|? ?]]]; by intros [= <-].
Qed.

End ModelIdFacts.

(* ===================================================================== *)
(** ** Usage records *)
(* ===================================================================== *)

Module UsageExtras.
Import Usage.

Lemma image_guard_implies_language_guard u :
  isImageModelUsage u = true → isLanguageModelUsage u = true.
Proof.
  unfold isImageModelUsage, isLanguageModelUsage.
  destruct (has (inputTokens u)), (has (totalTokens u)); simpl; by try discriminate.
Qed.

(** X9.  The image-model branch of [accumulateUsage] is never reached: a
    pair of records that passes the image guards passes the
    language-model guards that are tested first, so [accumulateUsage] is
    the function without that branch.  Nothing is lost by this: on such a
    pair the language-model branch computes what the image-model branch
    would have. *)
Theorem image_branch_is_unreachable (t s : usage) :
  accumulateUsage (Some t) (Some s)
  = (if isLanguageModelUsage t && isLanguageModelUsage s
     then (Some (accumulateLanguage t s), [])
     else if isEmbeddingModelUsage t && isEmbeddingModelUsage s
          then (Some (accumulateEmbedding t s), [])
          else (Some t, [UnableToAccumulate t s]))
  ∧ (isImageModelUsage t && isImageModelUsage s = true →
     isLanguageModelUsage t && isLanguageModelUsage s = true
     ∧ accumulateLanguage t s = addTokenTotals t s).
Proof.
  split.
  - unfold accumulateUsage.
    destruct (isLanguageModelUsage t && isLanguageModelUsage s) eqn:Hl; [done|].
    destruct (isImageModelUsage t && isImageModelUsage s) eqn:Hi; [|done].
    apply andb_true_iff in Hi as [Ht Hs].
    apply image_guard_implies_language_guard in Ht, Hs. by rewrite Ht, Hs in Hl.
  - intros [Ht Hs]%andb_true_iff. split.
    + by rewrite !image_guard_implies_language_guard.
    + unfold isImageModelUsage in Hs.
      apply andb_true_iff in Hs as [[_ Hin]%andb_true_iff Hout].
      unfold accumulateLanguage.
      by destruct (inputTokenDetails s), (outputTokenDetails s).
Qed.

Lemma accumulateUsage_keeps t s t' diagnostics :
  accumulateUsage (Some t) (Some s) = (Some t', diagnostics) →
  legacyReasoningTokens t' = legacyReasoningTokens t
  ∧ cachedInputTokens t' = cachedInputTokens t.
Proof.
  unfold accumulateUsage.
  destruct (isLanguageModelUsage t && isLanguageModelUsage s); [by intros [= <- _]|].
  destruct (isImageModelUsage t && isImageModelUsage s); [by intros [= <- _]|].
  destruct (isEmbeddingModelUsage t && isEmbeddingModelUsage s); by intros [= <- _].
Qed.

(** X10.  [accumulateUsage] never changes the two legacy counters
    [reasoningTokens] and [cachedInputTokens] of its target, whatever the
    source reports (its reasoning and cache tokens are added to the token
    details only).  In the accumulator that [transformStream] creates they
    are therefore still [0] after any number of steps. *)
Theorem legacy_counters_are_never_accumulated (t s : usage) (sources : list usage) :
  (∀ t' diagnostics,
     accumulateUsage (Some t) (Some s) = (Some t', diagnostics) →
     legacyReasoningTokens t' = legacyReasoningTokens t
     ∧ cachedInputTokens t' = cachedInputTokens t)
  ∧ legacyReasoningTokens (foldl acc initialAccumulator sources) = Num 0
  ∧ cachedInputTokens (foldl acc initialAccumulator sources) = Num 0.
Proof.
  split; [intros t' d; apply accumulateUsage_keeps|].
  assert (Hfold : ∀ u, legacyReasoningTokens (foldl acc u sources) = legacyReasoningTokens u
                       ∧ cachedInputTokens (foldl acc u sources) = cachedInputTokens u).
  { induction sources as [|x sources IH]; intros u; [done|]. simpl.
    destruct (IH (acc u x)) as [-> ->]. unfold acc.
    destruct (accumulateUsage (Some u) (Some x)) as [[u'|] d] eqn:Hacc; [|done].
    by apply accumulateUsage_keeps in Hacc. }
  apply (Hfold initialAccumulator).
Qed.

(** X11.  [convertClaudeCodeUsage] yields a language-model usage whose
    total is the input tokens plus the output tokens; the cache tokens are
    reported in the input details only and never count in [inputTokens] or
    [totalTokens], and a [null] or missing count reads as [0].
    Accumulating the conversion of [b] into the conversion of [a] gives
    the numbers of the conversion of their sums. *)
Theorem convertClaudeCodeUsage_totals (a b : ClaudeCode.ClaudeCodeUsage) :
  let ua := ClaudeCode.usage (ClaudeCode.convertClaudeCodeUsage a) in
  let ub := ClaudeCode.usage (ClaudeCode.convertClaudeCodeUsage b) in
  let input x := ClaudeCode.orZero (ClaudeCode.input_tokens x) in
  let output x := ClaudeCode.orZero (ClaudeCode.output_tokens x) in
  let cacheRead x := ClaudeCode.orZero (ClaudeCode.cache_read_input_tokens x) in
  let cacheWrite x := ClaudeCode.orZero (ClaudeCode.cache_creation_input_tokens x) in
  isLanguageModelUsage ua = true
  ∧ isImageModelUsage ua = false
  ∧ isEmbeddingModelUsage ua = false
  ∧ totalTokens ua = Num (input a + output a)
  ∧ inputTokens ua = Num (input a)
  ∧ ClaudeCode.raw (ClaudeCode.convertClaudeCodeUsage a) = a
  ∧ accumulateUsage (Some ua) (Some ub)
    = (Some {| totalTokens := Num (input a + output a + (input b + output b));
               inputTokens := Num (input a + input b);
               outputTokens := Num (output a + output b);
               inputTokenDetails :=
                 Obj {| noCacheTokens := Num (input a + input b);
                        cacheReadTokens := Num (cacheRead a + cacheRead b);
                        cacheWriteTokens := Num (cacheWrite a + cacheWrite b) |};
               outputTokenDetails :=
                 Obj {| textTokens := Num 0; reasoningTokens := Num 0 |};
               tokens := Absent;
               legacyReasoningTokens := Absent;
               cachedInputTokens := Absent |}, []).
Proof. by repeat split. Qed.

End UsageExtras.

(* ===================================================================== *)
(** ** The Google tools plugin *)
(* ===================================================================== *)

Module GoogleToolsFacts.
Import Engine GoogleTools.

Section Plugin.
Context {R T : Type}.
Variable googleTools : ToolConfigKey → option value.

Lemma toolNameMap_inj : Inj (=) (=) toolNameMap.
Proof. intros [] []; simpl; by intros [=]. Qed.

Lemma builtTools_lookup (config : ToolConfig) (key : ToolConfigKey) :
  builtTools googleTools config !! toolNameMap key
  = if usable googleTools config key then googleTools key else None.
Proof.
  unfold builtTools, usable, allKeys. cbn [foldl].
  destruct key; cbn [toolNameMap];
    destruct (googleTools googleSearch) eqn:Hs, (googleTools urlContext) eqn:Hu,
      (googleTools codeExecution) eqn:Hc;
    destruct (enabledKey config googleSearch), (enabledKey config urlContext),
      (enabledKey config codeExecution);
    cbn [andb];
    rewrite ?bool_decide_eq_true_2 by done;
    rewrite ?bool_decide_eq_false_2 by (by intros [? ?]);
    rewrite ?lookup_insert, ?lookup_empty; by repeat case_decide.
Qed.

(** X12.  The parameters after the [transformParams] hook of
    [googleToolsPlugin].  The context is not changed, and no property other
    than [tools] is.  Unless the provider of the request is [google], a
    configuration is given and it enables a tool that [google.tools] has,
    the parameters are returned as they are.  Otherwise [tools] holds, for
    every enabled key, the Google tool under the name of [toolNameMap],
    and every tool of the request under any other name is kept. *)
Theorem google_tools_are_added_to_the_tool_set (config : option ToolConfig)
    (rc : RecursiveCall (R:=R)) (params : object) (c : AiRequestContext) :
  let applies :=
    match config with
    | Some cfg => String.eqb (providerId c) "google" && existsb (usable googleTools cfg) allKeys
    | None => false
    end in
  ∃ result,
    executeTransformParams rc [googleToolsPlugin (R:=R) (T:=T) googleTools config] params c
    = (Ok result, c)
    ∧ (∀ k, k ≠ "tools" → result !! k = params !! k)
    ∧ (applies = false → result = params)
    ∧ (applies = true →
       ∃ cfg tools,
         config = Some cfg
         ∧ result !! "tools" = Some (VObj tools)
         ∧ (∀ key, usable googleTools cfg key = true →
                   tools !! toolNameMap key = googleTools key)
         ∧ (∀ name, (∀ key, usable googleTools cfg key = true → toolNameMap key ≠ name) →
                    tools !! name = toolSet (prop params "tools") !! name)).
Proof.
  cbn [executeTransformParams googleToolsPlugin transformParams].
  unfold bind, ret, googleTransformParams, spread.
  destruct config as [cfg|]; [|exists params; by rewrite (left_id_L ∅ (∪))].
  destruct (String.eqb (providerId c) "google"); cbn [negb andb];
    [|exists params; by rewrite (left_id_L ∅ (∪))].
  destruct (existsb (usable googleTools cfg) allKeys) eqn:Hany; cbn [negb];
    [|exists params; by rewrite (left_id_L ∅ (∪))].
  eexists. split; [done|]. split; [|split; [done|]].
  - intros k Hk. by rewrite lookup_union_r by (by rewrite lookup_singleton_ne).
  - intros _. exists cfg. eexists. split; [done|]. split.
    { by rewrite (lookup_union_l' _ _ "tools") by (by rewrite lookup_singleton_eq). }
    split.
    + intros key Hkey. rewrite lookup_union_l' by (rewrite builtTools_lookup, Hkey;
        unfold usable in Hkey; apply andb_true_iff in Hkey as [_ Hkey];
        by apply bool_decide_eq_true in Hkey).
      by rewrite builtTools_lookup, Hkey.
    + intros name Hname. apply lookup_union_r.
      destruct (builtTools googleTools cfg !! name) eqn:Hbuilt; [|done]. exfalso.
      assert (∃ key, name = toolNameMap key ∧ usable googleTools cfg key = true)
        as (key & -> & Hkey); [|by apply (Hname key)].
      unfold builtTools, allKeys in Hbuilt. cbn [foldl] in Hbuilt.
      repeat match type of Hbuilt with
             | context [if usable googleTools cfg ?k then _ else _] =>
                 destruct (usable googleTools cfg k) eqn:?;
                 [destruct (googleTools k) eqn:?|]
             end;
        rewrite ?lookup_insert in Hbuilt; repeat case_decide; subst;
        try (rewrite lookup_empty in Hbuilt; discriminate);
        first [by exists googleSearch | by exists urlContext | by exists codeExecution].
Qed.

End Plugin.
End GoogleToolsFacts.

(* ===================================================================== *)
(** ** The runtime executor *)
(* ===================================================================== *)

Module ExecutorFacts.
Import Engine RuntimeExecutor.

Section Executor.
Context {R T : Type}.
Variable sdk : Sdk R.
Variable providerId : string.
Variable providerSettings : value.
Variable self : value.
Variable DEFAULT_SEPARATOR : list ascii.
Variable globalRegistryManagement : ModelResolver.Registry (outcome value).
Variable _streamText : object → option (Transform T) → M R.
Variable _generateText : object → M R.
Variable modelMustBeV3 : error.
Implicit Types (plugins rest basePlugins : list (AiPlugin R T)) (p : AiPlugin R T).

Local Abbreviation resolverPlugin :=
  (createResolveModelPlugin (R:=R) (T:=T) providerId providerSettings DEFAULT_SEPARATOR
     globalRegistryManagement modelMustBeV3).
Local Abbreviation contextPlugin := (createConfigureContextPlugin (R:=R) (T:=T) self).

Lemma executeFirst_app (rc : RecursiveCall) (hookName : FirstHook) plugins rest
    (arg : string) (c : AiRequestContext) :
  executeFirst rc hookName (plugins ++ rest) arg c
  = match executeFirst rc hookName plugins arg c with
    | (Ok r, c1) => if isNullish r then executeFirst rc hookName rest arg c1 else (Ok r, c1)
    | other => other
    end.
Proof.
  revert c. induction plugins as [|p plugins IH]; intros c; [done|].
  cbn [app executeFirst]. destruct (firstHook hookName p) as [hook|]; [|apply IH].
  unfold bind. destruct (hook rc arg c) as [[r|e|] c1]; [|done..].
  destruct (isNullish r) eqn:Hr; [apply IH|]. unfold ret. by rewrite Hr.
Qed.

Lemma executeFirst_defined (rc : RecursiveCall) (hookName : FirstHook) plugins
    (arg : string) (c : AiRequestContext) r c' :
  executeFirst rc hookName plugins arg c = (Ok r, c') → isNullish r = true → r = VNull.
Proof.
  revert c. induction plugins as [|p plugins IH]; intros c.
  - by intros [= <- <-].
  - cbn [executeFirst]. destruct (firstHook hookName p) as [hook|]; [|apply IH].
    unfold bind. destruct (hook rc arg c) as [[r0|e|] c1]; [|done..].
    destruct (isNullish r0) eqn:Hr; [apply IH|].
    unfold ret. intros [= <- <-]. congruence.
Qed.

Lemma executeFirst_congruence (rc : RecursiveCall) (hookName : FirstHook)
    plugins plugins' rest rest' (arg : string) :
  (∀ c, executeFirst rc hookName plugins arg c = executeFirst rc hookName plugins' arg c) →
  (∀ c, executeFirst rc hookName rest arg c = executeFirst rc hookName rest' arg c) →
  ∀ c, executeFirst rc hookName (plugins ++ rest) arg c
       = executeFirst rc hookName (plugins' ++ rest') arg c.
Proof.
  intros H1 H2 c. rewrite !executeFirst_app, H1.
  destruct (executeFirst rc hookName plugins' arg c) as [[r|e|] c1]; [|done..].
  by rewrite H2.
Qed.

Lemma executeFirst_declining (rc : RecursiveCall) (hookName : FirstHook) plugins p
    (arg : string) :
  firstHook hookName p = None →
  ∀ c, executeFirst rc hookName (plugins ++ [p]) arg c
       = executeFirst rc hookName plugins arg c.
Proof.
  intros Hp c. rewrite executeFirst_app.
  destruct (executeFirst rc hookName plugins arg c) as [[r|e|] c1] eqn:Hrun; [|done..].
  destruct (isNullish r) eqn:Hr; [|done].
  cbn [executeFirst]. rewrite Hp. unfold ret.
  by rewrite (executeFirst_defined _ _ _ _ _ _ _ Hrun Hr).
Qed.

Lemma sortPlugins_internal basePlugins :
  sortPlugins (basePlugins ++ [resolverPlugin; contextPlugin])
  = (filter (λ p, isPre p = true) basePlugins
     ++ (filter (λ p, isNormal p = true) basePlugins ++ [contextPlugin])
     ++ filter (λ p, isPost p = true) basePlugins)
    ++ [resolverPlugin].
Proof.
  unfold sortPlugins. rewrite !filter_app. cbn. by rewrite app_nil_r, <- !app_assoc.
Qed.

(** X13.  The resolver that the runtime executor registers for a request
    with a string model id is the last resort: the [resolveModel] hooks of
    the plugins of the engine are tried first, in the order of the manager,
    and the registry is asked only when every one of them declines. *)
Theorem builtin_resolver_is_the_last_resort (rc : RecursiveCall) basePlugins
    (requested modelId : string) (c : AiRequestContext) :
  executeFirst rc ResolveModel
    (PluginManager
       (EngineRegistry.usePlugins basePlugins
          (internalPlugins self resolverPlugin (VStr requested))))
    modelId c
  = match executeFirst rc ResolveModel (PluginManager basePlugins) modelId c with
    | (Ok r, c1) =>
        if isNullish r then
          match resolveModel providerId providerSettings DEFAULT_SEPARATOR
                  globalRegistryManagement modelMustBeV3 (VStr modelId) c1 with
          | (Ok m, c2) => (Ok (if isNullish m then VNull else m), c2)
          | other => other
          end
        else (Ok r, c1)
    | other => other
    end.
Proof.
  unfold EngineRegistry.usePlugins, internalPlugins, PluginManager. cbn [isString].
  rewrite sortPlugins_internal, executeFirst_app.
  assert (Hsame : ∀ c,
            executeFirst rc ResolveModel
              (filter (λ p, isPre p = true) basePlugins
               ++ (filter (λ p, isNormal p = true) basePlugins ++ [contextPlugin])
               ++ filter (λ p, isPost p = true) basePlugins) modelId c
            = executeFirst rc ResolveModel (sortPlugins basePlugins) modelId c).
  { unfold sortPlugins. apply executeFirst_congruence; [done|].
    apply executeFirst_congruence; [|done]. by apply executeFirst_declining. }
  rewrite Hsame.
  destruct (executeFirst rc ResolveModel (sortPlugins basePlugins) modelId c)
    as [[r|e|] c1]; [|done..].
  destruct (isNullish r); [|done].
  cbn [executeFirst firstHook createResolveModelPlugin Engine.resolveModel].
  unfold bind, ret.
  destruct (resolveModel _ _ _ _ _ _ c1) as [[m|e|] c2]; [|done..].
  by destruct (isNullish m).
Qed.

Local Ltac settle :=
  unfold wrapWithMiddlewares; simpl;
  split; [by destruct (_streamText _ _ _) as [[?|?|] ?]
         |by destruct (_generateText _ _) as [[?|?|] ?]].

(** X14.  A call of [streamText] or [generateText] on an executor without
    plugins.  For a model that is [undefined] or [null], reading its
    [modelId] throws a [TypeError] before anything else happens.
    Otherwise the context is created for the request, [recursiveCall] is
    installed and [context.executor] is set.  A string model id is
    resolved through the registry: what the registry throws is thrown, a
    falsy answer is a [ModelResolutionError], and otherwise the AI SDK is
    called with the parameters of the caller in which [model] is the
    resolved model; a model object is passed to the SDK as it is, and
    another falsy model ([false], [0]) is a [ModelResolutionError].  The SDK
    gets the [experimental_transform] of the caller, if any, and the outcome
    of the call is the outcome of the SDK. *)
Theorem plain_calls_reach_the_sdk (fuel : nat) (params : object)
    (requestId : string) (startTime : Z) :
  let model := prop params "model" in
  let fresh := createContext providerId model params requestId startTime in
  let c0 :=
    set_dynamic (<["executor" := self]> ∅)
      (set_recursiveCall (EngineClosure params) fresh) in
  let resolved (call : value → M R) : outcome R * AiRequestContext :=
    match model with
    | VUndefined | VNull => (Throw (TypeError model "modelId"), fresh)
    | VStr modelId =>
        match ModelResolver.resolveLanguageModel DEFAULT_SEPARATOR
                globalRegistryManagement (Text.ofString modelId)
                (Text.ofString providerId) providerSettings with
        | Ok m =>
            if truthy m then call m c0
            else (Throw (ModelResolutionError model providerId), c0)
        | Throw e => (Throw e, c0)
        | Diverge => (Diverge, c0)
        end
    | _ =>
        if truthy model then call model c0
        else (Throw (ModelResolutionError (getProp model "modelId") providerId), c0)
    end in
  (streamText sdk providerId providerSettings self DEFAULT_SEPARATOR
     globalRegistryManagement _streamText modelMustBeV3 (S fuel) [] params
     requestId startTime).2
  = resolved (λ m, _streamText (delete "experimental_transform" (callParams m params))
                     (experimental_transform params []))
  ∧ (generateText (T:=T) sdk providerId providerSettings self DEFAULT_SEPARATOR
       globalRegistryManagement _generateText modelMustBeV3 (S fuel) [] params
       requestId startTime).2
    = resolved (λ m, _generateText (callParams m params)).
Proof.
  unfold streamText, generateText, executeStreamWithPlugins, executeWithPlugins,
    contextFor, EngineRegistry.usePlugins, internalPlugins.
  cbn [default lifecycle snd app]. unfold lifecycleBody, tryCatch, tryBlock, produceResult,
    prepare, resolve, catchBlock.
  destruct (prop params "model") as [| |b|z|s|items|fields] eqn:Hmodel; simpl;
    unfold executeParallel, bind, ret, throw, getContext, modifyContext, spread; simpl;
    rewrite ?(left_id_L ∅ (∪)); try done.
  - destruct b; simpl; [|done]. settle.
  - destruct (z =? 0); simpl; [done|]. settle.
  - unfold withoutContext.
    destruct (ModelResolver.resolveLanguageModel _ _ _ _ _) as [m|e0|];
      simpl; try done.
    destruct (isNullish m) eqn:Hnull; simpl.
    + by destruct m.
    + destruct (truthy m) eqn:Htruthy; simpl; rewrite ?Htruthy; simpl; [|done]. settle.
  - settle.
  - settle.
Qed.

End Executor.
End ExecutorFacts.

(* ===================================================================== *)
(** ** Middleware plugins *)
(* ===================================================================== *)

Module MiddlewareFacts.
Import Engine Text TextFacts Middleware.

Lemma endsWith_suffix (enableThinking : bool) (s : list ascii) :
  endsWith (ofString "/think") (s ++ suffix enableThinking)
  || endsWith (ofString "/no_think") (s ++ suffix enableThinking) = true.
Proof.
  destruct enableThinking; unfold suffix.
  - change (ofString " /think") with (ofString " " ++ ofString "/think").
    by rewrite app_assoc, endsWith_app.
  - change (ofString " /no_think") with (ofString " " ++ ofString "/no_think").
    by rewrite app_assoc, endsWith_app, orb_true_r.
Qed.

Lemma appendSuffix_marked (enableThinking : bool) (part : Part) :
  marked (appendSuffix enableThinking part).
Proof.
  unfold appendSuffix, marked.
  destruct (String.eqb (type part) "text") eqn:Htype; cbn [andb].
  2: { intros Ht. apply String.eqb_neq in Htype. done. }
  destruct (endsWith (ofString "/think") (text part)) eqn:H1; cbn [negb andb].
  - intros _. by rewrite H1.
  - destruct (endsWith (ofString "/no_think") (text part)) eqn:H2; cbn [negb].
    + intros _. by rewrite H1, H2.
    + intros _. cbn [text]. apply endsWith_suffix.
Qed.

Lemma appendSuffix_fixed (enableThinking : bool) (part : Part) :
  marked part → appendSuffix enableThinking part = part.
Proof.
  unfold appendSuffix, marked. intros Hm.
  destruct (String.eqb (type part) "text") eqn:Htype; [|done].
  apply String.eqb_eq in Htype. specialize (Hm Htype).
  by destruct (endsWith (ofString "/think") (text part)),
    (endsWith (ofString "/no_think") (text part)).
Qed.

(** X15.  The Qwen thinking middleware marks each text part of a user
    message once.  After it has run, every text part of a user message
    whose content is a list of parts ends with [/think] or [/no_think];
    running it again, with either setting, changes nothing, so the suffix
    that was appended first stays.  Messages of other roles, string
    contents, parts of other types, the number and order of messages and
    parts, and all other options are left as they are. *)
Theorem qwen_suffix_is_appended_once (enableThinking again : bool) (params : CallOptions) :
  qwenTransformParams again (qwenTransformParams enableThinking params)
  = qwenTransformParams enableThinking params
  ∧ options (qwenTransformParams enableThinking params) = options params
  ∧ match prompt params, prompt (qwenTransformParams enableThinking params) with
    | Some messages, Some messages' =>
        Forall2 (λ m m',
                   role m' = role m ∧ messageOptions m' = messageOptions m
                   ∧ (role m ≠ "user" → m' = m)
                   ∧ match content m, content m' with
                     | StringContent s, StringContent s' => s' = s
                     | Parts parts, Parts parts' =>
                         Forall2 (λ p p',
                                    type p' = type p ∧ partOptions p' = partOptions p
                                    ∧ (type p ≠ "text" → p' = p)
                                    ∧ (∃ added, text p' = text p ++ added)
                                    ∧ (role m = "user" → marked p')) parts parts'
                     | _, _ => False
                     end) messages messages'
    | None, None => True
    | _, _ => False
    end.
Proof.
  unfold qwenTransformParams. cbn [prompt options]. split; [|split; [done|]].
  - f_equal. destruct (prompt params) as [messages|]; [|done]. cbn. f_equal.
    rewrite <- list_fmap_compose. apply list_fmap_ext. intros _ m _. cbn.
    unfold processMessage. destruct (String.eqb (role m) "user") eqn:Hrole; [|by rewrite Hrole].
    destruct (content m) as [s|parts] eqn:Hcontent; cbn [role content messageOptions].
    + by rewrite Hrole, Hcontent.
    + rewrite Hrole. do 2 f_equal. rewrite <- list_fmap_compose.
      apply list_fmap_ext. intros _ p _. cbn.
      apply appendSuffix_fixed, appendSuffix_marked.
  - destruct (prompt params) as [messages|]; [|done]. cbn.
    apply Forall2_fmap_r, Forall_Forall2_diag, Forall_forall. intros m _.
    unfold compose, processMessage. cbn beta.
    destruct (String.eqb (role m) "user") eqn:Hrole.
    + apply String.eqb_eq in Hrole.
      destruct (content m) as [s|parts] eqn:Hcontent; cbn [role content messageOptions].
      * rewrite ?Hcontent. by repeat split.
      * repeat split; try done.
        apply Forall2_fmap_r, Forall_Forall2_diag, Forall_forall. intros p _.
        unfold compose. cbn beta.
        pose proof (appendSuffix_marked enableThinking p) as Hmarked.
        unfold appendSuffix in *.
        destruct (String.eqb (type p) "text" && _ && _) eqn:Hcond; cbn.
        -- repeat split; try done; [|by eexists].
           intros Hne. apply andb_true_iff in Hcond as [[Ht%String.eqb_eq _]%andb_true_iff _].
           done.
        -- repeat split; try done. exists []. by rewrite app_nil_r.
    + apply String.eqb_neq in Hrole. repeat split; try done.
      destruct (content m) as [s|parts]; [done|].
      apply Forall_Forall2_diag, Forall_forall. intros p _.
      repeat split; try done. exists []. by rewrite app_nil_r.
Qed.

Lemma prop_insert (k : string) (v : value) (o : object) : prop (<[k:=v]> o) k = v.
Proof. unfold prop. by rewrite lookup_insert_eq. Qed.

(** X16.  The OpenRouter image middleware sets
    [providerOptions.openrouter.modalities] to [['image', 'text']] and
    changes nothing else: the other call options, the options of the other
    providers and the other OpenRouter options are kept, and applying it
    again changes nothing. *)
Theorem openrouter_modalities_are_set (params : object) :
  optionalObject (prop params "providerOptions") →
  optionalObject (getProp (prop params "providerOptions") "openrouter") →
  let result := openrouterTransformParams params in
  getProp (getProp (prop result "providerOptions") "openrouter") "modalities"
  = VArr [VStr "image"; VStr "text"]
  ∧ (∀ k, k ≠ "providerOptions" → result !! k = params !! k)
  ∧ (∀ provider, provider ≠ "openrouter" →
       properties (prop result "providerOptions") !! provider
       = properties (prop params "providerOptions") !! provider)
  ∧ (∀ k, k ≠ "modalities" →
       properties (getProp (prop result "providerOptions") "openrouter") !! k
       = properties (getProp (prop params "providerOptions") "openrouter") !! k)
  ∧ openrouterTransformParams result = result.
Proof.
  intros _ _. unfold openrouterTransformParams.
  set (inner := <["modalities" := VArr [VStr "image"; VStr "text"]]> _).
  set (outer := <["openrouter" := VObj inner]> _).
  cbn zeta. rewrite !prop_insert. cbn [getProp properties].
  assert (Houter : prop outer "openrouter" = VObj inner) by apply prop_insert.
  assert (Hinner : prop inner "modalities" = VArr [VStr "image"; VStr "text"])
    by apply prop_insert.
  rewrite !Houter. cbn [getProp properties]. rewrite Hinner.
  split; [done|]. split; [|split; [|split]].
  - intros k Hk. by rewrite lookup_insert_ne.
  - intros provider Hp. unfold outer. by rewrite lookup_insert_ne.
  - intros k Hk. unfold inner. by rewrite lookup_insert_ne.
  - rewrite insert_insert_eq. do 2 f_equal.
    assert (<["modalities" := VArr [VStr "image"; VStr "text"]]> inner = inner) as ->
      by (unfold inner; by rewrite insert_insert_eq).
    unfold outer. by rewrite insert_insert_eq.
Qed.

Lemma openrouter_modalities_are_set_witness :
  optionalObject (prop {[ "temperature" := VNum 1 ]} "providerOptions")
  ∧ optionalObject (getProp (prop {[ "temperature" := VNum 1 ]} "providerOptions")
                      "openrouter")
  ∧ getProp (getProp (prop (openrouterTransformParams {[ "temperature" := VNum 1 ]})
                        "providerOptions") "openrouter") "modalities"
    = VArr [VStr "image"; VStr "text"].
Proof.
  split; [exact I|]. split; [exact I|].
  exact (proj1 (openrouter_modalities_are_set {[ "temperature" := VNum 1 ]} I I)).
Defined.

Section Plugins.
Context {R T : Type}.

Lemma middleware_hooks_run (rc : RecursiveCall (R:=R)) (specs : list (string * value))
    (c : AiRequestContext) :
  executeConfigureContext rc
    ((λ s, middlewarePlugin (R:=R) (T:=T) s.1 s.2) <$> specs) c
  = (Ok tt,
     match specs with
     | [] => c
     | _ :: _ => set_middlewares (Some (default [] (middlewares c) ++ specs.*2)) c
     end).
Proof.
  revert c. induction specs as [|[name mw] specs IH]; intros c; [done|].
  cbn [fmap list_fmap executeConfigureContext middlewarePlugin configureContext].
  unfold bind, pushMiddleware, modifyContext. cbn [fst snd].
  change (list_fmap _ _ ?f specs) with (f <$> specs).
  rewrite IH. destruct specs as [|spec specs]; [done|].
  cbn [middlewares set_middlewares default]. unfold id.
  by rewrite <- app_assoc.
Qed.

(** X17.  The plugins of the renderer that register a middleware
    ([simulateStreaming], [reasoningExtraction], [qwenThinking],
    [openrouterReasoning], [openrouterGenerateImage]) are of tier [pre] and
    only append to [context.middlewares]: when the [configureContext]
    hooks of a list of them have run, the list of the context, created if
    it was missing, is extended by their middlewares in the order of the
    plugins, and nothing else in the context has changed.  A manager keeps
    such plugins in the order they are given in.  The hooks do not check
    what the list holds: run again on the same context, as at every
    recursive call, they append the same middlewares again. *)
Theorem middleware_plugins_append_in_order (rc : RecursiveCall (R:=R))
    (spec : string * value) (specs : list (string * value)) (c : AiRequestContext) :
  let plugins := (λ s, middlewarePlugin (R:=R) (T:=T) s.1 s.2) <$> (spec :: specs) in
  let added := (spec :: specs).*2 in
  let c1 := set_middlewares (Some (default [] (middlewares c) ++ added)) c in
  PluginManager plugins = plugins
  ∧ executeConfigureContext rc plugins c = (Ok tt, c1)
  ∧ executeConfigureContext rc plugins c1
    = (Ok tt, set_middlewares (Some (default [] (middlewares c) ++ added ++ added)) c).
Proof.
  cbn zeta. split; [|split].
  - unfold PluginManager, sortPlugins.
    assert (Hpre : ∀ l : list (string * value),
              filter (λ p : AiPlugin R T, isPre p = true)
                ((λ s, middlewarePlugin s.1 s.2) <$> l)
              = (λ s, middlewarePlugin s.1 s.2) <$> l).
    { induction l as [|x l IH]; [done|]. cbn [fmap list_fmap].
      rewrite filter_cons_True by done. f_equal. exact IH. }
    assert (Hnone : ∀ (P : AiPlugin R T → Prop) `{!∀ p, Decision (P p)}
                      (l : list (string * value)),
              (∀ s, ¬ P (middlewarePlugin s.1 s.2)) →
              filter P ((λ s, middlewarePlugin s.1 s.2) <$> l) = []).
    { intros P ? l HP. induction l as [|x l IH]; [done|]. cbn [fmap list_fmap].
      rewrite filter_cons_False by apply HP. exact IH. }
    rewrite Hpre, !Hnone by done. by rewrite !app_nil_r.
  - by rewrite middleware_hooks_run.
  - rewrite middleware_hooks_run. cbn [middlewares set_middlewares default].
    unfold id. by rewrite <- app_assoc.
Qed.

End Plugins.

End MiddlewareFacts.

(* ===================================================================== *)
(** * The prompt tool-use plugin: text blocks and first calls *)
(* ===================================================================== *)

Module PromptFacts.
Import Engine Stream TextBlocks.

Lemma visible_app a b : visible (a ++ b) = visible a ++ visible b.
Proof. unfold visible. by rewrite filter_app, fmap_app. Qed.

Lemma visible_cons r rest :
  visible (r :: rest) = if forwarded r then r.1 :: visible rest else visible rest.
Proof.
  unfold visible. rewrite filter_cons.
  destruct (forwarded r) eqn:H; case_decide; try done.
Qed.

Lemma readAll_ofList chunks c : readAll (ofList chunks) c = (chunks, Ok (), c).
Proof.
  induction chunks as [|ch rest IH]; [done|]. cbn [ofList readAll]. by rewrite IH.
Qed.

Section Transform.
Context {X E : Type}.
Variable newTagExtractor : X.
Variable processText : X → string → list (string * bool) * X.
Variable executeTools :
  list ToolUseResult → object → AiRequestContext → list chunk * list E * AiRequestContext.
Variable formatToolResults : list E → string.
Variable config : PromptToolUseConfig.

Local Abbreviation transform := (transform processText executeTools formatToolResults config).
Local Abbreviation transformAll :=
  (transformAll processText executeTools formatToolResults config).

(** What the loop over the extraction results forwards. *)
Lemma forwardText_visible tid results pending started :
  forwardText tid results pending started =
  match visible results with
  | [] => ([], pending, started)
  | fragments =>
      match started, pending with
      | false, Some textStart => (textStart :: (TextDelta tid <$> fragments), None, true)
      | _, _ => (TextDelta tid <$> fragments, pending, started)
      end
  end.
Proof.
  revert pending started. induction results as [|[content isTag] rest IH]; intros; [done|].
  rewrite visible_cons. cbn [forwardText]. unfold forwarded. cbn [fst snd].
  destruct (negb isTag && negb (String.eqb content "")); [|apply IH].
  destruct started, pending as [ts|]; rewrite IH; by destruct (visible rest).
Qed.

Lemma forwardText_app tid a b pending started :
  forwardText tid (a ++ b) pending started =
  let '(outs, pending1, started1) := forwardText tid a pending started in
  let '(more, pending2, started2) := forwardText tid b pending1 started1 in
  (outs ++ more, pending2, started2).
Proof.
  revert pending started. induction a as [|[content isTag] rest IH]; intros.
  - cbn. by destruct (forwardText tid b pending started) as [[? ?] ?].
  - cbn [app forwardText].
    destruct (negb isTag && negb (String.eqb content "")); [|apply IH].
    destruct started, pending as [ts|]; rewrite IH;
      destruct (forwardText tid rest _ _) as [[o1 p1] s1];
      by destruct (forwardText tid b p1 s1) as [[o2 p2] s2].
Qed.

(** A run of text-delta chunks of one block, followed by other chunks. *)
Lemma transformAll_deltas rc tid texts tail : ∀ st c,
  transformAll rc st ((TextDelta tid <$> texts) ++ tail) c =
  let results := extractAll processText (tagExtractor st) texts in
  let '(outs, pending, started) :=
    forwardText tid results.1 (pendingTextStart st) (hasStartedText st) in
  let '(more, r, c') :=
    transformAll rc
      (mkTransformState (buffered (textBuffer st) texts) pending started results.2) tail c in
  (outs ++ more, r, c').
Proof.
  induction texts as [|text rest IH]; intros st c.
  - cbn. destruct st; cbn. by destruct (Stream.transformAll _ _ _ _ _ _ _ _) as [[? ?] ?].
  - cbn [fmap list_fmap app Stream.transformAll Stream.transform extractAll].
    change (list_fmap _ _ (TextDelta tid) rest) with (TextDelta tid <$> rest).
    destruct (processText (tagExtractor st) text) as [results x1].
    destruct (extractAll processText x1 rest) as [more x2] eqn:Hrest.
    cbn [fst snd]. rewrite forwardText_app.
    destruct (forwardText tid results _ _) as [[o1 p1] s1].
    rewrite IH. cbn [tagExtractor pendingTextStart hasStartedText textBuffer].
    rewrite Hrest. cbn [fst snd buffered foldl].
    destruct (forwardText tid more p1 s1) as [[o2 p2] s2].
    unfold buffered.
    destruct (Stream.transformAll _ _ _ _ _ _ _ _) as [[o3 r] c3].
    by rewrite app_assoc.
Qed.

(** X18.  On a text-delta chunk the transform forwards the fragments
    that the tag extractor reports as text outside the tag and that are not
    empty, in order, each as a text-delta of the same block; the held
    text-start goes out before them if none was sent since the last flush
    and at least one fragment is forwarded.  The whole text of the chunk,
    tags included, is appended to the text buffer; the context is left as
    it is and nothing is thrown. *)
Theorem text_delta_forwards_visible_fragments
    (rc : RecursiveCall (R:=StreamTextResult)) (st : TransformState (X:=X))
    (tid text : string) (c : AiRequestContext) :
  let extraction := processText (tagExtractor st) text in
  let fragments := TextDelta tid <$> visible extraction.1 in
  transform rc st (TextDelta tid text) c =
  match visible extraction.1, hasStartedText st, pendingTextStart st with
  | _ :: _, false, Some textStart =>
      (textStart :: fragments,
       Ok (mkTransformState (textBuffer st +:+ text) None true extraction.2), c)
  | _, _, _ =>
      (fragments,
       Ok (mkTransformState (textBuffer st +:+ text) (pendingTextStart st)
             (hasStartedText st) extraction.2), c)
  end.
Proof.
  intros extraction fragments. subst fragments extraction. unfold Stream.transform.
  destruct (processText (tagExtractor st) text) as [results x1]. cbn [fst snd].
  rewrite forwardText_visible.
  destruct (visible results); [done|].
  by destruct (hasStartedText st), (pendingTextStart st).
Qed.

(** X19.  A text block (text-start, text-deltas, text-end) that arrives
    while no text-start has been sent is forwarded as a block made of the
    fragments outside the tool-use tag, and is dropped as a whole, its
    text-start and text-end included, when it has no such fragment.  The
    text buffer receives every text of the block either way. *)
Theorem text_block_without_visible_text_is_dropped
    (rc : RecursiveCall (R:=StreamTextResult)) (textBuffer : string)
    (pending : option chunk) (extractor : X) (tid : string) (texts : list string)
    (c : AiRequestContext) :
  let extraction := extractAll processText extractor texts in
  transformAll rc (mkTransformState textBuffer pending false extractor)
    (TextStart tid :: (TextDelta tid <$> texts) ++ [TextEnd tid]) c =
  match visible extraction.1 with
  | [] =>
      ([], Ok (mkTransformState (buffered textBuffer texts) (Some (TextStart tid)) false
                 extraction.2), c)
  | fragments =>
      (TextStart tid :: (TextDelta tid <$> fragments) ++ [TextEnd tid],
       Ok (mkTransformState (buffered textBuffer texts) None true extraction.2), c)
  end.
Proof.
  intros extraction. subst extraction.
  cbn [Stream.transformAll Stream.transform].
  cbn [Stream.textBuffer hasStartedText tagExtractor].
  rewrite transformAll_deltas.
  cbn [Stream.textBuffer hasStartedText tagExtractor pendingTextStart].
  rewrite forwardText_visible.
  by destruct (visible _).
Qed.

End Transform.

Lemma tools_partition (tools : object) :
  providerDefinedTools tools ##ₘ promptTools tools
  ∧ providerDefinedTools tools ∪ promptTools tools = tools.
Proof.
  unfold providerDefinedTools, promptTools. split.
  - apply map_disjoint_spec. intros k a b [Hka Ha]%map_lookup_filter_Some [Hkb Hb]%map_lookup_filter_Some.
    simpl in *. congruence.
  - apply map_eq. intros k. destruct (tools !! k) as [tool|] eqn:Hk.
    + destruct (isProviderTool tool) eqn:Hp.
      * apply lookup_union_Some_l. by apply map_lookup_filter_Some.
      * rewrite lookup_union_r.
        -- by apply map_lookup_filter_Some.
        -- apply map_lookup_filter_None. right. intros a Ha. simpl. congruence.
    + apply lookup_union_None. split; apply map_lookup_filter_None; by left.
Qed.

(** X20.  On the first call of a request that carries a tool set, the
    enabled plugin splits the tools in two: the provider-defined ones stay
    in the parameters ([undefined] if there is none), the others go to
    [context.mcpTools] (left alone if there is none); no tool is in both
    parts and none is lost.  The system prompt becomes what
    [buildSystemPrompt] makes of the user's prompt and the prompt-mode
    tools, unless that is empty; every other parameter is kept, and the
    returned parameters are saved as [context.originalParams]. *)
Theorem first_call_sets_prompt_tools_aside
    (config : PromptToolUseConfig) (params tools : object) (c : AiRequestContext)
    (Henabled : enabled config = true)
    (Htools : prop params "tools" = VObj tools)
    (Hfirst : isRecursiveCall c = false) :
  let userSystemPrompt := match prop params "system" with VStr s => s | _ => "" end in
  let systemPrompt := buildSystemPrompt config userSystemPrompt (promptTools tools) in
  ∃ params' c',
    promptTransformParams config params c = (Ok params', c')
    ∧ prop params' "tools" = keptTools tools
    ∧ mcpTools c' = (if isEmptyObject (promptTools tools) then mcpTools c
                     else Some (promptTools tools))
    ∧ providerDefinedTools tools ##ₘ promptTools tools
    ∧ providerDefinedTools tools ∪ promptTools tools = tools
    ∧ params' !! "system" = (if String.eqb systemPrompt "" then params !! "system"
                             else Some (VStr systemPrompt))
    ∧ (∀ k, k ≠ "tools" → k ≠ "system" → params' !! k = params !! k)
    ∧ originalParams c' = params'.
Proof.
  intros userSystemPrompt systemPrompt.
  unfold promptTransformParams. rewrite Htools, Henabled. cbn [negb].
  unfold bind, modifyContext, getContext, ret.
  assert (Hrec : isRecursiveCall
            (if isEmptyObject (promptTools tools) then c
             else set_mcpTools (Some (promptTools tools)) c) = false)
    by by destruct (isEmptyObject _).
  rewrite Hrec. fold userSystemPrompt. fold systemPrompt.
  eexists _, _. split; [reflexivity|].
  split; [unfold prop; by rewrite lookup_insert_eq|].
  split; [by destruct (isEmptyObject _)|].
  split; [apply tools_partition|]. split; [apply tools_partition|].
  split.
  - rewrite lookup_insert_ne by done.
    destruct (String.eqb systemPrompt ""); [done|by rewrite lookup_insert_eq].
  - split; [|done]. intros k Hk1 Hk2. rewrite lookup_insert_ne by done.
    destruct (String.eqb systemPrompt ""); [done|by rewrite lookup_insert_ne].
Qed.

Lemma first_call_sets_prompt_tools_aside_witness :
  ∃ params' c',
    promptTransformParams StreamExamples.searchConfig StreamExamples.searchRequest
      (Examples.freshContext StreamExamples.searchRequest) = (Ok params', c')
    ∧ prop params' "tools" = keptTools StreamExamples.searchTools
    ∧ mcpTools c' = Some (promptTools StreamExamples.searchTools)
    ∧ params' !! "system" = Some (VStr "TOOLS Be brief.").
Proof.
  destruct (first_call_sets_prompt_tools_aside StreamExamples.searchConfig
              StreamExamples.searchRequest StreamExamples.searchTools
              (Examples.freshContext StreamExamples.searchRequest)
              eq_refl eq_refl eq_refl)
    as (params' & c' & H & Htools & Hmcp & _ & _ & Hsys & _).
  exists params', c'. split; [exact H|]. split; [exact Htools|].
  split; [exact Hmcp|exact Hsys].
Defined.

(** X21.  A streaming request without a tool set (or with the plugin
    disabled), whose model is an already resolved handle, is answered with
    the chunks of the provider as they are: the plugin changes no
    parameter, its stream transform is the identity, and the consumer
    reads exactly what the provider sent. *)
Theorem request_without_tools_streams_unchanged {X E : Type}
    (newTagExtractor : X) (processText : X → string → list (string * bool) * X)
    (executeTools :
       list ToolUseResult → object → AiRequestContext
       → list chunk * list E * AiRequestContext)
    (formatToolResults : list E → string) (config : PromptToolUseConfig)
    (wrap : value → list value → value) (pid : string)
    (provider : value → object → list chunk) (n : nat) (params : object)
    (requestId : string) (startTime : Z)
    (Hmodel : isString (prop params "model") = false ∧ truthy (prop params "model") = true)
    (Hnone : enabled config = false ∨ ∀ tools, prop params "tools" ≠ VObj tools) :
  ∃ s c',
    executeStreamWithPlugins (S n) (streamSdk wrap) pid
      [createPromptToolUsePlugin newTagExtractor processText executeTools
         formatToolResults config]
      params (streamText provider) None requestId startTime
    = (Ok (mkStreamTextResult (Some s)), c')
    ∧ readAll s c' = (provider (prop params "model") params, Ok tt, c').
Proof.
  destruct Hmodel as [Hstr Htruthy].
  unfold executeStreamWithPlugins, contextFor. cbn [default].
  assert (Hnull : isNullish (prop params "model") = false)
    by by destruct (prop params "model").
  rewrite StreamFacts.conversation_step. cbn zeta.
  rewrite Hnull, Hstr, Htruthy. cbn [orb negb].
  rewrite StreamFacts.promptTransformParams_passthrough by exact Hnone.
  unfold promptTransformStream. cbn.
  eexists _, _. split; [reflexivity|].
  unfold spread. rewrite map_union_idemp.
  apply readAll_ofList.
Qed.

Lemma request_without_tools_streams_unchanged_witness :
  ∃ s c',
    executeStreamWithPlugins 1 (streamSdk (λ m _, m)) "openai" [StreamExamples.searchPlugin]
      Examples.handleParams (streamText StreamExamples.searchProvider) None "req-1" 0
    = (Ok (mkStreamTextResult (Some s)), c')
    ∧ readAll s c'
      = (StreamExamples.searchProvider Examples.gpt4 Examples.handleParams, Ok tt, c').
Proof.
  apply (request_without_tools_streams_unchanged StreamExamples.toolUseExtractor
           StreamExamples.toolUseProcessText StreamExamples.echoTools
           StreamExamples.joinResults StreamExamples.searchConfig (λ m _, m) "openai"
           StreamExamples.searchProvider 0 Examples.handleParams "req-1" 0).
  - split; reflexivity.
  - right. intros tools H. vm_compute in H. discriminate H.
Defined.

End PromptFacts.
